(** * Provider failover and connection supervision

    A shallow embedding of the two core services of the backend:

    - [AI]        : backend/src/services/ai.service.ts
                    (provider pool, [getAvailableProvider], the retry loop
                    of [generateResponse]);
    - [WhatsApp]  : backend/src/services/whatsapp.service.ts
                    (rate window, message parsing, the send path and the
                    connection supervisor).

    JavaScript numbers that hold counters and epoch milliseconds are [Z].
    Thrown [Error] objects are represented by their message.  What the
    outside world answers (a provider backend, the database, the file
    system, a socket) is an explicit argument of the operation that
    asks for it.

    The methods are modelled at two levels.  At the first, every
    [async] method is run to completion: its suspension points
    ([await]) are collapsed, and a run is a sequence of calls and
    events each of which has ended before the next starts.  At the
    second, the three methods that hold state across an [await] which
    another operation can change meanwhile ([generateResponse],
    [sendMessage] and [handleReconnect]) are split at those points,
    and a run is a schedule of their halves; a method run alone is its
    halves one after the other.  Statements about runs of the first
    level say so; what fails when operations overlap is shown on
    schedules of the second. *)

From stdpp Require Import gmap strings list fin_maps sorting.
From Stdlib Require Import ZArith Lia.

Local Open Scope string_scope.
Local Open Scope list_scope.
Local Open Scope Z_scope.

(** Thrown errors, identified by their message. *)
Definition Error := string.

(** JavaScript's [a || b] on strings: the empty string is falsy. *)
Definition strOr (a : option string) (b : string) : string :=
  match a with
  | Some s => if String.eqb s "" then b else s
  | None => b
  end.

(** [a || undefined] on strings. *)
Definition strOrUndefined (a : option string) : option string :=
  match a with
  | Some s => if String.eqb s "" then None else Some s
  | None => None
  end.

(* ===================================================================== *)
(** * ai.service.ts *)
(* ===================================================================== *)

Module AI.

(** The four backends of [AIProviderType]; [loadProviders] switches on
    them (its [default: continue] branch is outside the type). *)
Inductive AIProviderType := CLAUDE | GEMINI | GROQ | COHERE.

(** [AIProviderConfig], as filled in by [loadProviders]. *)
Record AIProviderConfig := mkConfig {
  id : string;
  type : AIProviderType;
  apiKey : string;
  model : option string;
  dailyLimit : Z;
  usedToday : Z;
  priority : Z
}.

(** [config.usedToday = n] on the shared config object. *)
Definition setUsedToday (n : Z) (c : AIProviderConfig) : AIProviderConfig :=
  {| id := id c; type := type c; apiKey := apiKey c; model := model c;
     dailyLimit := dailyLimit c; usedToday := n; priority := priority c |}.

(** A row of the [aIProvider] table as [findMany] returns it. *)
Record ProviderRow := mkRow {
  row_id : string;
  row_type : AIProviderType;
  row_apiKey : string;
  row_model : option string;
  row_dailyLimit : Z;
  row_usedToday : Z;
  row_priority : Z
}.

(** A provider instance ([ClaudeProvider], [GeminiProvider], ...).  It
    keeps a reference to its config and reads [id], [apiKey] and
    [model] from it; none of the three is ever written after
    construction, so the instance is represented by its class and those
    fields. *)
Record AIProvider := mkProvider {
  providerClass : AIProviderType;
  providerId : string;
  providerApiKey : string;
  providerModel : option string
}.

(** [AIGenerationResult]. *)
Record AIGenerationResult := mkResult {
  content : string;
  resultProviderId : string;
  resultProviderType : AIProviderType;
  inputTokens : Z;
  outputTokens : Z;
  latencyMs : Z
}.

(** What a backend answers to one request: the reply fields the provider
    class marshals into a result, or a thrown error. *)
Record BackendReply := mkReply {
  replyContent : string;
  replyInputTokens : Z;
  replyOutputTokens : Z;
  replyLatencyMs : Z
}.

(** The outside world for one [generateResponse] call: the answer of the
    backend of [provider] at loop iteration [attempt].  The system
    prompt and the message history (built before the loop, lines
    323-324) are the same at every attempt and are part of the oracle. *)
Definition Backend := nat -> AIProvider -> BackendReply + Error.

(** [provider.generate(systemPrompt, messages, context)]: each class
    returns [providerId: this.config.id] and its own type tag. *)
Definition generate (backend : Backend) (attempt : nat) (provider : AIProvider)
  : AIGenerationResult + Error :=
  match backend attempt provider with
  | inl r => inl {| content := replyContent r;
                    resultProviderId := providerId provider;
                    resultProviderType := providerClass provider;
                    inputTokens := replyInputTokens r;
                    outputTokens := replyOutputTokens r;
                    latencyMs := replyLatencyMs r |}
  | inr e => inr e
  end.

(** The in-memory fields of [AIService]. *)
Record AIService := mkService {
  providers : gmap string AIProvider;
  providerConfigs : list AIProviderConfig
}.

Definition maxRetries : nat := 3.

(** The config object [loadProviders] builds from a row; an empty
    [model] column becomes [undefined] ([p.model || undefined]). *)
Definition configOfRow (p : ProviderRow) : AIProviderConfig :=
  {| id := row_id p; type := row_type p; apiKey := row_apiKey p;
     model := strOrUndefined (row_model p); dailyLimit := row_dailyLimit p;
     usedToday := row_usedToday p; priority := row_priority p |}.

Definition providerOfConfig (c : AIProviderConfig) : AIProvider :=
  {| providerClass := type c; providerId := id c;
     providerApiKey := apiKey c; providerModel := model c |}.

(** [loadProviders], given the rows the query returned (active rows,
    ordered by the database on [priority] descending): the pool is
    rebuilt from scratch, one config pushed and one provider registered
    per row, in row order. *)
Definition loadProviders (rows : list ProviderRow) : AIService :=
  fold_left
    (fun s p =>
       let config := configOfRow p in
       {| providerConfigs := providerConfigs s ++ [config];
          providers := <[row_id p := providerOfConfig config]> (providers s) |})
    rows
    {| providers := ∅; providerConfigs := [] |}.

(** [getAvailableProvider]: linear scan of [providerConfigs]; the first
    config with [usedToday < dailyLimit] whose id has a registered
    provider wins.  The position [i] stands for the identity of the
    config object that is returned (and later mutated). *)
Fixpoint scanFrom (provs : gmap string AIProvider) (i : nat)
         (configs : list AIProviderConfig)
  : option (nat * AIProviderConfig * AIProvider) :=
  match configs with
  | [] => None
  | config :: rest =>
      if usedToday config <? dailyLimit config then
        match provs !! id config with
        | Some provider => Some (i, config, provider)
        | None => scanFrom provs (S i) rest
        end
      else scanFrom provs (S i) rest
  end.

Definition getAvailableProvider (s : AIService)
  : option (nat * AIProviderConfig * AIProvider) :=
  scanFrom (providers s) 0%nat (providerConfigs s).

(** Writing [usedToday] through the reference held by the loop. *)
Definition writeUsedToday (i : nat) (n : Z) (s : AIService) : AIService :=
  {| providers := providers s;
     providerConfigs := alter (setUsedToday n) i (providerConfigs s) |}.

(** One provider invocation as the loop logs it: the loop variable, which
    config object was selected, and the error its provider threw, if it
    threw. *)
Record Attempt := mkAttempt {
  attemptIndex : nat;
  attemptConfig : nat;
  attemptError : option Error
}.

Record Outcome := mkOutcome {
  returned : AIGenerationResult + Error;
  service : AIService;
  attempts : list Attempt
}.

Definition allExhaustedMessage : Error :=
  "All AI providers have reached their daily limits".
Definition generationFailedMessage : Error := "AI generation failed".

(** The retry loop (lines 326-368).  [fuel] counts the iterations that
    are left, [attempt] is the loop variable.  [recordUsage] writes to
    the database only and swallows its own errors, so it leaves no mark
    on the in-memory service or on what is returned. *)
Fixpoint retryLoop (backend : Backend) (fuel : nat) (attempt : nat)
         (lastError : option Error) (log : list Attempt) (s : AIService)
  : Outcome :=
  match fuel with
  | O =>
      {| returned := inr (match lastError with
                          | Some e => e
                          | None => generationFailedMessage
                          end);
         service := s; attempts := log |}
  | S fuel' =>
      match getAvailableProvider s with
      | None =>
          {| returned := inr allExhaustedMessage;
             service := s; attempts := log |}
      | Some (i, config, provider) =>
          match generate backend attempt provider with
          | inl result =>
              {| returned := inl result;
                 service := writeUsedToday i (usedToday config + 1) s;
                 attempts := log ++ [mkAttempt attempt i None] |}
          | inr e =>
              retryLoop backend fuel' (S attempt) (Some e)
                (log ++ [mkAttempt attempt i (Some e)])
                (writeUsedToday i (dailyLimit config) s)
          end
      end
  end.

(** [generateResponse] from its loop on (line 326), once the system
    prompt has been built; the method from its first line, where
    [buildSystemPrompt] can throw, is [generateResponseFrom] below. *)
Definition generateResponse (backend : Backend) (s : AIService) : Outcome :=
  retryLoop backend maxRetries 0%nat None [] s.

(** A sequence of [generateResponse] calls on the same service, one
    backend oracle per call. *)
Fixpoint generateResponses (backends : list Backend) (s : AIService)
  : list Outcome * AIService :=
  match backends with
  | [] => ([], s)
  | b :: rest =>
      let o := generateResponse b s in
      let '(os, s') := generateResponses rest (service o) in
      (o :: os, s')
  end.

#[global] Instance AIProviderType_eq_dec : EqDecision AIProviderType.
Proof. solve_decision. Defined.

(** ** Usage statistics *)

(** An element of what [getProviderStats] returns. *)
Record ProviderStats := mkStats {
  statsId : string;
  statsType : AIProviderType;
  statsUsedToday : Z;
  statsDailyLimit : Z;
  statsAvailable : bool
}.

(** [getProviderStats]. *)
Definition getProviderStats (s : AIService) : list ProviderStats :=
  (fun c => {| statsId := id c; statsType := type c;
               statsUsedToday := usedToday c;
               statsDailyLimit := dailyLimit c;
               statsAvailable := usedToday c <? dailyLimit c |})
    <$> providerConfigs s.

(** ** Conversation history *)

(** The [role] of an [AIMessage]. *)
Inductive Role := user | assistant | system.

#[global] Instance Role_eq_dec : EqDecision Role.
Proof. solve_decision. Defined.

(** [AIMessage]: the three fields [prepareMessages] copies. *)
Record AIMessage := mkAIMessage {
  role : Role;
  aiContent : string;
  aiTimestamp : Z
}.

(** [Array.prototype.slice(-n)] for a positive [n]: the last [n]
    elements, all of them when there are fewer. *)
Definition sliceLast {A} (n : nat) (l : list A) : list A :=
  drop (length l - n) l.

(** [Array.prototype.slice(0, -1)]: all but the last element. *)
Definition sliceButLast {A} (l : list A) : list A :=
  take (length l - 1) l.

(** [prepareMessages], on [context.conversationHistory]. *)
Definition prepareMessages (conversationHistory : list AIMessage)
  : list AIMessage :=
  (fun m => {| role := role m; aiContent := aiContent m;
               aiTimestamp := aiTimestamp m |})
    <$> sliceLast 10 conversationHistory.

(** ** What the provider classes send *)

(** The model a class falls back to when the config names none
    ([this.config.model || '...']). *)
Definition defaultModel (t : AIProviderType) : string :=
  match t with
  | CLAUDE => "claude-3-haiku-20240307"
  | GEMINI => "gemini-1.5-flash"
  | GROQ => "llama-3.1-8b-instant"
  | COHERE => "command-r"
  end.

(** The request each class hands to its client, as far as it depends on
    the system prompt and the messages (the constant fields
    [max_tokens: 1024] and [temperature: 0.7] are the same in every
    request and are left out).  A chat turn is a role and a text; the
    roles of Gemini and Cohere are the strings the class writes. *)
Inductive ProviderRequest :=
| AnthropicRequest (requestModel : string) (systemText : string)
                   (anthropicMessages : list (Role * string))
| GeminiRequest (requestModel : string) (systemInstruction : string)
                (history : list (string * string)) (prompt : string)
| GroqRequest (requestModel : string) (groqMessages : list (Role * string))
| CohereRequest (requestModel : string) (cohereMessage : string)
                (preamble : string) (chatHistory : list (string * string)).

(** [messages[messages.length - 1]?.content || '']. *)
Definition lastMessageContent (messages : list AIMessage) : string :=
  strOr (aiContent <$> last messages) "".

(** The request building part of the four [generate] methods. *)
Definition buildRequest (p : AIProvider) (systemPrompt : string)
           (messages : list AIMessage) : ProviderRequest :=
  let model := strOr (providerModel p) (defaultModel (providerClass p)) in
  match providerClass p with
  | CLAUDE =>
      AnthropicRequest model systemPrompt
        ((fun m => (role m, aiContent m))
           <$> filter (fun m => role m <> system) messages)
  | GEMINI =>
      GeminiRequest model systemPrompt
        ((fun m => (if decide (role m = assistant) then "model" else "user",
                    aiContent m))
           <$> sliceButLast messages)
        (lastMessageContent messages)
  | GROQ =>
      GroqRequest model
        ((system, systemPrompt)
           :: ((fun m => (role m, aiContent m)) <$> messages))
  | COHERE =>
      CohereRequest model (lastMessageContent messages) systemPrompt
        ((fun m => (if decide (role m = assistant) then "CHATBOT" else "USER",
                    aiContent m))
           <$> sliceButLast messages)
  end.

(** ** The provider table *)

(** A record of the [aIProvider] table: the columns [loadProviders]
    reads, and the two the queries filter on. *)
Record ProviderRecord := mkRecord {
  columns : ProviderRow;
  isActive : bool;
  lastResetAt : Z
}.

Definition recordId (r : ProviderRecord) : string := row_id (columns r).

(** A row of the [aIUsageLog] table. *)
Record UsageLog := mkUsageLog {
  logProviderId : string;
  logInputTokens : Z;
  logOutputTokens : Z;
  logLatencyMs : Z;
  logSuccess : bool
}.

(** The two tables the service reads and writes. *)
Record Database := mkDatabase {
  aIProvider : list ProviderRecord;
  aIUsageLog : list UsageLog
}.

(** The message of the error a failed Prisma call throws. *)
Definition prismaError : Error := "PrismaClientError".

(** [orderBy: { priority: 'desc' }]. *)
Definition priorityDesc : relation ProviderRow :=
  fun a b => row_priority b <= row_priority a.

#[global] Instance priorityDesc_dec : RelDecision priorityDesc.
Proof. intros a b. unfold priorityDesc. apply _. Defined.

(** [findMany({ where: { isActive: true }, orderBy: { priority: 'desc' } })].
    Among rows of equal priority the database is free in its order;
    the one taken here is that of a merge sort of the table. *)
Definition findManyActive (db : Database) : list ProviderRow :=
  merge_sort priorityDesc
    (columns <$> filter (fun r => isActive r = true) (aIProvider db)).

(** [loadProviders] against the table: the query is awaited before the
    pool is cleared, so a failing query leaves the pool as it was. *)
Definition loadProvidersFrom (ok : bool) (db : Database) (s : AIService)
  : AIService * option Error :=
  if ok then (loadProviders (findManyActive db), None)
  else (s, Some prismaError).

(** [reloadProviders]. *)
Definition reloadProviders (ok : bool) (db : Database) (s : AIService)
  : AIService * option Error :=
  loadProvidersFrom ok db s.

(** [data: { usedToday: 0, lastResetAt: now }]. *)
Definition resetRecord (now : Z) (r : ProviderRecord) : ProviderRecord :=
  {| columns :=
       {| row_id := row_id (columns r); row_type := row_type (columns r);
          row_apiKey := row_apiKey (columns r);
          row_model := row_model (columns r);
          row_dailyLimit := row_dailyLimit (columns r);
          row_usedToday := 0;
          row_priority := row_priority (columns r) |};
     isActive := isActive r;
     lastResetAt := now |}.

(** The world during one [resetDailyUsageIfNeeded] call: the clock
    reading [now], the start of its day in local time
    ([new Date(now.getFullYear(), now.getMonth(), now.getDate())]), and
    whether each of the three database calls succeeds. *)
Record ResetWorld := mkResetWorld {
  resetNow : Z;
  resetToday : Z;
  staleQueryOk : bool;
  updateManyOk : bool;
  reloadOk : bool
}.

(** [resetDailyUsageIfNeeded]; the last component is the error the
    method ends with, if a database call throws. *)
Definition resetDailyUsageIfNeeded (w : ResetWorld) (db : Database)
           (s : AIService) : Database * AIService * option Error :=
  if staleQueryOk w then
    let providers :=
      filter (fun r => lastResetAt r < resetToday w) (aIProvider db) in
    if bool_decide (0 < length providers)%nat then
      if updateManyOk w then
        let ids := recordId <$> providers in
        let db' :=
          {| aIProvider :=
               (fun r => if bool_decide (recordId r ∈ ids)
                         then resetRecord (resetNow w) r else r)
                 <$> aIProvider db;
             aIUsageLog := aIUsageLog db |} in
        let '(s', e) := loadProvidersFrom (reloadOk w) db' s in
        (db', s', e)
      else (db, s, Some prismaError)
    else (db, s, None)
  else (db, s, Some prismaError).

(** [initialize]: the pool is loaded, then the daily reset is run once;
    the hourly timer it installs runs [resetDailyUsageIfNeeded] again
    later. *)
Definition initialize (loadOk : bool) (w : ResetWorld) (db : Database)
           (s : AIService) : Database * AIService * option Error :=
  match loadProvidersFrom loadOk db s with
  | (s1, Some e) => (db, s1, Some e)
  | (s1, None) => resetDailyUsageIfNeeded w db s1
  end.

(** [data: { usedToday: { increment: 1 } }]. *)
Definition incrementUsedToday (r : ProviderRecord) : ProviderRecord :=
  {| columns :=
       {| row_id := row_id (columns r); row_type := row_type (columns r);
          row_apiKey := row_apiKey (columns r);
          row_model := row_model (columns r);
          row_dailyLimit := row_dailyLimit (columns r);
          row_usedToday := row_usedToday (columns r) + 1;
          row_priority := row_priority (columns r) |};
     isActive := isActive r;
     lastResetAt := lastResetAt r |}.

(** [recordUsage]: one transaction that creates the log row and
    increments the provider's counter.  [ok] says whether the database
    is reachable; the update of a provider that is not in the table
    throws and the transaction is rolled back.  Either failure is
    logged and swallowed. *)
Definition recordUsage (ok : bool) (providerId : string)
           (result : AIGenerationResult) (db : Database) : Database :=
  if ok && bool_decide (providerId ∈ recordId <$> aIProvider db) then
    {| aIProvider :=
         (fun r => if bool_decide (recordId r = providerId)
                   then incrementUsedToday r else r)
           <$> aIProvider db;
       aIUsageLog :=
         aIUsageLog db
           ++ [ {| logProviderId := providerId;
                   logInputTokens := inputTokens result;
                   logOutputTokens := outputTokens result;
                   logLatencyMs := latencyMs result;
                   logSuccess := true |} ] |}
  else db.

(** The retry loop with the database in view: [retryLoop] with the
    [recordUsage] call of line 341 written out.  [usageOk] says whether
    the database is reachable for that call. *)
Fixpoint retryLoopRecording (backend : Backend) (usageOk : bool)
         (fuel : nat) (attempt : nat) (lastError : option Error)
         (log : list Attempt) (db : Database) (s : AIService)
  : Outcome * Database :=
  match fuel with
  | O =>
      ({| returned := inr (match lastError with
                           | Some e => e
                           | None => generationFailedMessage
                           end);
          service := s; attempts := log |}, db)
  | S fuel' =>
      match getAvailableProvider s with
      | None =>
          ({| returned := inr allExhaustedMessage;
              service := s; attempts := log |}, db)
      | Some (i, config, provider) =>
          match generate backend attempt provider with
          | inl result =>
              ({| returned := inl result;
                  service := writeUsedToday i (usedToday config + 1) s;
                  attempts := log ++ [mkAttempt attempt i None] |},
               recordUsage usageOk (id config) result db)
          | inr e =>
              retryLoopRecording backend usageOk fuel' (S attempt) (Some e)
                (log ++ [mkAttempt attempt i (Some e)]) db
                (writeUsedToday i (dailyLimit config) s)
          end
      end
  end.

(** [generateResponse] with the database in view. *)
Definition generateResponseRecording (backend : Backend) (usageOk : bool)
           (db : Database) (s : AIService) : Outcome * Database :=
  retryLoopRecording backend usageOk maxRetries 0%nat None [] db s.

(** ** Runs of the service *)

(** One thing that happens to the AI service after [initialize]: a
    [generateResponse] call, a tick of the hourly timer, or a
    [reloadProviders] call. *)
Inductive PoolOp :=
| OpGenerate (backend : Backend) (usageOk : bool)
| OpHourly (w : ResetWorld)
| OpReload (ok : bool).

Definition poolStep (st : Database * AIService) (op : PoolOp)
  : Database * AIService :=
  match op with
  | OpGenerate backend usageOk =>
      let '(o, db) := generateResponseRecording backend usageOk st.1 st.2 in
      (db, service o)
  | OpHourly w => (resetDailyUsageIfNeeded w st.1 st.2).1
  | OpReload ok => (st.1, (reloadProviders ok st.1 st.2).1)
  end.

Definition poolRun (ops : list PoolOp) (st : Database * AIService)
  : Database * AIService :=
  foldl poolStep st ops.

(** ** The whole call *)

(** [generateResponse] from its first line.  [buildSystemPrompt]
    (line 323) is awaited before the loop and is not guarded: when one
    of its database queries throws, the call ends with that error
    before any provider is selected.  [promptError] is the error it
    throws, if it throws; the loop that follows is [generateResponse]
    above. *)
Definition generateResponseFrom (promptError : option Error)
           (backend : Backend) (s : AIService) : Outcome :=
  match promptError with
  | Some e => {| returned := inr e; service := s; attempts := [] |}
  | None => generateResponse backend s
  end.

(** ** Calls that overlap *)

(** The loop of [generateResponse] suspends twice per iteration: at
    [await provider.generate(...)] (line 339) and at
    [await this.recordUsage(...)] (line 341).  A second call can run
    between the selection (line 329) and the writes to the selected
    config object (lines 343 and 363).  Below, a call is split at these
    two points.  The pool is not reloaded while the calls of this
    section run, so the position of a config in [providerConfigs]
    names the object the call holds. *)

(** Where a call that has entered the loop stands: suspended at one of
    the two [await]s, or ended. *)
Inductive CallState :=
| AwaitsGenerate (attempt : nat) (config : nat) (provider : AIProvider)
| AwaitsRecordUsage (config : nat) (result : AIGenerationResult)
| Ended (r : AIGenerationResult + Error).

Record Call := mkCall {
  callBackend : Backend;
  callState : CallState
}.

(** The head of the loop, up to the first [await]: the loop test, the
    selection, and the call of [provider.generate]. *)
Definition loopHead (attempt : nat) (lastError : option Error) (s : AIService)
  : CallState :=
  if (attempt <? maxRetries)%nat then
    match getAvailableProvider s with
    | None => Ended (inr allExhaustedMessage)
    | Some (i, _, provider) => AwaitsGenerate attempt i provider
    end
  else
    Ended (inr (match lastError with
                | Some e => e
                | None => generationFailedMessage
                end)).

(** [config.usedToday = config.dailyLimit] and [config.usedToday++] on
    the object at position [i], as it is when the statement runs. *)
Definition markExhausted (i : nat) (s : AIService) : AIService :=
  {| providers := providers s;
     providerConfigs :=
       alter (fun config => setUsedToday (dailyLimit config) config) i
             (providerConfigs s) |}.

Definition incrementUsed (i : nat) (s : AIService) : AIService :=
  {| providers := providers s;
     providerConfigs :=
       alter (fun config => setUsedToday (usedToday config + 1) config) i
             (providerConfigs s) |}.

(** The call goes on from the [await] it is suspended at, up to the
    next one or to its end. *)
Definition resume (c : Call) (s : AIService) : Call * AIService :=
  match callState c with
  | AwaitsGenerate attempt i provider =>
      match generate (callBackend c) attempt provider with
      | inl result =>
          ({| callBackend := callBackend c;
              callState := AwaitsRecordUsage i result |}, s)
      | inr e =>
          let s' := markExhausted i s in
          ({| callBackend := callBackend c;
              callState := loopHead (S attempt) (Some e) s' |}, s')
      end
  | AwaitsRecordUsage i result =>
      ({| callBackend := callBackend c; callState := Ended (inl result) |},
       incrementUsed i s)
  | Ended _ => (c, s)
  end.

(** What the event loop does next: a new call enters the loop, or the
    call started [k]-th goes on. *)
Inductive CallEvent :=
| CallStarts (backend : Backend)
| CallResumes (k : nat).

Definition callStep (st : AIService * list Call) (ev : CallEvent)
  : AIService * list Call :=
  match ev with
  | CallStarts backend =>
      (st.1, st.2 ++ [{| callBackend := backend;
                         callState := loopHead 0 None st.1 |}])
  | CallResumes k =>
      match st.2 !! k with
      | Some c => let '(c', s') := resume c st.1 in (s', <[k := c']> st.2)
      | None => st
      end
  end.

(** A schedule of overlapping calls on the pool [s]. *)
Definition overlap (events : list CallEvent) (s : AIService)
  : AIService * list Call :=
  foldl callStep (s, []) events.

End AI.

(* ===================================================================== *)
(** * whatsapp.service.ts *)
(* ===================================================================== *)

Module WhatsApp.

(** ** Types of the service *)

(** The account status values the service assigns. *)
Inductive WhatsAppAccountStatus := CONNECTING | CONNECTED | DISCONNECTED.

#[global] Instance WhatsAppAccountStatus_eq_dec : EqDecision WhatsAppAccountStatus.
Proof. solve_decision. Defined.

(** Modelled from the spec: the declaration of [MessageType]
    (types/index.ts) is not among the sources.  [parseMessage] assigns
    the first eight values; the data model of the specification lists
    the content kinds text, image, video, audio, document, sticker,
    location, contact and unsupported, so the ninth value is taken from
    there. *)
Inductive MessageType :=
  TEXT | IMAGE | VIDEO | AUDIO | DOCUMENT | STICKER | LOCATION | CONTACT
| UNSUPPORTED.

#[global] Instance MessageType_eq_dec : EqDecision MessageType.
Proof. solve_decision. Defined.

(** [WhatsAppInstance]; a socket object is named by a handle. *)
Record WhatsAppInstance := mkInstance {
  socket : option nat;
  accountId : string;
  status : WhatsAppAccountStatus;
  reconnectAttempts : Z;
  lastActivity : Z
}.

Definition setSocket (v : option nat) (i : WhatsAppInstance) : WhatsAppInstance :=
  {| socket := v; accountId := accountId i; status := status i;
     reconnectAttempts := reconnectAttempts i; lastActivity := lastActivity i |}.
Definition setStatus (v : WhatsAppAccountStatus) (i : WhatsAppInstance) : WhatsAppInstance :=
  {| socket := socket i; accountId := accountId i; status := v;
     reconnectAttempts := reconnectAttempts i; lastActivity := lastActivity i |}.
Definition setReconnectAttempts (v : Z) (i : WhatsAppInstance) : WhatsAppInstance :=
  {| socket := socket i; accountId := accountId i; status := status i;
     reconnectAttempts := v; lastActivity := lastActivity i |}.
Definition setLastActivity (v : Z) (i : WhatsAppInstance) : WhatsAppInstance :=
  {| socket := socket i; accountId := accountId i; status := status i;
     reconnectAttempts := reconnectAttempts i; lastActivity := v |}.

(** An entry of [messageQueue]. *)
Record QueueEntry := mkEntry { message : string; timestamp : Z }.

(** The columns of a [whatsAppAccount] row the service writes. *)
Record AccountRow := mkAccountRow {
  rowStatus : WhatsAppAccountStatus;
  rowQrCode : option string;
  rowPhoneNumber : option string;
  rowLastConnected : option Z
}.

(** [msg.messageTimestamp]: a number or a [Long] object. *)
Inductive MessageTimestamp := TsNumber (n : Z) | TsLong (n : Z).

(** [msg.key]. *)
Record MessageKey := mkKey {
  remoteJid : option string;
  fromMe : bool;
  keyId : option string
}.

(** [msg.message]: the discriminator [getContentType] computes from the
    payload, and the fields [parseMessage] reads from the sub-messages
    (absent when the sub-message or the field is). *)
Record MessageContent := mkContent {
  contentType : option string;
  conversation : option string;
  extendedText : option string;
  imageCaption : option string;
  videoCaption : option string;
  documentFileName : option string;
  locationDegrees : option (string * string);
  contactDisplayName : option string
}.

(** [WAMessage]. *)
Record WAMessage := mkWAMessage {
  key : MessageKey;
  messageContent : option MessageContent;
  messageTimestamp : option MessageTimestamp;
  rawPushName : option string
}.

(** [WhatsAppMessage], the record handed to the conversation logic. *)
Record WhatsAppMessage := mkMessage {
  msgId : string;
  msgFrom : string;
  msgTo : string;
  msgType : MessageType;
  msgContent : string;
  msgMediaUrl : option string;
  msgTimestamp : Z;
  msgIsGroup : bool;
  msgPushName : option string
}.

(** [Partial<ConnectionState>] as far as [handleConnectionUpdate] reads
    it: [statusCode] is [(lastDisconnect?.error as Boom)?.output?.statusCode]. *)
Inductive WAConnectionState := connOpen | connConnecting | connClose.

#[global] Instance WAConnectionState_eq_dec : EqDecision WAConnectionState.
Proof. solve_decision. Defined.

Record ConnectionUpdate := mkUpdate {
  connection : option WAConnectionState;
  statusCode : option Z;
  qr : option string
}.

(** Baileys' [DisconnectReason.loggedOut]. *)
Definition loggedOut : Z := 401.

(** Events the service emits on itself. *)
Inductive Event :=
| EvQr (account qrCode : string)
| EvConnected (account : string) (phoneNumber : option string)
| EvDisconnected (account reason : string)
| EvMessage (account : string) (parsed : WhatsAppMessage) (rawMessage : WAMessage).

(** What the service does to the outside, in order. *)
Inductive Effect :=
| Emit (e : Event)
| Sleep (ms : Z)
| SocketCreated (account : string) (sock : nat)
| ListenersRemoved (sock : nat)
| Logout (sock : nat).

(** The fields of [WhatsAppService] ([instances], [messageQueue],
    [isShuttingDown]) together with the part of the world its methods
    read and write: [listeners], the sockets on which the service's
    event handlers are registered, each with the [accountId] its
    handlers close over; [nextSocket], the handle the next socket object
    gets; [sessions], the session directories on disk; [accounts], the
    [whatsAppAccount] table; and [effects], the log of what was done to
    the outside. *)
Record Service := mkService {
  instances : gmap string WhatsAppInstance;
  messageQueue : gmap string (list QueueEntry);
  isShuttingDown : bool;
  listeners : gmap nat string;
  nextSocket : nat;
  sessions : gset string;
  accounts : gmap string AccountRow;
  effects : list Effect
}.

Definition withInstances (v : gmap string WhatsAppInstance) (s : Service) : Service :=
  {| instances := v; messageQueue := messageQueue s;
     isShuttingDown := isShuttingDown s; listeners := listeners s;
     nextSocket := nextSocket s; sessions := sessions s;
     accounts := accounts s; effects := effects s |}.
Definition withMessageQueue (v : gmap string (list QueueEntry)) (s : Service) : Service :=
  {| instances := instances s; messageQueue := v;
     isShuttingDown := isShuttingDown s; listeners := listeners s;
     nextSocket := nextSocket s; sessions := sessions s;
     accounts := accounts s; effects := effects s |}.
Definition withShuttingDown (v : bool) (s : Service) : Service :=
  {| instances := instances s; messageQueue := messageQueue s;
     isShuttingDown := v; listeners := listeners s;
     nextSocket := nextSocket s; sessions := sessions s;
     accounts := accounts s; effects := effects s |}.
Definition withListeners (v : gmap nat string) (s : Service) : Service :=
  {| instances := instances s; messageQueue := messageQueue s;
     isShuttingDown := isShuttingDown s; listeners := v;
     nextSocket := nextSocket s; sessions := sessions s;
     accounts := accounts s; effects := effects s |}.
Definition withNextSocket (v : nat) (s : Service) : Service :=
  {| instances := instances s; messageQueue := messageQueue s;
     isShuttingDown := isShuttingDown s; listeners := listeners s;
     nextSocket := v; sessions := sessions s;
     accounts := accounts s; effects := effects s |}.
Definition withSessions (v : gset string) (s : Service) : Service :=
  {| instances := instances s; messageQueue := messageQueue s;
     isShuttingDown := isShuttingDown s; listeners := listeners s;
     nextSocket := nextSocket s; sessions := v;
     accounts := accounts s; effects := effects s |}.
Definition withAccounts (v : gmap string AccountRow) (s : Service) : Service :=
  {| instances := instances s; messageQueue := messageQueue s;
     isShuttingDown := isShuttingDown s; listeners := listeners s;
     nextSocket := nextSocket s; sessions := sessions s;
     accounts := v; effects := effects s |}.
Definition doing (e : list Effect) (s : Service) : Service :=
  {| instances := instances s; messageQueue := messageQueue s;
     isShuttingDown := isShuttingDown s; listeners := listeners s;
     nextSocket := nextSocket s; sessions := sessions s;
     accounts := accounts s; effects := effects s ++ e |}.

(** The service right after construction, over a given disk and
    database. *)
Definition newService (disk : gset string) (db : gmap string AccountRow) : Service :=
  {| instances := ∅; messageQueue := ∅; isShuttingDown := false;
     listeners := ∅; nextSocket := 0%nat; sessions := disk;
     accounts := db; effects := [] |}.

Definition maxReconnectAttempts : Z := 5.
Definition reconnectDelay : Z := 5000.
Definition rateLimitWindow : Z := 60000.
Definition maxMessagesPerWindow : Z := 30.

(** ** Rate window *)

(** [checkRateLimit]: prune, store the pruned queue, compare. *)
Definition checkRateLimit (now : Z) (recipient : string)
           (mq : gmap string (list QueueEntry))
  : gmap string (list QueueEntry) * bool :=
  let queue := default [] (mq !! recipient) in
  let recentMessages :=
    filter (fun m => now - timestamp m < rateLimitWindow) queue in
  (<[recipient := recentMessages]> mq,
   bool_decide (Z.of_nat (length recentMessages) < maxMessagesPerWindow)).

(** [recordMessage]. *)
Definition recordMessage (now : Z) (recipient : string)
           (mq : gmap string (list QueueEntry))
  : gmap string (list QueueEntry) :=
  let queue := default [] (mq !! recipient) in
  <[recipient := queue ++ [{| message := ""; timestamp := now |}]]> mq.

(** ** Imported helpers *)

(** Functions the service imports and whose code is elsewhere:
    [extractPhoneNumber] and [sanitizePhoneNumber] (utils/helpers),
    [qrcode.toDataURL], and the keyed digest of [getSessionPath]
    (HMAC-SHA256 of the account id under the session secret, in hex,
    cut to 16 characters), with the directory the sessions live in. *)
Record Imports := mkImports {
  extractPhoneNumber : string -> string;
  sanitizePhoneNumber : string -> string;
  toDataURL : string -> string;
  sessionDigest : string -> string;
  sessionsPath : string
}.

Section Methods.

Variable lib : Imports.

(** [getSessionPath]. *)
Definition getSessionPath (account : string) : string :=
  String.append (sessionsPath lib)
    (String.append "/session_" (sessionDigest lib account)).

(** ** Message ingestion *)

Definition endsWith (suffix s : string) : bool :=
  let n := String.length s in
  let k := String.length suffix in
  (k <=? n)%nat && String.eqb (String.substring (n - k) k s) suffix.

(** The [switch] of [parseMessage]: the message type and the text for
    a payload.  [type] starts as [TEXT] and each [case] that names a
    media kind overwrites it. *)
Definition classify (mc : MessageContent) : MessageType * string :=
  match contentType mc with
  | Some ct =>
      if String.eqb ct "conversation" then
        (TEXT, strOr (conversation mc) "")
      else if String.eqb ct "extendedTextMessage" then
        (TEXT, strOr (extendedText mc) "")
      else if String.eqb ct "imageMessage" then
        (IMAGE, strOr (imageCaption mc) "[Image]")
      else if String.eqb ct "videoMessage" then
        (VIDEO, strOr (videoCaption mc) "[Video]")
      else if String.eqb ct "audioMessage" then
        (AUDIO, "[Audio message]")
      else if String.eqb ct "documentMessage" then
        (DOCUMENT, strOr (documentFileName mc) "[Document]")
      else if String.eqb ct "stickerMessage" then
        (STICKER, "[Sticker]")
      else if String.eqb ct "locationMessage" then
        (LOCATION,
         match locationDegrees mc with
         | Some (lat, lng) =>
             String.append "[Location: "
               (String.append lat (String.append ", " (String.append lng "]")))
         | None => "[Location]"
         end)
      else if String.eqb ct "contactMessage" then
        (CONTACT, strOr (contactDisplayName mc) "[Contact]")
      else
        (TEXT, "[Unsupported message type]")
  | None => (TEXT, "[Unsupported message type]")
  end.

(** [parseMessage].  [uuid] is what [crypto.randomUUID()] would
    return and [now] what [Date.now()] would. *)
Definition parseMessage (uuid : string) (now : Z) (account : string)
           (msg : WAMessage) : option WhatsAppMessage :=
  match messageContent msg with
  | None => None
  | Some mc =>
      match strOrUndefined (remoteJid (key msg)) with
      | None => None
      | Some from =>
          let isGroup := endsWith "@g.us" from in
          let '(type, content) := classify mc in
          Some {| msgId := strOr (keyId (key msg)) uuid;
                  msgFrom := extractPhoneNumber lib from;
                  msgTo := account;
                  msgType := type;
                  msgContent := content;
                  msgMediaUrl := None;
                  msgTimestamp :=
                    match messageTimestamp msg with
                    | Some (TsNumber n) =>
                        if n =? 0 then now else n * 1000
                    | Some (TsLong n) => n * 1000
                    | None => now
                    end;
                  msgIsGroup := isGroup;
                  msgPushName := strOrUndefined (rawPushName msg) |}
      end
  end.

(** [handleIncomingMessages] for a [messages.upsert] batch of type
    [upsertType]; [uuid i] and [now i] are the random id and the clock
    available to the [i]-th message of the batch. *)
Fixpoint ingest (uuid : nat -> string) (now : nat -> Z) (account : string)
         (i : nat) (messages : list WAMessage) (s : Service) : Service :=
  match messages with
  | [] => s
  | msg :: rest =>
      let s' :=
        match messageContent msg with
        | None => s
        | Some _ =>
            if fromMe (key msg) then s
            else
              match parseMessage (uuid i) (now i) account msg with
              | Some whatsappMessage =>
                  doing [Emit (EvMessage account whatsappMessage msg)] s
              | None => s
              end
        end in
      ingest uuid now account (S i) rest s'
  end.

Definition handleIncomingMessages (uuid : nat -> string) (now : nat -> Z)
           (account : string) (upsertType : string)
           (messages : list WAMessage) (s : Service) : Service :=
  if String.eqb upsertType "notify"
  then ingest uuid now account 0%nat messages s
  else s.

(** ** Persistence *)

(** The message of the error a failed Prisma call throws. *)
Definition prismaError : Error := "PrismaClientError".

(** [prisma.whatsAppAccount.update({ where: { id }, data })]: [ok]
    says whether the database is reachable; an update of a row that
    does not exist throws as well. *)
Definition prismaUpdate (ok : bool) (account : string)
           (data : AccountRow -> AccountRow)
           (db : gmap string AccountRow) : option (gmap string AccountRow) :=
  if ok then
    match db !! account with
    | Some row => Some (<[account := data row]> db)
    | None => None
    end
  else None.

Definition setRowStatus (v : WhatsAppAccountStatus) (r : AccountRow) : AccountRow :=
  {| rowStatus := v; rowQrCode := rowQrCode r;
     rowPhoneNumber := rowPhoneNumber r;
     rowLastConnected := rowLastConnected r |}.

(** [updateAccountStatus]: the in-memory status is written inside the
    [try], after the awaited database update; when the update throws
    the error is logged and nothing else happens. *)
Definition updateAccountStatus (dbOk : bool) (account : string)
           (v : WhatsAppAccountStatus) (s : Service) : Service :=
  match prismaUpdate dbOk account (setRowStatus v) (accounts s) with
  | Some db =>
      withInstances (alter (setStatus v) account (instances s))
        (withAccounts db s)
  | None => s
  end.

(** ** Connection supervisor *)

(** What opening a connection runs into: [useMultiFileAuthState]
    throws, [makeWASocket] throws, or a socket is created. *)
Inductive ConnectWorld :=
| AuthStateThrows (e : Error)
| MakeSocketThrows (e : Error)
| SocketOpens.

(** [connectAccount]: [useMultiFileAuthState] creates the session
    directory when it is missing; the new socket is stored in the
    instance and the three handlers are registered on it. *)
Definition connectAccount (cw : ConnectWorld) (account : string) (s : Service)
  : Service * option Error :=
  match instances s !! account with
  | None => (s, Some "Account instance not found")
  | Some instance =>
      let sessionPath := getSessionPath account in
      match cw with
      | AuthStateThrows e => (s, Some e)
      | MakeSocketThrows e =>
          (withSessions ({[sessionPath]} ∪ sessions s) s, Some e)
      | SocketOpens =>
          let sock := nextSocket s in
          (doing [SocketCreated account sock]
             (withListeners (<[sock := account]> (listeners s))
                (withInstances
                   (<[account := setSocket (Some sock) instance]> (instances s))
                   (withNextSocket (S sock)
                      (withSessions ({[sessionPath]} ∪ sessions s) s)))),
           None)
      end
  end.

(** [handleLoggedOut]: [rmOk] says whether [fs.rm] succeeded; its
    failure is logged and the method goes on. *)
Definition handleLoggedOut (rmOk dbOk : bool) (account : string) (s : Service)
  : Service :=
  let sessionPath := getSessionPath account in
  let s1 := if rmOk then withSessions (sessions s ∖ {[sessionPath]}) s else s in
  let s2 := updateAccountStatus dbOk account DISCONNECTED s1 in
  let s3 := withInstances (delete account (instances s2)) s2 in
  doing [Emit (EvDisconnected account "logged_out")] s3.

(** [handleReconnect]. *)
Definition handleReconnect (dbOk : bool) (cw : ConnectWorld)
           (account : string) (s : Service) : Service :=
  match instances s !! account with
  | None => s
  | Some instance =>
      if maxReconnectAttempts <=? reconnectAttempts instance then
        doing [Emit (EvDisconnected account "max_reconnect_attempts")]
          (updateAccountStatus dbOk account DISCONNECTED s)
      else
        let attempts := reconnectAttempts instance + 1 in
        let s1 :=
          withInstances
            (<[account := setReconnectAttempts attempts instance]> (instances s))
            s in
        let delay := reconnectDelay * attempts in
        let s2 := doing [Sleep delay] s1 in
        if negb (isShuttingDown s2)
           && bool_decide (is_Some (instances s2 !! account))
        then fst (connectAccount cw account s2)
        else s2
  end.

(** The world during one [connection.update] event. *)
Record UpdateWorld := mkUpdateWorld {
  updateNow : Z;
  qrDbOk : bool;
  updateDbOk : bool;
  updateRmOk : bool;
  updateConnect : ConnectWorld;
  socketUserId : option string
}.

Definition setRowQr (qrCode : string) (r : AccountRow) : AccountRow :=
  {| rowStatus := CONNECTING; rowQrCode := Some qrCode;
     rowPhoneNumber := rowPhoneNumber r;
     rowLastConnected := rowLastConnected r |}.

Definition setRowConnected (phoneNumber : option string) (now : Z)
           (r : AccountRow) : AccountRow :=
  {| rowStatus := CONNECTED; rowQrCode := None;
     rowPhoneNumber := phoneNumber;
     rowLastConnected := Some now |}.

(** The [if (qr)] block of [handleConnectionUpdate]; its database
    update is not guarded, so a failure ends the handler. *)
Definition handleQr (w : UpdateWorld) (account : string)
           (u : ConnectionUpdate) (s : Service) : Service + Error :=
  match strOrUndefined (qr u) with
  | None => inl s
  | Some code =>
      let qrDataUrl := toDataURL lib code in
      match prismaUpdate (qrDbOk w) account (setRowQr qrDataUrl) (accounts s) with
      | Some db =>
          inl (doing [Emit (EvQr account qrDataUrl)] (withAccounts db s))
      | None => inr prismaError
      end
  end.

(** [handleConnectionUpdate]; the second component is the error the
    handler ends with, if it throws. *)
Definition handleConnectionUpdate (w : UpdateWorld) (account : string)
           (u : ConnectionUpdate) (s : Service) : Service * option Error :=
  match instances s !! account with
  | None => (s, None)
  | Some instance =>
      match handleQr w account u s with
      | inr e => (s, Some e)
      | inl s1 =>
          match connection u with
          | Some connClose =>
              if bool_decide (statusCode u = Some loggedOut) then
                (handleLoggedOut (updateRmOk w) (updateDbOk w) account s1, None)
              else if negb (isShuttingDown s1) then
                (handleReconnect (updateDbOk w) (updateConnect w) account s1, None)
              else
                (updateAccountStatus (updateDbOk w) account DISCONNECTED s1, None)
          | Some connOpen =>
              let s2 :=
                withInstances
                  (<[account :=
                       setLastActivity (updateNow w)
                         (setReconnectAttempts 0 (setStatus CONNECTED instance))]>
                     (instances s1))
                  s1 in
              let phoneNumber :=
                match socket instance with
                | Some _ =>
                    extractPhoneNumber lib <$> strOrUndefined (socketUserId w)
                | None => None
                end in
              match prismaUpdate (updateDbOk w) account
                      (setRowConnected phoneNumber (updateNow w)) (accounts s2) with
              | Some db =>
                  (doing [Emit (EvConnected account phoneNumber)]
                     (withAccounts db s2), None)
              | None => (s2, Some prismaError)
              end
          | _ => (s1, None)
          end
      end
  end.

(** [disconnectAccount].  [logout()] may fail; the failure is
    swallowed and changes nothing the service can see. *)
Definition disconnectAccount (dbOk : bool) (account : string) (s : Service)
  : Service :=
  match instances s !! account with
  | None => s
  | Some instance =>
      let s1 :=
        match socket instance with
        | Some sock =>
            withInstances
              (<[account := setSocket None instance]> (instances s))
              (doing [ListenersRemoved sock; Logout sock]
                 (withListeners (delete sock (listeners s)) s))
        | None => s
        end in
      let s2 := withInstances (delete account (instances s1)) s1 in
      let s3 := updateAccountStatus dbOk account DISCONNECTED s2 in
      doing [Emit (EvDisconnected account "manual")] s3
  end.

(** The world during one [initializeAccount] call. *)
Record InitWorld := mkInitWorld {
  initNow : Z;
  teardownDbOk : bool;
  initConnect : ConnectWorld;
  failureDbOk : bool
}.

(** [initializeAccount]; the second component is the error it
    re-throws when the connection cannot be opened. *)
Definition initializeAccount (w : InitWorld) (account : string) (s : Service)
  : Service * option Error :=
  let s1 :=
    if bool_decide (is_Some (instances s !! account))
    then disconnectAccount (teardownDbOk w) account s
    else s in
  let instance :=
    {| socket := None; accountId := account; status := CONNECTING;
       reconnectAttempts := 0; lastActivity := initNow w |} in
  let s2 := withInstances (<[account := instance]> (instances s1)) s1 in
  match connectAccount (initConnect w) account s2 with
  | (s3, None) => (s3, None)
  | (s3, Some e) =>
      (updateAccountStatus (failureDbOk w) account DISCONNECTED s3, Some e)
  end.

(** [shutdown]: the flag, then one [disconnectAccount] per instance
    (all awaited, failures isolated), then both maps are cleared.  The
    code starts every [disconnectAccount] before it awaits any, so what
    the teardowns of different accounts do to the outside is
    interleaved as the scheduler decides; here they are run account by
    account, and only what does not depend on the order among
    accounts is stated about the result. *)
Definition shutdown (dbOk : string -> bool) (s : Service) : Service :=
  let s1 := withShuttingDown true s in
  let ids := (map_to_list (instances s1)).*1 in
  let s2 := foldl (fun acc account => disconnectAccount (dbOk account) account acc)
                  s1 ids in
  withMessageQueue ∅ (withInstances ∅ s2).

(** What a socket does when it emits [connection.update]: the handler
    registered on it runs with the account id it closes over; a socket
    that reports [close] has ended and Baileys drops its
    [connection.update] listeners right after the emission. *)
Definition emitConnectionUpdate (w : UpdateWorld) (sock : nat)
           (u : ConnectionUpdate) (s : Service) : Service :=
  match listeners s !! sock with
  | None => s
  | Some account =>
      let s' := fst (handleConnectionUpdate w account u s) in
      match connection u with
      | Some connClose => withListeners (delete sock (listeners s')) s'
      | _ => s'
      end
  end.

(** What a socket does when it emits [messages.upsert]. *)
Definition emitMessagesUpsert (uuid : nat -> string) (now : nat -> Z) (sock : nat)
           (upsertType : string) (messages : list WAMessage) (s : Service)
  : Service :=
  match listeners s !! sock with
  | None => s
  | Some account => handleIncomingMessages uuid now account upsertType messages s
  end.

(** ** Send path *)

Definition Buffer := list Byte.byte.

Inductive MediaType := image | video | audio | document.

(** The [options] argument of [sendMessage]. *)
Record SendOptions := mkOptions {
  quotedMessageId : option string;
  mediaUrl : option string;
  mediaType : option MediaType;
  filename : option string
}.

(** The payload handed to [socket.sendMessage]. *)
Inductive OutboundMessage :=
| TextPayload (text : string)
| ImagePayload (data : Buffer) (caption : option string)
| VideoPayload (data : Buffer) (caption : option string)
| AudioPayload (data : Buffer) (mimetype : string)
| DocumentPayload (data : Buffer) (fileName : string) (caption : option string).

(** [proto.WebMessageInfo] as far as the service looks into it. *)
Record WebMessageInfo := mkInfo { sentKeyId : option string }.

(** The world during one [sendMessage] call: the three clock
    readings, what [fetch] answers for a media URL, and what the
    socket answers to [sendMessage(jid, message)] (a result, possibly
    [undefined], or a thrown error). *)
Record SendWorld := mkSendWorld {
  checkNow : Z;
  recordNow : Z;
  activityNow : Z;
  fetchMediaBuffer : string -> Buffer + Error;
  socketSendMessage : nat -> string -> OutboundMessage
                      -> option WebMessageInfo + Error
}.

Definition notConnectedMessage : Error := "WhatsApp account not connected".
Definition rateLimitMessage : Error := "Rate limit exceeded for this recipient".

(** The payload shape chosen from [content] and [options]; an error
    is the one [fetchMediaBuffer] threw. *)
Definition resolvePayload (w : SendWorld) (content : string)
           (options : option SendOptions) : OutboundMessage + Error :=
  match options with
  | Some o =>
      match strOrUndefined (mediaUrl o), mediaType o with
      | Some url, Some kind =>
          match fetchMediaBuffer w url with
          | inr e => inr e
          | inl mediaBuffer =>
              inl match kind with
                  | image =>
                      ImagePayload mediaBuffer (strOrUndefined (Some content))
                  | video =>
                      VideoPayload mediaBuffer (strOrUndefined (Some content))
                  | audio => AudioPayload mediaBuffer "audio/mp4"
                  | document =>
                      DocumentPayload mediaBuffer
                        (strOr (filename o) "document")
                        (strOrUndefined (Some content))
                  end
          end
      | _, _ => inl (TextPayload content)
      end
  | None => inl (TextPayload content)
  end.

(** [sendMessage].  [simulateTyping] swallows every failure of its
    own and touches nothing of the service. *)
Definition sendMessage (w : SendWorld) (account to content : string)
           (options : option SendOptions) (s : Service)
  : Service * (option WebMessageInfo + Error) :=
  match instances s !! account with
  | None => (s, inr notConnectedMessage)
  | Some instance =>
      match socket instance with
      | None => (s, inr notConnectedMessage)
      | Some sock =>
          if bool_decide (status instance <> CONNECTED) then
            (s, inr notConnectedMessage)
          else
            let '(mq, admitted) := checkRateLimit (checkNow w) to (messageQueue s) in
            let s1 := withMessageQueue mq s in
            if negb admitted then (s1, inr rateLimitMessage)
            else
              let jid := sanitizePhoneNumber lib to in
              match resolvePayload w content options with
              | inr e => (s1, inr e)
              | inl payload =>
                  match socketSendMessage w sock jid payload with
                  | inr e => (s1, inr e)
                  | inl result =>
                      let s2 :=
                        withMessageQueue
                          (recordMessage (recordNow w) to (messageQueue s1)) s1 in
                      let s3 :=
                        withInstances
                          (<[account := setLastActivity (activityNow w) instance]>
                             (instances s2))
                          s2 in
                      (s3, inl result)
                  end
              end
      end
  end.

(** ** Runs of the service *)

(** One thing that happens to the service: a call of its public
    interface or an event of a socket. *)
Inductive Op :=
| OpInitialize (w : InitWorld) (account : string)
| OpDisconnect (dbOk : bool) (account : string)
| OpConnectionUpdate (w : UpdateWorld) (sock : nat) (u : ConnectionUpdate)
| OpMessagesUpsert (uuid : nat -> string) (now : nat -> Z) (sock : nat)
                   (upsertType : string) (messages : list WAMessage)
| OpSend (w : SendWorld) (account to content : string) (options : option SendOptions)
| OpShutdown (dbOk : string -> bool).

Definition step (s : Service) (op : Op) : Service :=
  match op with
  | OpInitialize w account => fst (initializeAccount w account s)
  | OpDisconnect dbOk account => disconnectAccount dbOk account s
  | OpConnectionUpdate w sock u => emitConnectionUpdate w sock u s
  | OpMessagesUpsert uuid now sock upsertType messages =>
      emitMessagesUpsert uuid now sock upsertType messages s
  | OpSend w account to content options =>
      fst (sendMessage w account to content options s)
  | OpShutdown dbOk => shutdown dbOk s
  end.

Definition run (ops : list Op) (s : Service) : Service := foldl step s ops.


(** ** Queries *)

(** [WhatsAppConnectionState], as [getConnectionState] fills it in. *)
Record WhatsAppConnectionState := mkConnectionState {
  stateAccountId : string;
  stateStatus : WhatsAppAccountStatus;
  statePhoneNumber : option string;
  stateLastConnected : Z
}.

(** [getConnectionState]; [socketUser sock] is [socket.user?.id] of the
    socket with that handle. *)
Definition getConnectionState (socketUser : nat -> option string)
           (account : string) (s : Service) : option WhatsAppConnectionState :=
  match instances s !! account with
  | None => None
  | Some instance =>
      Some {| stateAccountId := account;
              stateStatus := status instance;
              statePhoneNumber :=
                match socket instance with
                | Some sock =>
                    extractPhoneNumber lib <$> strOrUndefined (socketUser sock)
                | None => None
                end;
              stateLastConnected := lastActivity instance |}
  end.

(** [getActiveAccounts].  The keys come in the order of the map, which
    for the JavaScript [Map] is the order of insertion and here is the
    order of the finite map. *)
Definition getActiveAccounts (s : Service) : list string :=
  filter (fun id => status <$> instances s !! id = Some CONNECTED)
         (map_to_list (instances s)).*1.


(** ** Operations that overlap *)

(** The methods above are run to completion.  Two of them hold state
    across an [await] that other operations can change meanwhile:
    [handleReconnect] sleeps between counting the attempt and opening
    the connection, and [sendMessage] awaits the typing simulation and
    the socket between the rate check and the record.  Below, each of
    the two is split at that point. *)

(** [handleReconnect] up to its [await sleep(delay)] (lines 221-239);
    the flag tells whether the method went to sleep. *)
Definition handleReconnectBefore (dbOk : bool) (account : string) (s : Service)
  : Service * bool :=
  match instances s !! account with
  | None => (s, false)
  | Some instance =>
      if maxReconnectAttempts <=? reconnectAttempts instance then
        (doing [Emit (EvDisconnected account "max_reconnect_attempts")]
           (updateAccountStatus dbOk account DISCONNECTED s), false)
      else
        let attempts := reconnectAttempts instance + 1 in
        let s1 :=
          withInstances
            (<[account := setReconnectAttempts attempts instance]> (instances s))
            s in
        let delay := reconnectDelay * attempts in
        (doing [Sleep delay] s1, true)
  end.

(** [handleReconnect] from the end of the sleep (lines 241-247): the
    flag and the presence of an instance are read again, as they are
    then. *)
Definition handleReconnectAfter (cw : ConnectWorld) (account : string)
           (s : Service) : Service :=
  if negb (isShuttingDown s)
     && bool_decide (is_Some (instances s !! account))
  then fst (connectAccount cw account s)
  else s.

(** [handleConnectionUpdate] up to the sleep of the [handleReconnect]
    it calls; an update that does not lead there is handled to its
    end.  The flag tells whether the handler is asleep. *)
Definition handleConnectionUpdateBefore (w : UpdateWorld) (account : string)
           (u : ConnectionUpdate) (s : Service)
  : Service * option Error * bool :=
  match instances s !! account with
  | None => (s, None, false)
  | Some instance =>
      match handleQr w account u s with
      | inr e => (s, Some e, false)
      | inl s1 =>
          if bool_decide (connection u = Some connClose)
             && negb (bool_decide (statusCode u = Some loggedOut))
             && negb (isShuttingDown s1)
          then
            let '(s2, asleep) := handleReconnectBefore (updateDbOk w) account s1 in
            (s2, None, asleep)
          else
            let '(s2, e) := handleConnectionUpdate w account u s in
            (s2, e, false)
      end
  end.

(** A socket emits [connection.update] and the handler runs up to the
    sleep; the result names the account whose reconnect is asleep, if
    one is. *)
Definition emitConnectionUpdateBefore (w : UpdateWorld) (sock : nat)
           (u : ConnectionUpdate) (s : Service) : Service * option string :=
  match listeners s !! sock with
  | None => (s, None)
  | Some account =>
      let '(s', _, asleep) := handleConnectionUpdateBefore w account u s in
      (match connection u with
       | Some connClose => withListeners (delete sock (listeners s')) s'
       | _ => s'
       end,
       if asleep then Some account else None)
  end.

(** What happens next to the supervisor: an operation that runs to
    completion, a [connection.update] whose handler runs up to the
    sleep of its reconnect, or the end of the sleep of the reconnect
    that went to sleep [k]-th. *)
Inductive SupervisorEvent :=
| Completes (op : Op)
| UpdateArrives (w : UpdateWorld) (sock : nat) (u : ConnectionUpdate)
| SleepEnds (k : nat) (cw : ConnectWorld).

(** The state is the service and the reconnects that went to sleep, in
    that order; an entry is [None] once its sleep has ended. *)
Definition supervisorStep (st : Service * list (option string))
           (ev : SupervisorEvent) : Service * list (option string) :=
  match ev with
  | Completes op => (step st.1 op, st.2)
  | UpdateArrives w sock u =>
      match emitConnectionUpdateBefore w sock u st.1 with
      | (s', Some account) => (s', st.2 ++ [Some account])
      | (s', None) => (s', st.2)
      end
  | SleepEnds k cw =>
      match st.2 !! k with
      | Some (Some account) =>
          (handleReconnectAfter cw account st.1, <[k := None]> st.2)
      | _ => st
      end
  end.

Definition supervise (events : list SupervisorEvent) (s : Service)
  : Service * list (option string) :=
  foldl supervisorStep (s, []) events.

(** A [sendMessage] call that passed the guard and the rate check and
    is suspended before the socket has answered. *)
Record PendingSend := mkPendingSend {
  pendingAccount : string;
  pendingTo : string;
  pendingContent : string;
  pendingOptions : option SendOptions;
  pendingSocket : nat
}.

(** [sendMessage] up to its first [await] (lines 404-421): the guard
    and the rate check, at the clock reading [now]. *)
Definition sendMessageBefore (now : Z) (account to content : string)
           (options : option SendOptions) (s : Service)
  : Service * (PendingSend + Error) :=
  match instances s !! account with
  | None => (s, inr notConnectedMessage)
  | Some instance =>
      match socket instance with
      | None => (s, inr notConnectedMessage)
      | Some sock =>
          if bool_decide (status instance <> CONNECTED) then
            (s, inr notConnectedMessage)
          else
            let '(mq, admitted) := checkRateLimit now to (messageQueue s) in
            let s1 := withMessageQueue mq s in
            if negb admitted then (s1, inr rateLimitMessage)
            else
              (s1, inl {| pendingAccount := account; pendingTo := to;
                          pendingContent := content;
                          pendingOptions := options;
                          pendingSocket := sock |})
      end
  end.

(** [sendMessage] from there to its end (lines 423-470).  Only other
    [sendMessage] calls run between the two halves here; none of them
    replaces an instance object or its socket, so the instance the
    call holds is the one the map has for the account. *)
Definition sendMessageAfter (w : SendWorld) (p : PendingSend) (s : Service)
  : Service * (option WebMessageInfo + Error) :=
  let jid := sanitizePhoneNumber lib (pendingTo p) in
  match resolvePayload w (pendingContent p) (pendingOptions p) with
  | inr e => (s, inr e)
  | inl payload =>
      match socketSendMessage w (pendingSocket p) jid payload with
      | inr e => (s, inr e)
      | inl result =>
          let s2 :=
            withMessageQueue
              (recordMessage (recordNow w) (pendingTo p) (messageQueue s)) s in
          let s3 :=
            withInstances
              (alter (setLastActivity (activityNow w)) (pendingAccount p)
                     (instances s2))
              s2 in
          (s3, inl result)
      end
  end.





End Methods.

End WhatsApp.

(* ===================================================================== *)
(** * index.ts *)
(* ===================================================================== *)

Module Server.
Import WhatsApp.

Section Startup.

Variable lib : Imports.

(** The loop of [startServer] over the accounts the table reports as
    [CONNECTED]: one [initializeAccount] per account, each in its own
    [try]; a failure is logged and the loop goes on.  [world account]
    is the world the call for that account runs in. *)
Definition reconnectAccounts (world : string -> InitWorld)
           (connectedAccounts : list string) (s : Service) : Service :=
  foldl (fun acc account => fst (initializeAccount lib (world account) account acc))
        s connectedAccounts.

End Startup.

End Server.

(* ===================================================================== *)
(** * Notions used in the statements *)
(* ===================================================================== *)

Module AISpec.
Import AI.

(** Every provider invocation of a call succeeds. *)
Definition alwaysReplies (b : Backend) : Prop :=
  forall attempt provider, exists r, b attempt provider = inl r.

(** The rows come back ordered on [priority], descending. *)
Definition rowsByPriorityDesc (rows : list ProviderRow) : Prop :=
  StronglySorted (fun a b => row_priority b <= row_priority a) rows.

Definition byPriorityDesc (configs : list AIProviderConfig) : Prop :=
  StronglySorted (fun a b => priority b <= priority a) configs.

(** Every config of the pool has a provider registered under its id. *)
Definition registered (s : AIService) : Prop :=
  forall c, c ∈ providerConfigs s ->
            exists p, providers s !! id c = Some p /\ providerId p = id c.

(** What [loadProviders] establishes and the loop keeps. *)
Definition wellFormed (s : AIService) : Prop :=
  registered s /\ byPriorityDesc (providerConfigs s).

(** Where a call was routed: the provider id of its result, or the
    error it failed with. *)
Definition routedTo (o : Outcome) : string + Error :=
  match returned o with
  | inl r => inl (resultProviderId r)
  | inr e => inr e
  end.

(** Selection alone, for calls whose provider invocations all succeed. *)
Fixpoint routeAll (n : nat) (s : AIService) : list (string + Error) :=
  match n with
  | O => []
  | S n' =>
      match getAvailableProvider s with
      | Some (i, config, provider) =>
          inl (providerId provider)
            :: routeAll n' (writeUsedToday i (usedToday config + 1) s)
      | None => inr allExhaustedMessage :: routeAll n' s
      end
  end.

(** The pool of the scenario: priorities 30, 20, 10, a quota of 5 each,
    nothing used yet. *)
Definition scenarioRows : list ProviderRow :=
  [ mkRow "provider-30" CLAUDE "key-a" None 5 0 30;
    mkRow "provider-20" GEMINI "key-b" None 5 0 20;
    mkRow "provider-10" GROQ "key-c" None 5 0 10 ].


Definition allConsumed (s : AIService) : Prop :=
  Forall (fun c => dailyLimit c <= usedToday c) (providerConfigs s).


Definition failed (a : Attempt) : Prop := is_Some (attemptError a).



(** A backend that answers every request, and one that throws on every
    request. *)
Definition echoBackend : Backend :=
  fun _ _ => inl (mkReply "ok" 12 7 350).
Definition brokenBackend : Backend :=
  fun attempt _ =>
    inr match attempt with
        | O => "request timed out"
        | S O => "invalid api key"
        | _ => "service overloaded"
        end.




(** Three calls started together on a pool whose first provider is one
    use below its limit: two are answered, the third is not. *)
Definition lateFailure : list CallEvent :=
  [ CallStarts echoBackend; CallStarts echoBackend; CallStarts brokenBackend;
    CallResumes 0; CallResumes 0; CallResumes 1; CallResumes 1 ].


End AISpec.

Module WhatsAppSpec.
Import WhatsApp.

(** Stand-ins for the imported helpers, to run the service on examples. *)
Definition demoImports : Imports :=
  {| extractPhoneNumber := fun jid => String.substring 0 12 jid;
     sanitizePhoneNumber := fun n => String.append n "@s.whatsapp.net";
     toDataURL := fun code => String.append "data:image/png;base64," code;
     sessionDigest := fun account => String.append "hmac-" account;
     sessionsPath := "/srv/app/sessions" |}.

(** ** Message ingestion *)

(** The nine discriminators [parseMessage] has a [case] for. *)
Definition supportedKinds : list string :=
  [ "conversation"; "extendedTextMessage"; "imageMessage"; "videoMessage";
    "audioMessage"; "documentMessage"; "stickerMessage"; "locationMessage";
    "contactMessage" ].

(** The payload's discriminator is none of the nine (or there is none). *)
Definition unrecognized (mc : MessageContent) : Prop :=
  forall ct, contentType mc = Some ct -> ct ∉ supportedKinds.

Definition unsupportedPlaceholder : string := "[Unsupported message type]".

(** An inbound poll: a payload kind the service has no [case] for. *)
Definition pollContent : MessageContent :=
  {| contentType := Some "pollCreationMessage";
     conversation := None; extendedText := None; imageCaption := None;
     videoCaption := None; documentFileName := None;
     locationDegrees := None; contactDisplayName := None |}.

Definition pollMessage : WAMessage :=
  {| key := {| remoteJid := Some "923001234567@s.whatsapp.net";
               fromMe := false; keyId := Some "3EB0A1B2C3" |};
     messageContent := Some pollContent;
     messageTimestamp := Some (TsNumber 1700000000);
     rawPushName := Some "Ayesha" |}.

(** ** Rate window *)










Definition burstRecipient : string := "923001234567".

(** ** Example services *)

Definition demoInstance : WhatsAppInstance :=
  {| socket := Some 0%nat; accountId := "acct-1"; status := CONNECTED;
     reconnectAttempts := 0; lastActivity := 1699999990000 |}.

Definition demoRow : AccountRow :=
  {| rowStatus := CONNECTED; rowQrCode := None;
     rowPhoneNumber := Some "923009998877";
     rowLastConnected := Some 1699999990000 |}.

(** One connected account on socket 0, with its session on disk and its
    row in the table. *)
Definition connectedService : Service :=
  {| instances := {[ "acct-1" := demoInstance ]};
     messageQueue := ∅;
     isShuttingDown := false;
     listeners := {[ 0%nat := "acct-1" ]};
     nextSocket := 1%nat;
     sessions := {[ getSessionPath demoImports "acct-1" ]};
     accounts := {[ "acct-1" := demoRow ]};
     effects := [] |}.

(** A world in which the socket accepts every payload. *)
Definition deliveringWorld : SendWorld :=
  {| checkNow := 1700000000000;
     recordNow := 1700000002100;
     activityNow := 1700000002101;
     fetchMediaBuffer := fun _ => inr "Failed to fetch media: Not Found";
     socketSendMessage := fun _ _ _ => inl (Some {| sentKeyId := Some "3EB0F00D" |}) |}.

(** ** Connection supervisor *)

(** An effect that opens no connection and waits for none: an emitted
    event. *)
Definition quiet (e : Effect) : Prop :=
  match e with
  | Emit _ => True
  | _ => False
  end.

(** From [s] to [s'] no socket was created, no handler registered or
    removed, and nothing was done but emitting events. *)
Definition noReconnect (s s' : Service) : Prop :=
  nextSocket s' = nextSocket s /\
  listeners s' = listeners s /\
  exists new, effects s' = effects s ++ new /\ Forall quiet new.

(** The account has used up its reconnect attempts (or has no instance
    any more). *)
Definition capped (s : Service) (account : string) : Prop :=
  forall inst, instances s !! account = Some inst ->
               maxReconnectAttempts <= reconnectAttempts inst.

(** The socket the instance of an account holds, if any. *)
Definition socketOf (s : Service) (account : string) : option nat :=
  instances s !! account ≫= socket.

(** A live connection of an account: a socket on which the service's
    handlers for that account are registered. *)
Definition live (s : Service) (sock : nat) (account : string) : Prop :=
  listeners s !! sock = Some account.

(** Every live connection, except possibly the socket [K] whose event is
    being handled, is the socket held by the instance of its account. *)
Definition tiedBut (K : option nat) (s : Service) : Prop :=
  forall sock account,
    Some sock <> K -> live s sock account -> socketOf s account = Some sock.

Definition noLiveBut (K : option nat) (s : Service) (account : string) : Prop :=
  forall sock, Some sock <> K -> ~ live s sock account.

(** Socket handles in use are below the allocation counter. *)
Definition allocated (s : Service) : Prop :=
  (forall sock account, live s sock account -> (sock < nextSocket s)%nat) /\
  (forall account sock, socketOf s account = Some sock -> (sock < nextSocket s)%nat).

Definition supervised (s : Service) : Prop := tiedBut None s /\ allocated s.

(** The two states agree on sockets: same handlers, same counter, same
    socket in every instance. *)
Definition sameSockets (s s' : Service) : Prop :=
  listeners s' = listeners s /\ nextSocket s' = nextSocket s /\
  forall a, socketOf s' a = socketOf s a.


(** What [disconnectAccount] does to the outside for an instance. *)
Definition teardownEffects (account : string) (inst : WhatsAppInstance) : list Effect :=
  match socket inst with
  | Some sock => [ListenersRemoved sock; Logout sock]
  | None => []
  end ++ [Emit (EvDisconnected account "manual")].

(** The instance [initializeAccount] allocates. *)
Definition freshInstance (account : string) (now : Z) : WhatsAppInstance :=
  {| socket := None; accountId := account; status := CONNECTING;
     reconnectAttempts := 0; lastActivity := now |}.

(** The sockets created for an account, as the log of effects has them. *)
Definition socketsCreatedFor (account : string) (log : list Effect) : list nat :=
  omap (fun e => match e with
                 | SocketCreated a sock =>
                     if decide (a = account) then Some sock else None
                 | _ => None
                 end) log.


(** From [s] to [s'] the account stayed capped if it was, got no new
    live connection, and had no socket created for it. *)
Definition leftAlone (account : string) (s s' : Service) : Prop :=
  (capped s account -> capped s' account) /\
  (forall k, live s' k account -> live s k account) /\
  socketsCreatedFor account (effects s') = socketsCreatedFor account (effects s).


(** A world in which the database and the file system refuse. *)
Definition refusingWorld : UpdateWorld :=
  {| updateNow := 1700000100000; qrDbOk := false; updateDbOk := false;
     updateRmOk := false; updateConnect := SocketOpens;
     socketUserId := None |}.

(** A world in which everything works. *)
Definition obligingWorld : UpdateWorld :=
  {| updateNow := 1700000100000; qrDbOk := true; updateDbOk := true;
     updateRmOk := true; updateConnect := SocketOpens;
     socketUserId := Some "923009998877:12@s.whatsapp.net" |}.

(** A world in which the connection opens. *)
Definition openingWorld : InitWorld :=
  {| initNow := 1700000200000; teardownDbOk := true;
     initConnect := SocketOpens; failureDbOk := true |}.

(** A new service, over a table that has the account, after the account
    was initialized once. *)
Definition initializedService : Service :=
  run demoImports [OpInitialize openingWorld "acct-1"]
      (newService ∅ {[ "acct-1" := demoRow ]}).

Definition opened : ConnectionUpdate :=
  {| connection := Some connOpen; statusCode := None; qr := None |}.

(** The same service after the connection has opened. *)
Definition openedService : Service :=
  run demoImports
      [OpInitialize openingWorld "acct-1";
       OpConnectionUpdate obligingWorld 0 opened]
      (newService ∅ {[ "acct-1" := demoRow ]}).

Definition loggedOutClose : ConnectionUpdate :=
  {| connection := Some connClose; statusCode := Some loggedOut; qr := None |}.

Definition transientClose : ConnectionUpdate :=
  {| connection := Some connClose; statusCode := Some 428; qr := None |}.


(** ** Sends one after the other, and sends that overlap *)








(** The account is initialized, its connection drops, and while the
    reconnect is asleep the account is initialized again; then the
    sleep ends. *)
Definition raceEvents : list SupervisorEvent :=
  [ Completes (OpInitialize openingWorld "acct-1");
    UpdateArrives obligingWorld 0 transientClose;
    Completes (OpInitialize openingWorld "acct-1");
    SleepEnds 0 SocketOpens ].

End WhatsAppSpec.

Module PoolSpec.
Import AI AISpec.

(** The config can be selected: it is below its limit and a provider is
    registered under its id. *)
Definition selectable (provs : gmap string AIProvider) (c : AIProviderConfig)
  : Prop :=
  usedToday c < dailyLimit c /\ is_Some (provs !! id c).

#[global] Instance selectable_dec provs c : Decision (selectable provs c).
Proof. unfold selectable. apply _. Defined.



(** The call made an attempt on the config at position [j]. *)
Definition attempted (o : Outcome) (j : nat) : Prop :=
  exists a, a ∈ attempts o /\ attemptConfig a = j.

(** The text a request ends with: the prompt of Gemini and Cohere, the
    text of the last message of Claude and Groq. *)
Definition lastText (r : ProviderRequest) : option string :=
  match r with
  | AnthropicRequest _ _ messages => snd <$> last messages
  | GeminiRequest _ _ _ prompt => Some prompt
  | GroqRequest _ messages => snd <$> last messages
  | CohereRequest _ message _ _ => Some message
  end.

(** [c'] is [c] with a counter that is not lower. *)
Definition sameButUsed (c c' : AIProviderConfig) : Prop :=
  id c' = id c /\ type c' = type c /\ apiKey c' = apiKey c /\
  model c' = model c /\ dailyLimit c' = dailyLimit c /\
  priority c' = priority c /\ usedToday c <= usedToday c'.

(** Where the retry loop stands, seen from the pool [s0] the call
    started with: the providers are the same, every attempt logged so
    far failed on a config that was below its limit, and the configs
    are those of [s0] except that the ones tried are marked. *)
Definition marksOnly (s0 : AIService) (log : list Attempt) (s : AIService)
  : Prop :=
  providers s = providers s0 /\
  length (providerConfigs s) = length (providerConfigs s0) /\
  (forall a, a ∈ log ->
             failed a /\
             exists c, providerConfigs s0 !! attemptConfig a = Some c /\
                       usedToday c < dailyLimit c) /\
  (forall j c, providerConfigs s0 !! j = Some c ->
               providerConfigs s !! j
               = Some (if decide (j ∈ attemptConfig <$> log)
                       then setUsedToday (dailyLimit c) c else c)).

(** No two records of the provider table share an id (it is the
    primary key). *)
Definition uniqueIds (db : Database) : Prop :=
  NoDup (recordId <$> aIProvider db).

(** No counter of the table is negative. *)
Definition nonNegative (db : Database) : Prop :=
  Forall (fun r => 0 <= row_usedToday (columns r)) (aIProvider db).

(** The counter a config holds in memory is not behind the one the
    table holds for the same provider. *)
Definition notBehind (db : Database) (s : AIService) : Prop :=
  forall c r, c ∈ providerConfigs s -> r ∈ aIProvider db ->
              recordId r = id c ->
              0 <= row_usedToday (columns r) <= usedToday c.

(** The records whose last reset lies before [today]. *)
Definition staleRecords (today : Z) (db : Database) : list ProviderRecord :=
  filter (fun r => lastResetAt r < today) (aIProvider db).

(** The table after the [updateMany] of [resetDailyUsageIfNeeded]. *)
Definition afterReset (w : ResetWorld) (db : Database) : Database :=
  {| aIProvider :=
       (fun r => if bool_decide
                      (recordId r ∈ recordId <$> staleRecords (resetToday w) db)
                 then resetRecord (resetNow w) r else r)
         <$> aIProvider db;
     aIUsageLog := aIUsageLog db |}.

(** The table and the pool are in step: ids are unique on both sides,
    no counter of the table is negative, and no counter in memory is
    behind its counter in the table. *)
Definition inStep (db : Database) (s : AIService) : Prop :=
  uniqueIds db /\ nonNegative db /\
  NoDup (id <$> providerConfigs s) /\ notBehind db s.

(** No record was last reset before [today]. *)
Definition resetSince (today : Z) (db : Database) : Prop :=
  Forall (fun r => today <= lastResetAt r) (aIProvider db).

(** The service right after construction. *)
Definition emptyPool : AIService :=
  {| providers := ∅; providerConfigs := [] |}.

(** A world in which the database answers every call: a quarter past
    nine on a day that started at [resetToday]. *)
Definition morning : ResetWorld :=
  {| resetNow := 1700039700000; resetToday := 1700006400000;
     staleQueryOk := true; updateManyOk := true; reloadOk := true |}.

(** The table of the scenario the day after: the counters of the first
    two providers are used up, nothing was reset since yesterday, and
    a fourth provider is switched off. *)
Definition scenarioTable : Database :=
  {| aIProvider :=
       [ mkRecord (mkRow "provider-20" GEMINI "key-b" None 5 5 20) true 1699920000000;
         mkRecord (mkRow "provider-30" CLAUDE "key-a" None 5 5 30) true 1699920000000;
         mkRecord (mkRow "provider-05" COHERE "key-d" (Some "command-r-plus") 5 0 5)
                  false 1699920000000;
         mkRecord (mkRow "provider-10" GROQ "key-c" (Some "") 5 2 10) true 1699920000000 ];
     aIUsageLog := [] |}.

(** A conversation of twelve turns, the customer and the assistant
    taking turns, after one system note. *)
Definition longConversation : list AIMessage :=
  mkAIMessage system "Customer was transferred from sales." 1700000000000
    :: ((fun i : nat =>
           mkAIMessage (if Nat.even i then user else assistant)
                       (if Nat.even i then "What does the basic package cost?"
                        else "The basic package is PKR 5000.")
                       (1700000000000 + 1000 * Z.of_nat (S i)))
          <$> seq 0 12).

(** The Gemini provider of the scenario, and a system prompt. *)
Definition geminiProvider : AIProvider :=
  providerOfConfig (configOfRow (mkRow "provider-20" GEMINI "key-b" None 5 0 20)).

Definition salesPrompt : string := "You are a helpful sales assistant.".

(** The pool of the scenario with its first provider used up. *)
Definition firstUsedUp : AIService :=
  writeUsedToday 0 5 (loadProviders scenarioRows).

(** Three hours later on the same day; this time the database does not
    answer the check. *)
Definition noon : ResetWorld :=
  {| resetNow := 1700050500000; resetToday := 1700006400000;
     staleQueryOk := false; updateManyOk := true; reloadOk := true |}.

(** A morning of the service: a call whose providers all throw, a call
    that is answered but whose usage cannot be recorded, the hourly
    check, a reload, and one more call. *)
Definition busyMorning : list PoolOp :=
  [ OpGenerate brokenBackend true; OpGenerate echoBackend false;
    OpHourly noon; OpReload true; OpGenerate echoBackend true ].

End PoolSpec.

Module GatewaySpec.
Import WhatsApp WhatsAppSpec.

(** ** Rate window *)

(** No recipient's window holds more than [maxMessagesPerWindow]
    entries. *)
Definition queuesBounded (s : Service) : Prop :=
  forall r q, messageQueue s !! r = Some q ->
              Z.of_nat (length q) <= maxMessagesPerWindow.

(** The operation can write the window of [r]: it is a send to [r], or
    the shutdown, which clears every window. *)
Definition touchesWindowOf (r : string) (op : Op) : Prop :=
  match op with
  | OpSend _ _ to _ _ => to = r
  | OpShutdown _ => True
  | _ => False
  end.

(** ** Effects *)





(** ** Reconnection *)

(** The delays the service waited for, as the log of effects has
    them. *)
Definition delaysOf (log : list Effect) : list Z :=
  omap (fun e => match e with
                 | Sleep ms => Some ms
                 | _ => None
                 end) log.

(** The connection of an account drops [k] times in a row: the first
    close is reported by the socket [sock], each later one by the
    socket the reconnect before it created ([next], [next + 1], ...). *)
Fixpoint consecutiveDrops (w : UpdateWorld) (u : ConnectionUpdate)
         (sock next : nat) (k : nat) : list Op :=
  match k with
  | O => []
  | S k' =>
      OpConnectionUpdate w sock u :: consecutiveDrops w u next (S next) k'
  end.

(** A close that is not a logout and comes without a QR code. *)
Definition transient (u : ConnectionUpdate) : Prop :=
  connection u = Some connClose /\ statusCode u <> Some loggedOut /\
  strOrUndefined (qr u) = None.

(** ** Examples *)

(** An image sent to a group, without caption, id or push name. *)
Definition groupImage : WAMessage :=
  {| key := {| remoteJid := Some "120363041234567890@g.us";
               fromMe := false; keyId := None |};
     messageContent :=
       Some {| contentType := Some "imageMessage";
               conversation := None; extendedText := None;
               imageCaption := Some ""; videoCaption := None;
               documentFileName := None; locationDegrees := None;
               contactDisplayName := None |};
     messageTimestamp := Some (TsLong 1700000300);
     rawPushName := Some "" |}.

(** The record it parses to. *)
Definition groupImageRecord : WhatsAppMessage :=
  {| msgId := "6f1c"; msgFrom := "120363041234"; msgTo := "acct-1";
     msgType := IMAGE; msgContent := "[Image]"; msgMediaUrl := None;
     msgTimestamp := 1700000300000; msgIsGroup := true;
     msgPushName := None |}.

(** The instance of [openedService]. *)
Definition openedInstance : WhatsAppInstance :=
  {| socket := Some 0%nat; accountId := "acct-1"; status := CONNECTED;
     reconnectAttempts := 0; lastActivity := 1700000100000 |}.

(** What led to [openedService], and one message sent from there. *)
Definition openingRun : list Op :=
  [ OpInitialize openingWorld "acct-1";
    OpConnectionUpdate obligingWorld 0 opened ].

Definition firstSend : Op :=
  OpSend deliveringWorld "acct-1" burstRecipient "hello" None.



(** Two accounts at startup: the connection of the first opens, the
    socket of the second cannot be made. *)
Definition startupWorld (account : string) : InitWorld :=
  if String.eqb account "acct-1" then openingWorld
  else {| initNow := 1700000200500; teardownDbOk := true;
          initConnect := MakeSocketThrows "connect ETIMEDOUT";
          failureDbOk := true |}.



End GatewaySpec.

(* ===================================================================== *)
(** * Facts about the provider pool and the retry loop *)
(* ===================================================================== *)

Module AIFacts.
Import AI AISpec.

(** ** The scan *)

Lemma scanFrom_Some provs i configs j c p :
  scanFrom provs i configs = Some (j, c, p) ->
  exists k, j = (i + k)%nat /\ configs !! k = Some c /\
            usedToday c < dailyLimit c /\ provs !! id c = Some p.
Proof.
  revert i. induction configs as [|x rest IH]; intros i H; simpl in H.
  - discriminate.
  - destruct (usedToday x <? dailyLimit x) eqn:Hq.
    + destruct (provs !! id x) as [q|] eqn:Hp.
      * injection H as <- <- <-. exists 0%nat.
        apply Z.ltb_lt in Hq. repeat split; auto with lia.
      * destruct (IH _ H) as (k & -> & ? & ? & ?).
        exists (S k). repeat split; auto with lia.
    + destruct (IH _ H) as (k & -> & ? & ? & ?).
      exists (S k). repeat split; auto with lia.
Qed.

Lemma scanFrom_None provs i configs :
  scanFrom provs i configs = None ->
  forall c, c ∈ configs -> usedToday c < dailyLimit c -> provs !! id c = None.
Proof.
  revert i. induction configs as [|x rest IH]; intros i H c Hc Hq.
  - inversion Hc.
  - simpl in H. apply elem_of_cons in Hc as [->|Hc].
    + apply Z.ltb_lt in Hq. rewrite Hq in H.
      destruct (provs !! id x); [discriminate | reflexivity].
    + destruct (usedToday x <? dailyLimit x); [destruct (provs !! id x)|];
        try discriminate; eauto.
Qed.

Lemma scanFrom_consumed provs i configs :
  Forall (fun c => dailyLimit c <= usedToday c) configs ->
  scanFrom provs i configs = None.
Proof.
  intros H. revert i. induction H as [|x rest Hx _ IH]; intros i; simpl.
  - reflexivity.
  - apply Z.ltb_ge in Hx. rewrite Hx. apply IH.
Qed.

Lemma scanFrom_highest provs i configs j c p :
  byPriorityDesc configs ->
  (forall x, x ∈ configs -> is_Some (provs !! id x)) ->
  scanFrom provs i configs = Some (j, c, p) ->
  forall c', c' ∈ configs -> usedToday c' < dailyLimit c' ->
             priority c' <= priority c.
Proof.
  revert i. induction configs as [|x rest IH]; intros i Hs Hr H c' Hc' Hq.
  - inversion Hc'.
  - apply StronglySorted_cons in Hs as [Hx Hs]. simpl in H.
    assert (Hreg : is_Some (provs !! id x)) by (apply Hr; left).
    destruct (usedToday x <? dailyLimit x) eqn:Hqx.
    + destruct Hreg as [q Hq']. rewrite Hq' in H. injection H as <- <- <-.
      apply elem_of_cons in Hc' as [->|Hc']; [lia|].
      rewrite Forall_forall in Hx. by apply Hx.
    + apply Z.ltb_ge in Hqx.
      apply elem_of_cons in Hc' as [->|Hc']; [lia|].
      eapply IH; eauto. intros y Hy. apply Hr. by right.
Qed.

Lemma getAvailableProvider_Some s i c p :
  getAvailableProvider s = Some (i, c, p) ->
  providerConfigs s !! i = Some c /\ usedToday c < dailyLimit c /\
  providers s !! id c = Some p.
Proof.
  intros H. apply scanFrom_Some in H as (k & -> & ? & ? & ?). auto.
Qed.

(** ** Loading the pool *)

Lemma loadProviders_from rows s0 :
  let s := fold_left
             (fun s p =>
                let config := configOfRow p in
                {| providerConfigs := providerConfigs s ++ [config];
                   providers := <[row_id p := providerOfConfig config]> (providers s) |})
             rows s0 in
  providerConfigs s = providerConfigs s0 ++ (configOfRow <$> rows) /\
  (forall k, k ∈ (row_id <$> rows) -> exists p, providers s !! k = Some p /\ providerId p = k) /\
  (forall k p, providers s0 !! k = Some p -> providerId p = k ->
               exists p', providers s !! k = Some p' /\ providerId p' = k).
Proof.
  revert s0. induction rows as [|r rows IH]; intros s0; simpl.
  - rewrite app_nil_r. split; [done|]. split; [|eauto].
    intros k Hk. inversion Hk.
  - destruct (IH {| providerConfigs := providerConfigs s0 ++ [configOfRow r];
                    providers := <[row_id r := providerOfConfig (configOfRow r)]>
                                   (providers s0) |}) as (Hc & Hin & Hkeep).
    simpl in *. split; [|split].
    + rewrite Hc, <- app_assoc. reflexivity.
    + intros k Hk. apply elem_of_cons in Hk as [->|Hk]; [|auto].
      apply (Hkeep _ (providerOfConfig (configOfRow r))); [|done].
      apply lookup_insert_eq.
    + intros k p Hp Hid. destruct (decide (row_id r = k)) as [<-|Hne].
      * apply (Hkeep _ (providerOfConfig (configOfRow r))); [|done].
        apply lookup_insert_eq.
      * apply (Hkeep _ p); [|done]. by rewrite lookup_insert_ne.
Qed.

Lemma loadProviders_configs rows :
  providerConfigs (loadProviders rows) = configOfRow <$> rows.
Proof.
  unfold loadProviders.
  destruct (loadProviders_from rows {| providers := ∅; providerConfigs := [] |})
    as (H & _). exact H.
Qed.

Lemma loadProviders_registered rows : registered (loadProviders rows).
Proof.
  intros c Hc. rewrite loadProviders_configs in Hc.
  destruct (loadProviders_from rows {| providers := ∅; providerConfigs := [] |})
    as (_ & H & _).
  apply H. apply list_elem_of_fmap in Hc as (r & -> & Hr).
  apply list_elem_of_fmap. exists r. done.
Qed.

Lemma loadProviders_sorted rows :
  rowsByPriorityDesc rows -> byPriorityDesc (providerConfigs (loadProviders rows)).
Proof.
  rewrite loadProviders_configs. unfold rowsByPriorityDesc, byPriorityDesc.
  induction 1 as [|r rows _ IH Hr]; simpl; constructor; [done|].
  rewrite Forall_forall in Hr. apply Forall_forall. intros c Hc.
  apply list_elem_of_fmap in Hc as (r' & -> & Hr'). by apply Hr.
Qed.

(** ** Writing [usedToday] keeps the shape of the pool *)

Lemma alter_setUsedToday_elem n i (l : list AIProviderConfig) c' :
  c' ∈ alter (setUsedToday n) i l ->
  exists c, c ∈ l /\ id c' = id c /\ priority c' = priority c /\
            dailyLimit c' = dailyLimit c.
Proof.
  intros H. apply list_elem_of_lookup in H as [j Hj].
  destruct (decide (i = j)) as [->|Hne].
  - rewrite list_lookup_alter_eq in Hj.
    destruct (l !! j) as [c|] eqn:Hc; [|discriminate].
    injection Hj as <-. exists c. split; [|done].
    eapply list_elem_of_lookup_2; eauto.
  - rewrite list_lookup_alter_ne in Hj by done.
    exists c'. split; [|done]. eapply list_elem_of_lookup_2; eauto.
Qed.

Lemma alter_setUsedToday_sorted n i l :
  byPriorityDesc l -> byPriorityDesc (alter (setUsedToday n) i l).
Proof.
  unfold byPriorityDesc. intros H. revert i.
  induction H as [|x rest Hs IH Hx]; intros [|i]; simpl;
    try (constructor; by auto).
  constructor; [apply IH|]. apply Forall_alter; auto.
Qed.

Lemma writeUsedToday_wellFormed i n s :
  wellFormed s -> wellFormed (writeUsedToday i n s).
Proof.
  intros [Hr Hs]. split.
  - intros c' Hc'. simpl in Hc'.
    apply alter_setUsedToday_elem in Hc' as (c & Hc & Hid & _).
    rewrite Hid. simpl. auto.
  - simpl. by apply alter_setUsedToday_sorted.
Qed.

Lemma retryLoop_wellFormed b fuel attempt lastError log s :
  wellFormed s -> wellFormed (service (retryLoop b fuel attempt lastError log s)).
Proof.
  revert attempt lastError log s.
  induction fuel as [|fuel IH]; intros attempt lastError log s Hwf; simpl.
  - done.
  - destruct (getAvailableProvider s) as [[[i c] p]|]; [|done].
    destruct (generate b attempt p); simpl.
    + by apply writeUsedToday_wellFormed.
    + by apply IH, writeUsedToday_wellFormed.
Qed.

Lemma generateResponses_wellFormed bs s :
  wellFormed s -> wellFormed (generateResponses bs s).2.
Proof.
  revert s. induction bs as [|b bs IH]; intros s Hwf; simpl; [done|].
  specialize (IH (service (generateResponse b s))
                 (retryLoop_wellFormed _ _ _ _ _ _ Hwf)).
  destruct (generateResponses bs (service (generateResponse b s))). done.
Qed.

Lemma loadProviders_wellFormed rows :
  rowsByPriorityDesc rows -> wellFormed (loadProviders rows).
Proof.
  split; [apply loadProviders_registered | by apply loadProviders_sorted].
Qed.

(** The selection rule on a well-formed pool. *)
Lemma selection_rule s :
  wellFormed s ->
  match getAvailableProvider s with
  | Some (i, config, provider) =>
      providerConfigs s !! i = Some config /\
      providerId provider = id config /\
      usedToday config < dailyLimit config /\
      forall c', c' ∈ providerConfigs s -> usedToday c' < dailyLimit c' ->
                 priority c' <= priority config
  | None => forall c', c' ∈ providerConfigs s -> dailyLimit c' <= usedToday c'
  end.
Proof.
  intros [Hr Hs].
  destruct (getAvailableProvider s) as [[[i c] p]|] eqn:Hsel.
  - destruct (getAvailableProvider_Some _ _ _ _ Hsel) as (Hi & Hq & Hp).
    repeat split; auto.
    + destruct (Hr c) as (p' & Hp' & Hid).
      * eapply list_elem_of_lookup_2; eauto.
      * congruence.
    + eapply scanFrom_highest; eauto.
      intros x Hx. destruct (Hr x Hx) as (p' & -> & _). eauto.
  - intros c' Hc'. destruct (Z.le_gt_cases (dailyLimit c') (usedToday c'))
      as [|Hq]; [done|].
    pose proof (scanFrom_None _ _ _ Hsel c' Hc' Hq) as Hnone.
    destruct (Hr c' Hc') as (p' & Hp' & _). congruence.
Qed.

(** ** Calls whose provider invocations succeed *)

Lemma generateResponse_replies b s :
  alwaysReplies b ->
  match getAvailableProvider s with
  | Some (i, config, provider) =>
      exists res,
        generateResponse b s =
          {| returned := inl res;
             service := writeUsedToday i (usedToday config + 1) s;
             attempts := [mkAttempt 0 i None] |} /\
        resultProviderId res = providerId provider
  | None =>
      generateResponse b s =
        {| returned := inr allExhaustedMessage; service := s; attempts := [] |}
  end.
Proof.
  intros Hb. unfold generateResponse, maxRetries. simpl.
  destruct (getAvailableProvider s) as [[[i c] p]|]; [|done].
  unfold generate. destruct (Hb 0%nat p) as [r ->]. eexists. split; done.
Qed.

Lemma generateResponses_route bs s :
  Forall alwaysReplies bs ->
  routedTo <$> (generateResponses bs s).1 = routeAll (length bs) s.
Proof.
  intros H. revert s. induction H as [|b bs Hb _ IH]; intros s; simpl; [done|].
  pose proof (generateResponse_replies b s Hb) as Hstep.
  destruct (getAvailableProvider s) as [[[i c] p]|].
  - destruct Hstep as (res & Heq & Hid). rewrite Heq. simpl.
    specialize (IH (writeUsedToday i (usedToday c + 1) s)).
    destruct (generateResponses bs _) as [os s']. simpl in *.
    f_equal; [|exact IH]. unfold routedTo. simpl. by rewrite Hid.
  - rewrite Hstep. simpl. specialize (IH s).
    destruct (generateResponses bs s) as [os s']. simpl in *.
    f_equal. exact IH.
Qed.

(** C1.  In the scenario pool (priorities 30, 20, 10, quota 5 each,
    nothing used) sixteen calls whose provider invocations all succeed
    are routed five times to the priority-30 provider, five times to
    the priority-20 provider, five times to the priority-10 provider,
    and the sixteenth fails with the all-exhausted error.  And in any
    pool loaded from rows ordered on priority, after any calls, the
    selection is a provider with [usedToday < dailyLimit] of the highest
    priority among those, or none when no config has quota left. *)
Theorem priority_failover :
  (forall backends : list Backend,
      length backends = 16%nat ->
      Forall alwaysReplies backends ->
      routedTo <$> (generateResponses backends (loadProviders scenarioRows)).1 =
        replicate 5 (inl "provider-30") ++ replicate 5 (inl "provider-20")
          ++ replicate 5 (inl "provider-10") ++ [inr allExhaustedMessage])
  /\
  (forall (rows : list ProviderRow) (backends : list Backend),
      rowsByPriorityDesc rows ->
      let s := (generateResponses backends (loadProviders rows)).2 in
      match getAvailableProvider s with
      | Some (i, config, provider) =>
          providerConfigs s !! i = Some config /\
          providerId provider = id config /\
          usedToday config < dailyLimit config /\
          forall c', c' ∈ providerConfigs s -> usedToday c' < dailyLimit c' ->
                     priority c' <= priority config
      | None =>
          forall c', c' ∈ providerConfigs s -> dailyLimit c' <= usedToday c'
      end).
Proof.
  split.
  - intros backends Hlen Hall.
    rewrite generateResponses_route by done. rewrite Hlen.
    vm_compute. reflexivity.
  - intros rows backends Hrows s.
    apply selection_rule, generateResponses_wellFormed.
    by apply loadProviders_wellFormed.
Qed.

Lemma echoBackend_replies : alwaysReplies echoBackend.
Proof. intros attempt provider. eexists. reflexivity. Qed.

Lemma scenarioRows_ordered : rowsByPriorityDesc scenarioRows.
Proof. unfold rowsByPriorityDesc, scenarioRows. repeat constructor; simpl; lia. Qed.

Lemma priority_failover_witness :
  routedTo <$> (generateResponses (replicate 16 echoBackend)
                                  (loadProviders scenarioRows)).1 =
    replicate 5 (inl "provider-30") ++ replicate 5 (inl "provider-20")
      ++ replicate 5 (inl "provider-10") ++ [inr allExhaustedMessage]
  /\
  (let s := (generateResponses (replicate 7 echoBackend)
                               (loadProviders scenarioRows)).2 in
   match getAvailableProvider s with
   | Some (i, config, provider) =>
       providerConfigs s !! i = Some config /\
       providerId provider = id config /\
       usedToday config < dailyLimit config /\
       forall c', c' ∈ providerConfigs s -> usedToday c' < dailyLimit c' ->
                  priority c' <= priority config
   | None =>
       forall c', c' ∈ providerConfigs s -> dailyLimit c' <= usedToday c'
   end).
Proof.
  split.
  - apply (proj1 priority_failover (replicate 16 echoBackend)).
    + reflexivity.
    + repeat constructor; apply echoBackend_replies.
  - apply (proj2 priority_failover scenarioRows (replicate 7 echoBackend)).
    apply scenarioRows_ordered.
Defined.

(** ** Failures inside one call *)












(** C4.  When every config already has [usedToday >= dailyLimit] as the
    loop starts, the call fails with the all-exhausted error in the
    first iteration: no provider is invoked and nothing is written. *)
Theorem consumed_pool_fails_at_once (backend : Backend) (s : AIService) :
  allConsumed s ->
  generateResponse backend s =
    {| returned := inr allExhaustedMessage; service := s; attempts := [] |}.
Proof.
  intros H. unfold generateResponse, maxRetries, getAvailableProvider. simpl.
  unfold getAvailableProvider. by rewrite scanFrom_consumed.
Qed.

Lemma consumed_pool_fails_at_once_witness :
  generateResponse echoBackend
    (writeUsedToday 0 5 (writeUsedToday 1 9 (writeUsedToday 2 5
       (loadProviders scenarioRows)))) =
    {| returned := inr allExhaustedMessage;
       service := writeUsedToday 0 5 (writeUsedToday 1 9 (writeUsedToday 2 5
                    (loadProviders scenarioRows)));
       attempts := [] |}.
Proof.
  apply consumed_pool_fails_at_once.
  unfold allConsumed. vm_compute. repeat constructor; discriminate.
Defined.

(** ** The quota invariant *)




(** ** Calls that overlap *)

Lemma resume_ended b r s n :
  Nat.iter n (fun st => resume st.1 st.2) (mkCall b (Ended r), s)
  = (mkCall b (Ended r), s).
Proof. induction n as [|n IH]; [done|]. simpl. by rewrite IH. Qed.

Lemma iter_resume_S n c s :
  Nat.iter (S n) (fun st : Call * AIService => resume st.1 st.2) (c, s)
  = Nat.iter n (fun st => resume st.1 st.2) (resume c s).
Proof.
  induction n as [|n IH]; [done|].
  change (Nat.iter (S (S n)) (fun st : Call * AIService => resume st.1 st.2) (c, s))
    with ((fun st : Call * AIService => resume st.1 st.2)
            (Nat.iter (S n) (fun st : Call * AIService => resume st.1 st.2) (c, s))).
  rewrite IH. done.
Qed.

Lemma markExhausted_selected s i config provider :
  getAvailableProvider s = Some (i, config, provider) ->
  markExhausted i s = writeUsedToday i (dailyLimit config) s.
Proof.
  intros (Hi & _ & _)%getAvailableProvider_Some.
  unfold markExhausted, writeUsedToday. f_equal.
  apply list_alter_ext; [|done]. intros x Hx. congruence.
Qed.

Lemma incrementUsed_selected s i config provider :
  getAvailableProvider s = Some (i, config, provider) ->
  incrementUsed i s = writeUsedToday i (usedToday config + 1) s.
Proof.
  intros (Hi & _ & _)%getAvailableProvider_Some.
  unfold incrementUsed, writeUsedToday. f_equal.
  apply list_alter_ext; [|done]. intros x Hx. congruence.
Qed.

Lemma retryLoop_resumed b fuel attempt lastError log s n :
  (attempt + fuel = maxRetries)%nat ->
  (2 * fuel <= n)%nat ->
  Nat.iter n (fun st => resume st.1 st.2)
           (mkCall b (loopHead attempt lastError s), s)
  = (mkCall b (Ended (returned (retryLoop b fuel attempt lastError log s))),
     service (retryLoop b fuel attempt lastError log s)).
Proof.
  revert attempt lastError log s n.
  induction fuel as [|fuel IH]; intros attempt lastError log s n Hsum Hn.
  - unfold loopHead. rewrite (proj2 (Nat.ltb_ge _ _)) by lia.
    simpl. by rewrite resume_ended.
  - unfold loopHead. rewrite (proj2 (Nat.ltb_lt _ _)) by lia.
    cbn -[Nat.iter].
    destruct (getAvailableProvider s) as [[[i config] provider]|] eqn:Hsel.
    + destruct n as [|[|n]]; [lia|lia|].
      rewrite iter_resume_S. unfold resume at 2. cbn -[Nat.iter].
      destruct (generate b attempt provider) as [res|e]; cbn -[Nat.iter].
      * rewrite iter_resume_S. unfold resume at 2. cbn -[Nat.iter].
        rewrite resume_ended. by rewrite (incrementUsed_selected _ _ _ _ Hsel).
      * rewrite (markExhausted_selected _ _ _ _ Hsel).
        apply IH; lia.
    + by rewrite resume_ended.
Qed.

(** A call that is started and resumed to its end while no other call
    runs is [generateResponse]: the calls run one after the other are
    the schedules in which no two calls overlap. *)
Lemma call_alone_is_generateResponse b s :
  overlap (CallStarts b :: replicate 6 (CallResumes 0)) s
  = (service (generateResponse b s),
     [mkCall b (Ended (returned (generateResponse b s)))]).
Proof.
  unfold overlap, generateResponse.
  pose proof (retryLoop_resumed b maxRetries 0 None [] s 6 eq_refl) as H.
  specialize (H ltac:(unfold maxRetries; lia)).
  assert (Hfold : forall n c s0,
             foldl callStep (s0, [c]) (replicate n (CallResumes 0))
             = let st := Nat.iter n (fun st => resume st.1 st.2) (c, s0) in
               (st.2, [st.1])).
  { clear. induction n as [|n IH]; intros c s0; [done|].
    rewrite iter_resume_S.
    change (foldl callStep (s0, [c]) (replicate (S n) (CallResumes 0)))
      with (foldl callStep (callStep (s0, [c]) (CallResumes 0))
                  (replicate n (CallResumes 0))).
    assert (Hstep : callStep (s0, [c]) (CallResumes 0)
                    = ((resume c s0).2, [(resume c s0).1])).
    { unfold callStep. simpl. by destruct (resume c s0). }
    rewrite Hstep, IH. by destruct (resume c s0). }
  change (foldl callStep (s, []) (CallStarts b :: replicate 6 (CallResumes 0)))
    with (foldl callStep (s, [mkCall b (loopHead 0 None s)])
                (replicate 6 (CallResumes 0))).
  rewrite (Hfold 6%nat), H. done.
Qed.


(** Three calls select the first provider while its counter is at 4 of
    5.  Two are answered and the counter stands at 6; then the provider
    of the third throws and the counter is set back to 5. *)
Lemma overlapping_failure_lowers_a_counter :
  usedToday <$> providerConfigs
                  (overlap lateFailure
                     (writeUsedToday 0 4 (loadProviders scenarioRows))).1 !! 0%nat
  = Some 6 /\
  usedToday <$> providerConfigs
                  (overlap (lateFailure ++ [CallResumes 2])
                     (writeUsedToday 0 4 (loadProviders scenarioRows))).1 !! 0%nat
  = Some 5.
Proof. split; vm_compute; reflexivity. Qed.

End AIFacts.

(* ===================================================================== *)
(** * Facts about message ingestion, the rate window and the send path *)
(* ===================================================================== *)

Module WhatsAppFacts.
Import WhatsApp WhatsAppSpec.

(** ** Message ingestion *)

Lemma classify_unrecognized mc :
  unrecognized mc -> classify mc = (TEXT, unsupportedPlaceholder).
Proof.
  intros H. unfold classify. destruct (contentType mc) as [ct|] eqn:Hct; [|done].
  specialize (H ct Hct). unfold supportedKinds in H.
  repeat (rewrite not_elem_of_cons in H; destruct H as [? H]).
  repeat match goal with
         | Hn : ct <> ?k |- context [String.eqb ct ?k] =>
             rewrite (proj2 (String.eqb_neq ct k) Hn)
         end.
  reflexivity.
Qed.

Lemma pollContent_unrecognized : unrecognized pollContent.
Proof.
  intros ct [= <-]. unfold supportedKinds.
  repeat (apply not_elem_of_cons; split; [discriminate|]).
  apply not_elem_of_nil.
Qed.

(** C2, the claim as stated fails: an inbound poll, whose discriminator
    is none of the nine, is parsed into a record of type [TEXT], not of
    the unsupported kind. *)
Lemma unrecognized_kind_is_typed_text :
  unrecognized pollContent /\
  exists m,
    parseMessage demoImports "6f1c" 1700000123456 "acct-1" pollMessage = Some m /\
    msgType m <> UNSUPPORTED.
Proof.
  split; [apply pollContent_unrecognized|].
  eexists. split; [vm_compute; reflexivity | discriminate].
Qed.

(** C2, amended.  A message that has a sender address and whose payload
    discriminator is none of the nine is parsed, without error, into a
    record of type [TEXT] whose content is the placeholder
    "[Unsupported message type]"; and when it arrives in a [notify]
    batch and was not sent by the account itself, that record is emitted
    as a [message] event, not dropped. *)
Theorem unrecognized_kind_yields_placeholder
        (lib : Imports) (uuid : string) (now : Z) (account : string)
        (msg : WAMessage) (mc : MessageContent) (from : string) :
  messageContent msg = Some mc ->
  unrecognized mc ->
  remoteJid (key msg) = Some from -> from <> "" ->
  exists m,
    parseMessage lib uuid now account msg = Some m /\
    msgType m = TEXT /\
    msgContent m = unsupportedPlaceholder /\
    msgTo m = account /\
    (fromMe (key msg) = false ->
     forall s,
       effects (handleIncomingMessages lib (fun _ => uuid) (fun _ => now)
                  account "notify" [msg] s)
       = effects s ++ [Emit (EvMessage account m msg)]).
Proof.
  intros Hmc Hun Hjid Hne. unfold parseMessage.
  rewrite Hmc, Hjid. simpl.
  destruct (String.eqb_spec from "") as [|_]; [done|].
  rewrite (classify_unrecognized mc Hun).
  eexists. split; [reflexivity|]. repeat split.
  intros HfromMe s. unfold handleIncomingMessages. simpl.
  rewrite Hmc, HfromMe. unfold parseMessage. rewrite Hmc, Hjid. simpl.
  destruct (String.eqb_spec from "") as [|_]; [done|].
  rewrite (classify_unrecognized mc Hun). reflexivity.
Qed.

Lemma unrecognized_kind_yields_placeholder_witness :
  exists m,
    parseMessage demoImports "6f1c" 1700000123456 "acct-1" pollMessage = Some m /\
    msgType m = TEXT /\
    msgContent m = unsupportedPlaceholder /\
    msgTo m = "acct-1" /\
    (fromMe (key pollMessage) = false ->
     forall s,
       effects (handleIncomingMessages demoImports (fun _ => "6f1c")
                  (fun _ => 1700000123456) "acct-1" "notify" [pollMessage] s)
       = effects s ++ [Emit (EvMessage "acct-1" m pollMessage)]).
Proof.
  apply (unrecognized_kind_yields_placeholder demoImports "6f1c" 1700000123456
           "acct-1" pollMessage pollContent "923001234567@s.whatsapp.net").
  - reflexivity.
  - apply pollContent_unrecognized.
  - reflexivity.
  - discriminate.
Defined.

(** ** Rate window *)









(** ** Sends one after the other *)







(** A [sendMessage] call is its first half followed by its second. *)
Lemma sendMessage_split lib w account to content options s :
  sendMessage lib w account to content options s
  = match sendMessageBefore (checkNow w) account to content options s with
    | (s1, inl p) => sendMessageAfter lib w p s1
    | (s1, inr e) => (s1, inr e)
    end.
Proof.
  unfold sendMessage, sendMessageBefore, sendMessageAfter.
  destruct (instances s !! account) as [inst|] eqn:Hinst; [|done].
  destruct (socket inst) as [sock|]; [|done].
  destruct (bool_decide (status inst <> CONNECTED)); [done|].
  destruct (checkRateLimit (checkNow w) to (messageQueue s)) as [mq admitted].
  destruct admitted; simpl; [|done].
  destruct (resolvePayload w content options) as [payload|e]; [|done].
  destruct (socketSendMessage w sock (sanitizePhoneNumber lib to) payload)
    as [result|e]; [|done].
  do 2 f_equal. unfold withInstances. simpl. f_equal.
  apply map_eq. intros a. destruct (decide (a = account)) as [->|Hne].
  - by rewrite lookup_insert_eq, lookup_alter_eq, Hinst.
  - by rewrite lookup_insert_ne, lookup_alter_ne.
Qed.

End WhatsAppFacts.

(* ===================================================================== *)
(** * Facts about the connection supervisor *)
(* ===================================================================== *)

Module SupervisorFacts.
Import WhatsApp WhatsAppSpec.

Section WithImports.

Variable lib : Imports.

(** ** Reconnecting *)

Lemma noReconnect_refl s : noReconnect s s.
Proof.
  repeat split; auto. exists []. split; [by rewrite app_nil_r | constructor].
Qed.

Lemma noReconnect_trans s1 s2 s3 :
  noReconnect s1 s2 -> noReconnect s2 s3 -> noReconnect s1 s3.
Proof.
  intros (Hn1 & Hl1 & new1 & He1 & Hq1) (Hn2 & Hl2 & new2 & He2 & Hq2).
  repeat split; [congruence | congruence |].
  exists (new1 ++ new2). split.
  - by rewrite He2, He1, <- app_assoc.
  - by apply Forall_app.
Qed.

Lemma updateAccountStatus_cases dbOk account v s :
  match prismaUpdate dbOk account (setRowStatus v) (accounts s) with
  | Some db =>
      updateAccountStatus dbOk account v s
      = withInstances (alter (setStatus v) account (instances s)) (withAccounts db s)
  | None => updateAccountStatus dbOk account v s = s
  end.
Proof.
  unfold updateAccountStatus.
  by destruct (prismaUpdate dbOk account (setRowStatus v) (accounts s)).
Qed.

Lemma updateAccountStatus_noReconnect dbOk account v s :
  noReconnect s (updateAccountStatus dbOk account v s).
Proof.
  unfold updateAccountStatus.
  destruct (prismaUpdate dbOk account (setRowStatus v) (accounts s)); simpl.
  - repeat split; auto. exists []. split; [by rewrite app_nil_r | constructor].
  - apply noReconnect_refl.
Qed.

Lemma updateAccountStatus_capped dbOk account v s a :
  capped s a -> capped (updateAccountStatus dbOk account v s) a.
Proof.
  intros Hc inst. unfold updateAccountStatus.
  destruct (prismaUpdate dbOk account (setRowStatus v) (accounts s)); simpl; [|apply Hc].
  rewrite lookup_alter. case_decide; [|apply Hc]. subst.
  destruct (instances s !! a) as [i|] eqn:Hi; simpl; [|done].
  intros [= <-]. simpl. by apply Hc.
Qed.

Lemma doing_emit_noReconnect ev s : noReconnect s (doing [Emit ev] s).
Proof.
  repeat split; auto. exists [Emit ev]. split; [done|]. by repeat constructor.
Qed.


Lemma handleQr_cases w account u s :
  match handleQr lib w account u s with
  | inl s1 =>
      instances s1 = instances s /\ isShuttingDown s1 = isShuttingDown s /\
      sessions s1 = sessions s /\ noReconnect s s1
  | inr _ => True
  end.
Proof.
  unfold handleQr. destruct (strOrUndefined (qr u)) as [code|].
  - destruct (prismaUpdate _ _ _ _); [|done]. simpl.
    repeat split; auto. eexists. split; [done|]. by repeat constructor.
  - repeat split; auto. apply noReconnect_refl.
Qed.

Lemma handleLoggedOut_noReconnect rmOk dbOk account s :
  noReconnect s (handleLoggedOut lib rmOk dbOk account s).
Proof.
  unfold handleLoggedOut.
  eapply noReconnect_trans; [|apply doing_emit_noReconnect].
  eapply noReconnect_trans;
    [|repeat split; auto; exists []; split; [by rewrite app_nil_r | constructor]].
  eapply noReconnect_trans;
    [|apply (updateAccountStatus_noReconnect dbOk account DISCONNECTED)].
  destruct rmOk; [|apply noReconnect_refl].
  repeat split; auto. exists []. split; [by rewrite app_nil_r | constructor].
Qed.



(** ** Logging out *)

(** C7, amended.  When an account that has an instance receives a close
    event with the logged-out code (and the QR block of the same update,
    if any, did not throw), the handler does not throw, removes the
    instance, emits [disconnected] with reason [logged_out] and makes no
    reconnect: it creates no socket and sleeps for none.  The session
    directory is gone when its removal succeeded, and untouched when the
    removal failed; the row of the account is [DISCONNECTED] when the
    database update went through, and untouched when it threw. *)
Theorem logged_out_close_is_terminal w account u s inst s1 :
  instances s !! account = Some inst ->
  connection u = Some connClose ->
  statusCode u = Some loggedOut ->
  handleQr lib w account u s = inl s1 ->
  let out := handleConnectionUpdate lib w account u s in
  out.2 = None /\
  instances out.1 = delete account (instances s) /\
  effects out.1 = effects s1 ++ [Emit (EvDisconnected account "logged_out")] /\
  noReconnect s out.1 /\
  (updateRmOk w = true -> getSessionPath lib account ∉ sessions out.1) /\
  (updateRmOk w = false -> sessions out.1 = sessions s) /\
  match prismaUpdate (updateDbOk w) account (setRowStatus DISCONNECTED) (accounts s1) with
  | Some db => rowStatus <$> (accounts out.1 !! account) = Some DISCONNECTED
  | None => accounts out.1 = accounts s1
  end.
Proof.
  intros Hi Hclose Hcode Hqr out. subst out.
  pose proof (handleQr_cases w account u s) as Hs1. rewrite Hqr in Hs1.
  destruct Hs1 as (Hinst & _ & Hsess & Hquiet).
  unfold handleConnectionUpdate. rewrite Hi, Hqr, Hclose.
  rewrite bool_decide_eq_true_2 by done. simpl.
  split; [done|]. split; [|split; [|split; [|split; [|split]]]].
  - unfold updateAccountStatus.
    destruct (prismaUpdate (updateDbOk w) account _ _); destruct (updateRmOk w);
      simpl; rewrite ?delete_alter_eq, Hinst; done.
  - unfold updateAccountStatus.
    destruct (prismaUpdate (updateDbOk w) account _ _); destruct (updateRmOk w); done.
  - eapply noReconnect_trans; [exact Hquiet|]. apply handleLoggedOut_noReconnect.
  - intros ->. unfold updateAccountStatus. simpl.
    destruct (prismaUpdate (updateDbOk w) account _ _); simpl;
      intros [_ Hn]%elem_of_difference; apply Hn; by apply elem_of_singleton.
  - intros ->. unfold updateAccountStatus. simpl.
    destruct (prismaUpdate (updateDbOk w) account _ _); simpl; done.
  - unfold updateAccountStatus.
    assert (Hacc : accounts (if updateRmOk w
                             then withSessions (sessions s1 ∖ {[getSessionPath lib account]}) s1
                             else s1) = accounts s1) by (by destruct (updateRmOk w)).
    rewrite Hacc.
    destruct (prismaUpdate (updateDbOk w) account (setRowStatus DISCONNECTED) (accounts s1))
      as [db|] eqn:Hdb; simpl; [|done].
    unfold prismaUpdate in Hdb. destruct (updateDbOk w); [|done].
    destruct (accounts s1 !! account) as [row|]; [|done].
    injection Hdb as <-. by rewrite lookup_insert_eq.
Qed.

(** ** Inbound messages only emit events *)

Lemma ingest_quiet uuid now account i messages s :
  let s' := ingest lib uuid now account i messages s in
  instances s' = instances s /\ noReconnect s s'.
Proof.
  revert i s. induction messages as [|msg messages IH]; intros i s; simpl.
  - split; [done | apply noReconnect_refl].
  - set (s1 := match messageContent msg with
               | Some _ => _
               | None => s
               end).
    assert (H1 : instances s1 = instances s /\ noReconnect s s1).
    { subst s1. destruct (messageContent msg); [|split; [done | apply noReconnect_refl]].
      destruct (fromMe (key msg)); [split; [done | apply noReconnect_refl]|].
      destruct (parseMessage lib (uuid i) (now i) account msg);
        [|split; [done | apply noReconnect_refl]].
      split; [done | apply doing_emit_noReconnect]. }
    destruct H1 as [Hi1 Hq1]. destruct (IH (S i) s1) as [Hi2 Hq2].
    split; [congruence | by eapply noReconnect_trans].
Qed.

Lemma emitMessagesUpsert_quiet uuid now sock upsertType messages s :
  let s' := emitMessagesUpsert lib uuid now sock upsertType messages s in
  instances s' = instances s /\ noReconnect s s'.
Proof.
  unfold emitMessagesUpsert, handleIncomingMessages.
  destruct (listeners s !! sock); [|split; [done | apply noReconnect_refl]].
  destruct (String.eqb upsertType "notify"); [|split; [done | apply noReconnect_refl]].
  apply ingest_quiet.
Qed.

(** ** One live connection per account *)

Lemma sameSockets_refl s : sameSockets s s.
Proof. by repeat split. Qed.

Lemma sameSockets_trans s1 s2 s3 :
  sameSockets s1 s2 -> sameSockets s2 s3 -> sameSockets s1 s3.
Proof.
  intros (Hl1 & Hn1 & Hs1) (Hl2 & Hn2 & Hs2).
  split; [congruence|]. split; [congruence|]. intros a. by rewrite Hs2.
Qed.

Lemma sameSockets_tiedBut K s s' :
  sameSockets s s' -> tiedBut K s -> tiedBut K s'.
Proof.
  intros (Hl & Hn & Hs) Ht sock a HK Hlive. unfold live in Hlive.
  rewrite Hl in Hlive. rewrite Hs. by apply Ht.
Qed.

Lemma sameSockets_allocated s s' :
  sameSockets s s' -> allocated s -> allocated s'.
Proof.
  intros (Hl & Hn & Hs) [Ha1 Ha2]. split.
  - intros sock a Hlive. unfold live in Hlive. rewrite Hl in Hlive. rewrite Hn. eauto.
  - intros a sock Hsock. rewrite Hs in Hsock. rewrite Hn. eauto.
Qed.

Lemma sameSockets_supervised s s' :
  sameSockets s s' -> supervised s -> supervised s'.
Proof.
  intros Hs [Ht Ha]. split;
    [by eapply sameSockets_tiedBut | by eapply sameSockets_allocated].
Qed.

Lemma socketOf_alter f account s a :
  (forall i, socket (f i) = socket i) ->
  (alter f account (instances s) !! a) ≫= socket = socketOf s a.
Proof.
  intros Hf. unfold socketOf. rewrite lookup_alter. case_decide; [|done]. subst.
  destruct (instances s !! a); simpl; [apply Hf | done].
Qed.

Lemma updateAccountStatus_sameSockets dbOk account v s :
  sameSockets s (updateAccountStatus dbOk account v s).
Proof.
  unfold updateAccountStatus.
  destruct (prismaUpdate dbOk account (setRowStatus v) (accounts s));
    [|apply sameSockets_refl].
  repeat split. intros a. unfold socketOf at 1. simpl.
  by apply socketOf_alter.
Qed.

Lemma socketOf_insert account inst s a :
  (<[account := inst]> (instances s) !! a) ≫= socket
  = if decide (account = a) then socket inst else socketOf s a.
Proof.
  unfold socketOf. rewrite lookup_insert. by case_decide.
Qed.

Lemma connectAccount_tied K cw account s :
  tiedBut K s -> allocated s -> noLiveBut K s account ->
  tiedBut K (connectAccount lib cw account s).1 /\
  allocated (connectAccount lib cw account s).1.
Proof.
  intros Ht [Ha1 Ha2] Hno. unfold connectAccount.
  destruct (instances s !! account) as [inst|] eqn:Hi; [|done].
  destruct cw; simpl; try done.
  split; [|split].
  - intros sock a HK Hlive. unfold live in Hlive. simpl in Hlive.
    unfold socketOf. simpl. rewrite socketOf_insert.
    rewrite lookup_insert in Hlive. case_decide as Hn.
    + injection Hlive as <-. subst. by rewrite decide_True.
    + case_decide as Ha; [|by apply Ht].
      subst. exfalso. by apply (Hno sock).
  - intros sock a Hlive. unfold live in Hlive. simpl in *.
    rewrite lookup_insert in Hlive. case_decide; [lia|].
    specialize (Ha1 sock a Hlive). lia.
  - intros a sock. unfold socketOf. simpl. rewrite socketOf_insert.
    case_decide; simpl.
    + intros [= <-]. lia.
    + intros Hs. specialize (Ha2 a sock Hs). lia.
Qed.

Lemma disconnectAccount_supervised dbOk account s :
  supervised s ->
  supervised (disconnectAccount dbOk account s) /\
  noLiveBut None (disconnectAccount dbOk account s) account /\
  instances (disconnectAccount dbOk account s) !! account = None.
Proof.
  intros [Ht [Ha1 Ha2]]. unfold disconnectAccount.
  destruct (instances s !! account) as [inst|] eqn:Hi.
  - set (s1 := match socket inst with
               | Some sock => _
               | None => s
               end).
    set (s2 := withInstances (delete account (instances s1)) s1).
    assert (Hl2 : listeners s2 = match socket inst with
                                 | Some sock => delete sock (listeners s)
                                 | None => listeners s
                                 end).
    { subst s2 s1. by destruct (socket inst). }
    assert (Hn2 : nextSocket s2 = nextSocket s).
    { subst s2 s1. by destruct (socket inst). }
    assert (Hs2 : forall a, socketOf s2 a
                            = if decide (account = a) then None else socketOf s a).
    { intros a. subst s2 s1. unfold socketOf.
      destruct (socket inst); simpl; rewrite lookup_delete; case_decide; try done.
      by rewrite lookup_insert_ne. }
    assert (Hlive2 : forall sock a, live s2 sock a -> live s sock a /\ a <> account).
    { intros sock a Hlive. unfold live in *. rewrite Hl2 in Hlive.
      assert (Hs : listeners s !! sock = Some a /\ socket inst <> Some sock).
      { destruct (socket inst) as [k|]; [|by split].
        rewrite lookup_delete in Hlive. case_decide; [done|].
        split; [done | congruence]. }
      destruct Hs as [Hs Hne]. split; [done|]. intros ->.
      pose proof (Ht sock account ltac:(done) Hs) as Htied.
      unfold socketOf in Htied. rewrite Hi in Htied. simpl in Htied. done. }
    assert (Hsup2 : supervised s2).
    { split; [|split].
      - intros sock a _ Hlive. destruct (Hlive2 _ _ Hlive) as [Hl Hne].
        rewrite Hs2, decide_False by done. by apply Ht.
      - intros sock a Hlive. destruct (Hlive2 _ _ Hlive) as [Hl _].
        rewrite Hn2. eauto.
      - intros a sock. rewrite Hs2, Hn2. case_decide; [done | eauto]. }
    pose proof (updateAccountStatus_sameSockets dbOk account DISCONNECTED s2)
      as Hsame.
    split; [|split].
    + eapply sameSockets_supervised; [|exact Hsup2].
      eapply sameSockets_trans; [exact Hsame|]. by repeat split.
    + intros sock _ Hlive. unfold live in Hlive. simpl in Hlive.
      destruct Hsame as (Hl & _ & _). rewrite Hl in Hlive.
      by destruct (Hlive2 _ _ Hlive).
    + simpl. unfold updateAccountStatus.
      destruct (prismaUpdate dbOk account _ (accounts s2)); simpl.
      * rewrite lookup_alter_eq. subst s2. simpl. by rewrite lookup_delete_eq.
      * subst s2. simpl. by rewrite lookup_delete_eq.
  - split; [done|]. split; [|done].
    intros sock _ Hlive. pose proof (Ht sock account ltac:(done) Hlive) as Htied.
    unfold socketOf in Htied. rewrite Hi in Htied. done.
Qed.

Lemma sameSockets_noLiveBut K s s' account :
  sameSockets s s' -> noLiveBut K s account -> noLiveBut K s' account.
Proof.
  intros (Hl & _ & _) Hno sock HK Hlive. unfold live in Hlive.
  rewrite Hl in Hlive. by apply (Hno sock).
Qed.

Lemma handleQr_sameSockets w account u s s1 :
  handleQr lib w account u s = inl s1 -> sameSockets s s1.
Proof.
  unfold handleQr. destruct (strOrUndefined (qr u)).
  - destruct (prismaUpdate _ _ _ _); [|done]. intros [= <-]. by repeat split.
  - intros [= <-]. apply sameSockets_refl.
Qed.

Lemma handleLoggedOut_tied K rmOk dbOk account s :
  tiedBut K s -> allocated s -> noLiveBut K s account ->
  tiedBut K (handleLoggedOut lib rmOk dbOk account s) /\
  allocated (handleLoggedOut lib rmOk dbOk account s).
Proof.
  intros Ht [Ha1 Ha2] Hno. unfold handleLoggedOut.
  set (s1 := if rmOk then _ else s).
  assert (Hs1 : sameSockets s s1) by (subst s1; destruct rmOk; by repeat split).
  pose proof (updateAccountStatus_sameSockets dbOk account DISCONNECTED s1) as Hs2.
  destruct (sameSockets_trans _ _ _ Hs1 Hs2) as (Hl & Hn & Hs).
  set (s2 := updateAccountStatus dbOk account DISCONNECTED s1) in *.
  assert (Hsock : forall a, socketOf (withInstances (delete account (instances s2)) s2) a
                            = if decide (account = a) then None else socketOf s a).
  { intros a. unfold socketOf at 1. simpl. rewrite lookup_delete.
    case_decide; [done|]. apply Hs. }
  split; [|split].
  - intros sock a HK Hlive. unfold live in Hlive. simpl in Hlive.
    rewrite Hl in Hlive. unfold socketOf. simpl. fold (socketOf s2 a).
    change (socketOf (withInstances (delete account (instances s2)) s2) a = Some sock).
    rewrite Hsock. case_decide as Ha.
    + subst. exfalso. by apply (Hno sock).
    + by apply Ht.
  - intros sock a Hlive. unfold live in Hlive. simpl in *.
    rewrite Hl in Hlive. rewrite Hn. eauto.
  - intros a sock Hsome.
    change (socketOf (withInstances (delete account (instances s2)) s2) a = Some sock)
      in Hsome.
    rewrite Hsock in Hsome. simpl. rewrite Hn. case_decide; [done | eauto].
Qed.

Lemma handleReconnect_tied K dbOk cw account s :
  tiedBut K s -> allocated s -> noLiveBut K s account ->
  tiedBut K (handleReconnect lib dbOk cw account s) /\
  allocated (handleReconnect lib dbOk cw account s).
Proof.
  intros Ht Ha Hno. unfold handleReconnect.
  destruct (instances s !! account) as [inst|] eqn:Hi; [|done].
  destruct (maxReconnectAttempts <=? reconnectAttempts inst).
  - assert (Hsame : sameSockets s
                      (doing [Emit (EvDisconnected account "max_reconnect_attempts")]
                         (updateAccountStatus dbOk account DISCONNECTED s))).
    { eapply sameSockets_trans; [apply updateAccountStatus_sameSockets|].
      by repeat split. }
    split; [by eapply sameSockets_tiedBut | by eapply sameSockets_allocated].
  - set (s2 := doing _ _).
    assert (Hsame : sameSockets s s2).
    { subst s2. repeat split. intros a. unfold socketOf at 1. simpl.
      rewrite socketOf_insert. case_decide; [|done]. subst.
      unfold socketOf. by rewrite Hi. }
    destruct (negb (isShuttingDown s2) && bool_decide (is_Some (instances s2 !! account))).
    + apply connectAccount_tied.
      * by eapply sameSockets_tiedBut.
      * by eapply sameSockets_allocated.
      * by eapply sameSockets_noLiveBut.
    + split; [by eapply sameSockets_tiedBut | by eapply sameSockets_allocated].
Qed.

Lemma handleConnectionUpdate_sameSockets w account u s :
  connection u <> Some connClose ->
  sameSockets s (handleConnectionUpdate lib w account u s).1.
Proof.
  intros Hne. unfold handleConnectionUpdate.
  destruct (instances s !! account) as [inst|] eqn:Hi; [|apply sameSockets_refl].
  destruct (handleQr lib w account u s) as [s1|e] eqn:Hqr; [|apply sameSockets_refl].
  pose proof (handleQr_sameSockets _ _ _ _ _ Hqr) as Hs1.
  pose proof (handleQr_cases w account u s) as Hc. rewrite Hqr in Hc.
  destruct Hc as (Hinst & _).
  destruct (connection u) as [[| |]|]; simpl; try done.
  set (s2 := withInstances _ s1).
  assert (Hs2 : sameSockets s s2).
  { eapply sameSockets_trans; [exact Hs1|]. subst s2. repeat split.
    intros a. unfold socketOf at 1. simpl. rewrite socketOf_insert.
    case_decide; [|done]. subst. unfold socketOf. by rewrite Hinst, Hi. }
  destruct (prismaUpdate _ _ _ _); simpl; [|done].
  eapply sameSockets_trans; [exact Hs2|]. by repeat split.
Qed.

Lemma handleConnectionUpdate_tied K w account u s :
  tiedBut K s -> allocated s -> noLiveBut K s account ->
  tiedBut K (handleConnectionUpdate lib w account u s).1 /\
  allocated (handleConnectionUpdate lib w account u s).1.
Proof.
  intros Ht Ha Hno.
  destruct (decide (connection u = Some connClose)) as [Hclose|Hother].
  - unfold handleConnectionUpdate.
    destruct (instances s !! account) as [inst|] eqn:Hi; [|done].
    destruct (handleQr lib w account u s) as [s1|e] eqn:Hqr; [|done].
    pose proof (handleQr_sameSockets _ _ _ _ _ Hqr) as Hs1.
    pose proof (sameSockets_tiedBut _ _ _ Hs1 Ht) as Ht1.
    pose proof (sameSockets_allocated _ _ Hs1 Ha) as Ha1.
    pose proof (sameSockets_noLiveBut _ _ _ _ Hs1 Hno) as Hno1.
    rewrite Hclose. case_bool_decide; simpl.
    + by apply handleLoggedOut_tied.
    + destruct (isShuttingDown s1); simpl.
      * pose proof (updateAccountStatus_sameSockets (updateDbOk w) account
                      DISCONNECTED s1) as Hs2.
        split; [by eapply sameSockets_tiedBut | by eapply sameSockets_allocated].
      * by apply handleReconnect_tied.
  - pose proof (handleConnectionUpdate_sameSockets w account u s Hother) as Hs.
    split; [by eapply sameSockets_tiedBut | by eapply sameSockets_allocated].
Qed.

Lemma emitConnectionUpdate_supervised w sock u s :
  supervised s -> supervised (emitConnectionUpdate lib w sock u s).
Proof.
  intros [Ht Ha]. unfold emitConnectionUpdate.
  destruct (listeners s !! sock) as [account|] eqn:Hl; [|done].
  destruct (decide (connection u = Some connClose)) as [Hclose|Hother].
  - rewrite Hclose.
    destruct (handleConnectionUpdate_tied (Some sock) w account u s)
      as [Ht' [Ha1 Ha2]].
    + intros k a _. by apply Ht.
    + done.
    + intros k Hk Hlive.
      pose proof (Ht k account ltac:(done) Hlive) as H1.
      pose proof (Ht sock account ltac:(done) Hl) as H2. congruence.
    + split; [|split].
      * intros k a _ Hlive. unfold live in Hlive. simpl in Hlive.
        rewrite lookup_delete in Hlive. case_decide; [done|].
        apply (Ht' k a); [congruence | done].
      * intros k a Hlive. unfold live in Hlive. simpl in *.
        rewrite lookup_delete in Hlive. case_decide; [done|]. by apply (Ha1 k a).
      * intros a k Hs. by apply (Ha2 a k).
  - pose proof (handleConnectionUpdate_sameSockets w account u s Hother) as Hs.
    assert (Heq : match connection u with
                  | Some connClose =>
                      withListeners
                        (delete sock (listeners (handleConnectionUpdate lib w account u s).1))
                        (handleConnectionUpdate lib w account u s).1
                  | _ => (handleConnectionUpdate lib w account u s).1
                  end = (handleConnectionUpdate lib w account u s).1).
    { by destruct (connection u) as [[| |]|]. }
    rewrite Heq. by eapply sameSockets_supervised.
Qed.

Lemma allocateInstance_supervised account inst s :
  socket inst = None ->
  supervised s -> noLiveBut None s account ->
  let s2 := withInstances (<[account := inst]> (instances s)) s in
  supervised s2 /\ noLiveBut None s2 account.
Proof.
  intros Hsock [Ht [Ha1 Ha2]] Hno s2.
  assert (Hs : forall a, socketOf s2 a
                         = if decide (account = a) then None else socketOf s a).
  { intros a. unfold socketOf at 1. subst s2. simpl. rewrite socketOf_insert.
    by rewrite Hsock. }
  split; [|exact Hno]. split; [|split].
  - intros sock a HK Hlive. rewrite Hs. case_decide as Hacc.
    + subst. exfalso. by apply (Hno sock).
    + by apply Ht.
  - exact Ha1.
  - intros a sock. rewrite Hs. case_decide; [done|]. apply Ha2.
Qed.

Lemma initializeAccount_supervised w account s :
  supervised s -> supervised (initializeAccount lib w account s).1.
Proof.
  intros Hsup. unfold initializeAccount.
  set (s1 := if bool_decide (is_Some (instances s !! account)) then _ else s).
  assert (H1 : supervised s1 /\ noLiveBut None s1 account).
  { subst s1. case_bool_decide as Hhas.
    - destruct (disconnectAccount_supervised (teardownDbOk w) account s Hsup)
        as (? & ? & _). done.
    - split; [done|]. intros sock _ Hlive. apply Hhas.
      destruct Hsup as [Ht _]. pose proof (Ht sock account ltac:(done) Hlive) as Hs.
      unfold socketOf in Hs. destruct (instances s !! account); [eauto | done]. }
  destruct H1 as [Hsup1 Hno1].
  destruct (allocateInstance_supervised account
              {| socket := None; accountId := account; status := CONNECTING;
                 reconnectAttempts := 0; lastActivity := initNow w |}
              s1 eq_refl Hsup1 Hno1) as [[Ht2 Ha2] Hno2].
  destruct (connectAccount_tied None (initConnect w) account _ Ht2 Ha2 Hno2)
    as [Ht3 Ha3].
  destruct (connectAccount lib (initConnect w) account _) as [s3 [e|]]; simpl in *.
  - eapply sameSockets_supervised; [apply updateAccountStatus_sameSockets|]. done.
  - done.
Qed.

Lemma sendMessage_sameSockets w account to content options s :
  sameSockets s (sendMessage lib w account to content options s).1.
Proof.
  unfold sendMessage.
  destruct (instances s !! account) as [inst|] eqn:Hi; [|apply sameSockets_refl].
  destruct (socket inst) as [sock|] eqn:Hsock; [|apply sameSockets_refl].
  case_bool_decide; [apply sameSockets_refl|].
  destruct (checkRateLimit (checkNow w) to (messageQueue s)) as [mq admitted].
  destruct admitted; simpl; [|by repeat split].
  destruct (resolvePayload w content options); [|by repeat split].
  destruct (socketSendMessage w sock _ _); simpl; [|by repeat split].
  repeat split. intros a. unfold socketOf at 1. simpl. rewrite socketOf_insert.
  case_decide; [|done]. subst. unfold socketOf. by rewrite Hi.
Qed.

Lemma disconnectAccount_absent dbOk account s a :
  instances s !! a = None ->
  instances (disconnectAccount dbOk account s) !! a = None.
Proof.
  intros Ha. unfold disconnectAccount.
  destruct (instances s !! account) as [inst|] eqn:Hi; [|done].
  assert (account <> a) by congruence.
  unfold updateAccountStatus.
  destruct (prismaUpdate dbOk account _ _); destruct (socket inst); simpl;
    rewrite ?lookup_alter_ne, ?lookup_delete_ne, ?lookup_insert_ne by done; done.
Qed.

Lemma disconnectAll_supervised (dbOk : string -> bool) ids s :
  supervised s ->
  let s' := foldl (fun acc account => disconnectAccount (dbOk account) account acc)
                  s ids in
  supervised s' /\
  (forall a, a ∈ ids \/ instances s !! a = None -> instances s' !! a = None).
Proof.
  revert s. induction ids as [|account ids IH]; intros s Hsup; simpl.
  - split; [done|]. intros a [Ha|Ha]; [inversion Ha | done].
  - destruct (disconnectAccount_supervised (dbOk account) account s Hsup)
      as (Hsup1 & _ & Hgone).
    destruct (IH _ Hsup1) as [Hsup' Hnone]. split; [done|].
    intros a [Ha|Ha]; apply Hnone.
    + apply elem_of_cons in Ha as [->|Ha]; [by right | by left].
    + right. by apply disconnectAccount_absent.
Qed.

Lemma shutdown_supervised dbOk s : supervised s -> supervised (shutdown dbOk s).
Proof.
  intros Hsup. unfold shutdown.
  set (s1 := withShuttingDown true s).
  assert (Hsup1 : supervised s1) by (eapply sameSockets_supervised; [|exact Hsup];
                                     by repeat split).
  destruct (disconnectAll_supervised dbOk (map_to_list (instances s1)).*1 s1 Hsup1)
    as [[Ht [Ha1 Ha2]] Hnone].
  set (s2 := foldl _ s1 _) in *.
  assert (Hempty : forall a, instances s2 !! a = None).
  { intros a. apply Hnone. destruct (instances s1 !! a) as [inst|] eqn:Hi; [|by right].
    left. apply list_elem_of_fmap. exists (a, inst). split; [done|].
    by apply elem_of_map_to_list. }
  assert (Hdead : forall sock a, ~ live s2 sock a).
  { intros sock a Hlive. pose proof (Ht sock a ltac:(done) Hlive) as Hs.
    unfold socketOf in Hs. by rewrite Hempty in Hs. }
  split; [|split].
  - intros sock a _ Hlive. by destruct (Hdead sock a).
  - intros sock a Hlive. by destruct (Hdead sock a).
  - intros a sock Hs. unfold socketOf in Hs. simpl in Hs.
    by rewrite lookup_empty in Hs.
Qed.

Lemma newService_supervised disk db : supervised (newService disk db).
Proof.
  split; [|split].
  - intros sock a _ Hlive. unfold live in Hlive. simpl in Hlive.
    by rewrite lookup_empty in Hlive.
  - intros sock a Hlive. unfold live in Hlive. simpl in Hlive.
    by rewrite lookup_empty in Hlive.
  - intros a sock Hs. unfold socketOf in Hs. simpl in Hs.
    by rewrite lookup_empty in Hs.
Qed.

Lemma step_supervised s op : supervised s -> supervised (step lib s op).
Proof.
  intros Hsup. destruct op; simpl.
  - by apply initializeAccount_supervised.
  - by apply disconnectAccount_supervised.
  - by apply emitConnectionUpdate_supervised.
  - destruct (emitMessagesUpsert_quiet uuid now sock upsertType messages s)
      as [Hi (Hn & Hl & _)].
    eapply sameSockets_supervised; [|done].
    split; [done|]. split; [done|]. intros a. unfold socketOf. by rewrite Hi.
  - eapply sameSockets_supervised; [apply sendMessage_sameSockets | done].
  - by apply shutdown_supervised.
Qed.

Lemma run_supervised ops s : supervised s -> supervised (run lib ops s).
Proof.
  revert s. induction ops as [|op ops IH]; intros s Hsup; simpl; [done|].
  apply IH. by apply step_supervised.
Qed.

Lemma updateAccountStatus_effects dbOk account v s :
  effects (updateAccountStatus dbOk account v s) = effects s.
Proof.
  unfold updateAccountStatus. by destruct (prismaUpdate dbOk account _ _).
Qed.

Lemma disconnectAccount_effects dbOk account s inst :
  instances s !! account = Some inst ->
  effects (disconnectAccount dbOk account s)
  = effects s ++ teardownEffects account inst.
Proof.
  intros Hi. unfold disconnectAccount, teardownEffects. rewrite Hi. simpl.
  rewrite updateAccountStatus_effects. simpl.
  destruct (socket inst); simpl; by rewrite <- ?app_assoc.
Qed.

Lemma disconnectAccount_nextSocket dbOk account s :
  nextSocket (disconnectAccount dbOk account s) = nextSocket s.
Proof.
  unfold disconnectAccount. destruct (instances s !! account) as [inst|]; [|done].
  simpl. unfold updateAccountStatus.
  destruct (prismaUpdate dbOk account _ _); by destruct (socket inst).
Qed.

(** C8.  Along every run of the service from a new service in which
    the calls of its interface and the handlers of socket events run
    one after the other (each has ended before the next starts), an
    account never has two live connections, and a live connection is the socket the instance of the
    account holds.  And [initializeAccount] on an account that has an
    instance tears the instance down first (listeners removed, logout,
    the [manual] disconnect event) and only then allocates: the old
    socket is no longer live; when the socket opens the account holds a
    fresh instance in [CONNECTING] on a new socket, which is live; when
    opening fails the error is re-thrown and the account has no live
    connection. *)
Theorem one_live_connection_per_account :
  (forall ops disk db account k1 k2,
      let s := run lib ops (newService disk db) in
      live s k1 account -> live s k2 account ->
      k1 = k2 /\ socketOf s account = Some k1)
  /\
  (forall ops disk db w account inst,
      let s := run lib ops (newService disk db) in
      instances s !! account = Some inst ->
      let out := initializeAccount lib w account s in
      effects out.1
      = effects s ++ teardownEffects account inst
          ++ match initConnect w with
             | SocketOpens => [SocketCreated account (nextSocket s)]
             | _ => []
             end /\
      (forall k, socket inst = Some k -> ~ live out.1 k account) /\
      match initConnect w with
      | SocketOpens =>
          out.2 = None /\
          instances out.1 !! account
          = Some (setSocket (Some (nextSocket s))
                    (freshInstance account (initNow w))) /\
          live out.1 (nextSocket s) account
      | AuthStateThrows e | MakeSocketThrows e =>
          out.2 = Some e /\ socketOf out.1 account = None /\
          noLiveBut None out.1 account
      end).
Proof.
  split.
  - intros ops disk db account k1 k2 s H1 H2.
    destruct (run_supervised ops _ (newService_supervised disk db)) as [Ht _].
    fold s in Ht.
    pose proof (Ht k1 account ltac:(done) H1).
    pose proof (Ht k2 account ltac:(done) H2). split; congruence.
  - intros ops disk db w account inst s Hi out.
    pose proof (run_supervised ops _ (newService_supervised disk db)) as Hsup.
    fold s in Hsup.
    pose proof (initializeAccount_supervised w account s Hsup) as Hsup'.
    fold out in Hsup'. destruct Hsup' as [Ht' _].
    assert (Hold : forall k, socket inst = Some k -> (k < nextSocket s)%nat).
    { intros k Hk. destruct Hsup as [_ [_ Ha2]]. apply (Ha2 account).
      unfold socketOf. by rewrite Hi. }
    subst out. unfold initializeAccount in *.
    rewrite bool_decide_eq_true_2 in * by eauto.
    pose proof (disconnectAccount_effects (teardownDbOk w) account s inst Hi) as He.
    pose proof (disconnectAccount_nextSocket (teardownDbOk w) account s) as Hn.
    set (s1 := disconnectAccount (teardownDbOk w) account s) in *.
    unfold connectAccount in *. simpl in *. rewrite lookup_insert_eq in *.
    destruct (initConnect w) as [e|e|]; simpl in *.
    + rewrite updateAccountStatus_effects. simpl. rewrite He, app_nil_r.
      match goal with
      | |- context [noLiveBut None ?st account] =>
          assert (Hs : socketOf st account = None)
      end.
      { match goal with
        | |- socketOf (updateAccountStatus ?d ?a ?v ?x) _ = _ =>
            destruct (updateAccountStatus_sameSockets d a v x) as (_ & _ & Hsame)
        end.
        rewrite Hsame. unfold socketOf. simpl. by rewrite lookup_insert_eq. }
      split; [done|]. split; [|split; [done|split; [done|]]].
      * intros k _ Hlive. pose proof (Ht' k account ltac:(done) Hlive). congruence.
      * intros k _ Hlive. pose proof (Ht' k account ltac:(done) Hlive). congruence.
    + rewrite updateAccountStatus_effects. simpl. rewrite He, app_nil_r.
      match goal with
      | |- context [noLiveBut None ?st account] =>
          assert (Hs : socketOf st account = None)
      end.
      { match goal with
        | |- socketOf (updateAccountStatus ?d ?a ?v ?x) _ = _ =>
            destruct (updateAccountStatus_sameSockets d a v x) as (_ & _ & Hsame)
        end.
        rewrite Hsame. unfold socketOf. simpl. by rewrite lookup_insert_eq. }
      split; [done|]. split; [|split; [done|split; [done|]]].
      * intros k _ Hlive. pose proof (Ht' k account ltac:(done) Hlive). congruence.
      * intros k _ Hlive. pose proof (Ht' k account ltac:(done) Hlive). congruence.
    + rewrite He, Hn in *. rewrite <- app_assoc. split; [done|].
      split; [|split; [done|split]].
      * intros k Hk Hlive. pose proof (Ht' k account ltac:(done) Hlive) as Hs.
        unfold socketOf in Hs. simpl in Hs. rewrite lookup_insert_eq in Hs.
        simpl in Hs. injection Hs as <-. specialize (Hold _ Hk). lia.
      * by rewrite lookup_insert_eq.
      * unfold live. simpl. by rewrite lookup_insert_eq.
Qed.

(** ** An account that is capped stays so until it is re-initialized *)

Lemma leftAlone_refl account s : leftAlone account s s.
Proof. by repeat split. Qed.

Lemma leftAlone_trans account s1 s2 s3 :
  leftAlone account s1 s2 -> leftAlone account s2 s3 -> leftAlone account s1 s3.
Proof.
  intros (Hc1 & Hl1 & He1) (Hc2 & Hl2 & He2).
  split; [auto|]. split; [auto | congruence].
Qed.

Lemma noReconnect_leftAlone account s s' :
  noReconnect s s' ->
  (capped s account -> capped s' account) ->
  leftAlone account s s'.
Proof.
  intros (_ & Hl & new & He & Hq) Hc. split; [done|]. split.
  - intros k. unfold live. by rewrite Hl.
  - rewrite He. unfold socketsCreatedFor. rewrite omap_app.
    assert (Hnone : omap (fun e => match e with
                                   | SocketCreated a sock =>
                                       if decide (a = account) then Some sock else None
                                   | _ => None
                                   end) new = []).
    { clear He. induction Hq as [|e new He' _ IH]; [done|].
      destruct e; simpl in *; try done. }
    by rewrite Hnone, app_nil_r.
Qed.

Lemma capped_alter f b account s :
  (forall i, reconnectAttempts (f i) = reconnectAttempts i) ->
  capped s account ->
  capped (withInstances (alter f b (instances s)) s) account.
Proof.
  intros Hf Hc inst. simpl. rewrite lookup_alter. case_decide; [|apply Hc]. subst.
  destruct (instances s !! account) as [i|] eqn:Hi; simpl; [|done].
  intros [= <-]. rewrite Hf. by apply Hc.
Qed.

Lemma updateAccountStatus_leftAlone dbOk b v account s :
  leftAlone account s (updateAccountStatus dbOk b v s).
Proof.
  apply noReconnect_leftAlone; [apply updateAccountStatus_noReconnect|].
  apply updateAccountStatus_capped.
Qed.



Lemma disconnectAccount_leftAlone dbOk b account s :
  leftAlone account s (disconnectAccount dbOk b s).
Proof.
  unfold disconnectAccount.
  destruct (instances s !! b) as [inst|] eqn:Hi; [|apply leftAlone_refl].
  set (s1 := match socket inst with
             | Some sock => _
             | None => s
             end).
  set (s2 := withInstances (delete b (instances s1)) s1).
  assert (H2 : leftAlone account s s2).
  { split; [|split].
    - intros Hc i. subst s2 s1. simpl. rewrite lookup_delete.
      case_decide; [done|].
      destruct (socket inst); simpl; rewrite ?lookup_insert_ne by done; apply Hc.
    - intros k. unfold live. subst s2 s1.
      destruct (socket inst) as [sock|]; simpl; [|done].
      rewrite lookup_delete. by case_decide.
    - subst s2 s1. destruct (socket inst); simpl; [|done].
      unfold socketsCreatedFor. rewrite omap_app. simpl. by rewrite app_nil_r. }
  eapply leftAlone_trans; [exact H2|].
  eapply leftAlone_trans; [apply updateAccountStatus_leftAlone|].
  apply noReconnect_leftAlone; [apply doing_emit_noReconnect | done].
Qed.










(** ** Backoff and the cap on reconnects *)


(** ** A connected instance holds a socket *)












(** ** Send path *)


(** ** The reconnect and its sleep *)

(** [handleReconnect] is its first half followed, when it went to
    sleep, by its second. *)
Lemma handleReconnect_split dbOk cw account s :
  handleReconnect lib dbOk cw account s
  = let '(s1, asleep) := handleReconnectBefore dbOk account s in
    if asleep then handleReconnectAfter lib cw account s1 else s1.
Proof.
  unfold handleReconnect, handleReconnectBefore, handleReconnectAfter.
  destruct (instances s !! account) as [inst|]; [|done].
  by destruct (maxReconnectAttempts <=? reconnectAttempts inst).
Qed.

Lemma handleConnectionUpdate_split w account u s :
  handleConnectionUpdate lib w account u s
  = let '(s1, e, asleep) := handleConnectionUpdateBefore lib w account u s in
    (if asleep then handleReconnectAfter lib (updateConnect w) account s1 else s1,
     e).
Proof.
  unfold handleConnectionUpdateBefore.
  destruct (instances s !! account) as [inst|] eqn:Hinst.
  - destruct (handleQr lib w account u s) as [s1|e] eqn:Hqr.
    + destruct (bool_decide (connection u = Some connClose)
                && negb (bool_decide (statusCode u = Some loggedOut))
                && negb (isShuttingDown s1)) eqn:Hcond.
      * apply andb_true_iff in Hcond as [Hcond Hdown].
        apply andb_true_iff in Hcond as [Hclose Hout].
        apply bool_decide_eq_true in Hclose.
        apply negb_true_iff in Hout.
        unfold handleConnectionUpdate. rewrite Hinst, Hqr, Hclose, Hout, Hdown.
        rewrite handleReconnect_split.
        by destruct (handleReconnectBefore (updateDbOk w) account s1)
          as [s2 asleep].
      * by destruct (handleConnectionUpdate lib w account u s).
    + unfold handleConnectionUpdate. by rewrite Hinst, Hqr.
  - unfold handleConnectionUpdate. by rewrite Hinst.
Qed.

Lemma handleQr_sockets w account u s s1 :
  handleQr lib w account u s = inl s1 ->
  nextSocket s1 = nextSocket s /\ listeners s1 = listeners s.
Proof.
  unfold handleQr. destruct (strOrUndefined (qr u)); [|by intros [= <-]].
  destruct (prismaUpdate _ _ _ _); [|done]. by intros [= <-].
Qed.

(** A [connection.update] whose handler runs up to the sleep and is
    woken before anything else happens is the event handled to its
    end. *)
Lemma emitConnectionUpdate_split w sock u s :
  (sock < nextSocket s)%nat ->
  emitConnectionUpdate lib w sock u s
  = match emitConnectionUpdateBefore lib w sock u s with
    | (s1, Some account) =>
        handleReconnectAfter lib (updateConnect w) account s1
    | (s1, None) => s1
    end.
Proof.
  intros Hlt. unfold emitConnectionUpdate, emitConnectionUpdateBefore.
  destruct (listeners s !! sock) as [account|]; [|done].
  rewrite (handleConnectionUpdate_split w account u s).
  unfold handleConnectionUpdateBefore.
  destruct (instances s !! account) as [inst|] eqn:Hinst;
    [|by destruct (connection u) as [[]|]].
  destruct (handleQr lib w account u s) as [s1|e] eqn:Hqr;
    [|by destruct (connection u) as [[]|]].
  apply handleQr_sockets in Hqr as [Hn Hl].
  destruct (bool_decide (connection u = Some connClose)
            && negb (bool_decide (statusCode u = Some loggedOut))
            && negb (isShuttingDown s1)) eqn:Hcond.
  - apply andb_true_iff in Hcond as [Hcond Hdown].
    apply andb_true_iff in Hcond as [Hclose _].
    apply bool_decide_eq_true in Hclose. rewrite Hclose.
    unfold handleReconnectBefore.
    destruct (instances s1 !! account) as [inst1|] eqn:Hinst1; [|done].
    destruct (maxReconnectAttempts <=? reconnectAttempts inst1); [done|].
    simpl. unfold handleReconnectAfter. simpl.
    destruct (negb (isShuttingDown s1)
              && bool_decide (is_Some (<[account:=setReconnectAttempts
                                  (reconnectAttempts inst1 + 1) inst1]>
                                  (instances s1) !! account))); [|done].
    unfold connectAccount. simpl. rewrite lookup_insert_eq.
    destruct (updateConnect w); simpl; try done.
    unfold withListeners. simpl. f_equal.
    rewrite delete_insert_ne by lia. done.
  - destruct (handleConnectionUpdate lib w account u s) as [s2 e2].
    by destruct (connection u) as [[]|].
Qed.

End WithImports.

End SupervisorFacts.

(** ** Examples *)

Module SupervisorExamples.
Import WhatsApp WhatsAppSpec SupervisorFacts.



(** C7, the claim as stated fails: the account is logged out while the
    removal of its session directory and the database update fail; the
    directory is still on disk afterwards and the row of the account
    still says [CONNECTED], although the instance is gone. *)
Lemma logged_out_session_survives :
  let s' := (handleConnectionUpdate demoImports refusingWorld "acct-1"
               loggedOutClose connectedService).1 in
  getSessionPath demoImports "acct-1" ∈ sessions s' /\
  rowStatus <$> (accounts s' !! "acct-1") = Some CONNECTED /\
  instances s' !! "acct-1" = None.
Proof. split; [set_solver | split; by vm_compute]. Qed.

Lemma logged_out_close_is_terminal_witness :
  let out := handleConnectionUpdate demoImports obligingWorld "acct-1"
               loggedOutClose connectedService in
  out.2 = None /\
  instances out.1 = delete "acct-1" (instances connectedService) /\
  effects out.1 = effects connectedService ++ [Emit (EvDisconnected "acct-1" "logged_out")] /\
  noReconnect connectedService out.1 /\
  (updateRmOk obligingWorld = true -> getSessionPath demoImports "acct-1" ∉ sessions out.1) /\
  (updateRmOk obligingWorld = false -> sessions out.1 = sessions connectedService) /\
  match prismaUpdate true "acct-1" (setRowStatus DISCONNECTED) (accounts connectedService) with
  | Some db => rowStatus <$> (accounts out.1 !! "acct-1") = Some DISCONNECTED
  | None => accounts out.1 = accounts connectedService
  end.
Proof.
  apply (logged_out_close_is_terminal demoImports obligingWorld "acct-1"
           loggedOutClose connectedService demoInstance connectedService).
  - by vm_compute.
  - reflexivity.
  - reflexivity.
  - reflexivity.
Defined.

Lemma one_live_connection_per_account_witness :
  (forall k, live initializedService k "acct-1" ->
             k = 0%nat /\ socketOf initializedService "acct-1" = Some k)
  /\
  (let out := initializeAccount demoImports openingWorld "acct-1" initializedService in
   effects out.1
   = effects initializedService
       ++ teardownEffects "acct-1"
            (setSocket (Some 0%nat) (freshInstance "acct-1" 1700000200000))
       ++ [SocketCreated "acct-1" (nextSocket initializedService)] /\
   (forall k, Some 0%nat = Some k -> ~ live out.1 k "acct-1") /\
   out.2 = None /\
   instances out.1 !! "acct-1"
   = Some (setSocket (Some (nextSocket initializedService))
             (freshInstance "acct-1" 1700000200000)) /\
   live out.1 (nextSocket initializedService) "acct-1").
Proof.
  destruct (one_live_connection_per_account demoImports) as [Hone Hinit].
  split.
  - intros k Hk.
    apply (Hone [OpInitialize openingWorld "acct-1"] ∅ {[ "acct-1" := demoRow ]}
             "acct-1" k 0%nat Hk).
    by vm_compute.
  - apply (Hinit [OpInitialize openingWorld "acct-1"] ∅ {[ "acct-1" := demoRow ]}
             openingWorld "acct-1"
             (setSocket (Some 0%nat) (freshInstance "acct-1" 1700000200000))).
    by vm_compute.
Defined.


(** The account is initialized again while a reconnect for it is
    asleep.  The call tears down what it finds and opens socket 1;
    when the sleep ends the reconnect finds an instance, as it checks,
    and opens socket 2: both sockets carry the handlers of the
    account, and the instance holds only the second. *)
Lemma reinitialize_during_backoff_leaves_two_connections :
  live (supervise demoImports raceEvents
          (newService ∅ {[ "acct-1" := demoRow ]})).1 1 "acct-1" /\
  live (supervise demoImports raceEvents
          (newService ∅ {[ "acct-1" := demoRow ]})).1 2 "acct-1" /\
  socketOf (supervise demoImports raceEvents
              (newService ∅ {[ "acct-1" := demoRow ]})).1 "acct-1"
  = Some 2%nat /\
  socketsCreatedFor "acct-1"
    (effects (supervise demoImports raceEvents
                (newService ∅ {[ "acct-1" := demoRow ]})).1)
  = [0; 1; 2]%nat.
Proof. vm_compute. done. Qed.

End SupervisorExamples.

(* ===================================================================== *)
(** * Provider pool: statistics, requests, persistence *)
(* ===================================================================== *)

Module PoolFacts.
Import AI AISpec PoolSpec AIFacts.

(** ** Statistics and selection *)

Lemma scanFrom_first provs i configs j c p :
  scanFrom provs i configs = Some (j, c, p) ->
  forall k c', (i + k < j)%nat -> configs !! k = Some c' ->
               ~ selectable provs c'.
Proof.
  revert i. induction configs as [|x rest IH]; intros i Hscan k c' Hk Hc'; [done|].
  simpl in Hscan.
  destruct (usedToday x <? dailyLimit x) eqn:Hlt.
  - destruct (provs !! id x) as [px|] eqn:Hpx.
    + injection Hscan as <- <- <-. lia.
    + destruct k as [|k]; simpl in Hc'.
      * injection Hc' as <-. intros [_ [? Hsome]]. congruence.
      * apply (IH (S i) Hscan k c'); [lia|done].
  - destruct k as [|k]; simpl in Hc'.
    + injection Hc' as <-. intros [Hu _]. apply Z.ltb_ge in Hlt. lia.
    + apply (IH (S i) Hscan k c'); [lia|done].
Qed.

Lemma getProviderStats_lookup s j st :
  getProviderStats s !! j = Some st ->
  exists c, providerConfigs s !! j = Some c /\
            statsId st = id c /\ statsUsedToday st = usedToday c /\
            statsDailyLimit st = dailyLimit c /\
            statsAvailable st = (usedToday c <? dailyLimit c).
Proof.
  unfold getProviderStats. rewrite list_lookup_fmap.
  destruct (providerConfigs s !! j) as [c|]; [|done].
  simpl. intros [= <-]. by exists c.
Qed.

(** X1.  The [available] flag of [getProviderStats] and the selection
    of [getAvailableProvider] agree on a pool whose configs all have a
    provider registered: the config selected is the first entry of the
    statistics that is flagged available, and nothing is selected
    exactly when no entry is flagged. *)
Theorem stats_agree_with_selection (s : AIService) :
  registered s ->
  match getAvailableProvider s with
  | Some (i, config, provider) =>
      (exists st, getProviderStats s !! i = Some st /\
                  statsId st = id config /\ statsAvailable st = true) /\
      (forall j st, (j < i)%nat -> getProviderStats s !! j = Some st ->
                    statsAvailable st = false)
  | None =>
      Forall (fun st => statsAvailable st = false) (getProviderStats s)
  end.
Proof.
  intros Hreg.
  destruct (getAvailableProvider s) as [[[i config] provider]|] eqn:Hsel.
  - pose proof (getAvailableProvider_Some _ _ _ _ Hsel) as (Hi & Hlt & Hp).
    split.
    + unfold getProviderStats. rewrite list_lookup_fmap, Hi. simpl.
      eexists. split; [done|]. simpl. split; [done|]. by apply Z.ltb_lt.
    + intros j st Hj Hst.
      apply getProviderStats_lookup in Hst as (c & Hc & _ & _ & _ & ->).
      apply Z.ltb_ge. apply Z.le_ngt. intros Hu.
      apply (scanFrom_first _ _ _ _ _ _ Hsel j c); [lia|done|].
      split; [done|].
      destruct (Hreg c) as (p & -> & _); [by eapply list_elem_of_lookup_2|done].
  - apply Forall_forall. intros st Hst.
    apply list_elem_of_lookup in Hst as [j Hst].
    apply getProviderStats_lookup in Hst as (c & Hc & _ & _ & _ & ->).
    apply Z.ltb_ge. apply Z.le_ngt. intros Hu.
    pose proof (scanFrom_None _ _ _ Hsel c) as Hnone.
    destruct (Hreg c) as (p & Hp & _); [by eapply list_elem_of_lookup_2|].
    rewrite Hnone in Hp; [done| by eapply list_elem_of_lookup_2 | done].
Qed.

Lemma stats_agree_with_selection_witness :
  match getAvailableProvider (loadProviders scenarioRows) with
  | Some (i, config, provider) =>
      (exists st, getProviderStats (loadProviders scenarioRows) !! i = Some st /\
                  statsId st = id config /\ statsAvailable st = true) /\
      (forall j st, (j < i)%nat ->
                    getProviderStats (loadProviders scenarioRows) !! j = Some st ->
                    statsAvailable st = false)
  | None =>
      Forall (fun st => statsAvailable st = false)
             (getProviderStats (loadProviders scenarioRows))
  end.
Proof.
  apply (stats_agree_with_selection (loadProviders scenarioRows)).
  apply loadProviders_registered.
Defined.

(** ** History and requests *)

Lemma copy_message_id (l : list AIMessage) :
  (fun m => {| role := role m; aiContent := aiContent m;
               aiTimestamp := aiTimestamp m |}) <$> l = l.
Proof.
  induction l as [|[? ? ?] l IH]; [done|]. by rewrite fmap_cons, IH.
Qed.

(** X2.  [prepareMessages] hands on the last ten messages of the
    history, unchanged and in order: its result has
    [min 10 (length history)] elements, is a suffix of the history,
    ends with the latest message, and is the whole history when that
    has at most ten messages. *)
Theorem prepareMessages_keeps_latest (history : list AIMessage) :
  length (prepareMessages history) = Nat.min 10 (length history) /\
  (exists older, history = older ++ prepareMessages history) /\
  last (prepareMessages history) = last history /\
  ((length history <= 10)%nat -> prepareMessages history = history).
Proof.
  unfold prepareMessages, sliceLast. rewrite copy_message_id.
  split; [rewrite length_drop; lia|].
  split; [exists (take (length history - 10) history); by rewrite take_drop|].
  split.
  - destruct (decide (length history <= 10)%nat) as [Hle|Hgt].
    + replace (length history - 10)%nat with 0%nat by lia. done.
    + rewrite <- (take_drop (length history - 10) history) at 3.
      rewrite last_app.
      destruct (last (drop (length history - 10) history)) eqn:Hlast; [done|].
      apply last_None in Hlast.
      apply (f_equal length) in Hlast. rewrite length_drop in Hlast.
      simpl in Hlast. lia.
  - intros Hle. replace (length history - 10)%nat with 0%nat by lia. done.
Qed.

Lemma sliceButLast_snoc {A} (l : list A) x : sliceButLast (l ++ [x]) = l.
Proof.
  unfold sliceButLast. rewrite length_app. simpl.
  replace (length l + 1 - 1)%nat with (length l) by lia.
  by rewrite take_app_length.
Qed.

Lemma lastMessageContent_snoc l m :
  lastMessageContent (l ++ [m]) = aiContent m.
Proof.
  unfold lastMessageContent. rewrite last_snoc. simpl.
  unfold strOr. destruct (String.eqb (aiContent m) "") eqn:He; [|done].
  apply String.eqb_eq in He. by rewrite He.
Qed.

Lemma strOr_nonempty a b : b <> "" -> strOr a b <> "".
Proof.
  intros Hb. unfold strOr. destruct a as [s|]; [|done].
  destruct (String.eqb s "") eqn:He; [done|].
  by apply String.eqb_neq in He.
Qed.

Lemma defaultModel_nonempty t : defaultModel t <> "".
Proof. by destruct t. Qed.

(** X3.  [GeminiProvider] and [CohereProvider] split the messages into
    a chat history and a final prompt.  Nothing is lost by the split:
    for a conversation that is not empty the texts of the history
    followed by the prompt are the texts of the messages, in order; an
    empty conversation gives an empty history and the empty prompt.  A
    message of the assistant is sent under the role [model] (Gemini) or
    [CHATBOT] (Cohere), every other message, a system message as well,
    under [user] or [USER]; the model named is never the empty
    string. *)
Theorem history_and_prompt_cover_the_conversation
        (p : AIProvider) (systemPrompt : string) (messages : list AIMessage) :
  providerClass p = GEMINI \/ providerClass p = COHERE ->
  exists model history prompt,
    buildRequest p systemPrompt messages
    = (if decide (providerClass p = GEMINI)
       then GeminiRequest model systemPrompt history prompt
       else CohereRequest model prompt systemPrompt history) /\
    model <> "" /\
    (messages <> [] -> history.*2 ++ [prompt] = aiContent <$> messages) /\
    (messages = [] -> history = [] /\ prompt = "") /\
    (forall i m, messages !! i = Some m -> (S i < length messages)%nat ->
                 exists r, history !! i = Some (r, aiContent m) /\
                           (role m = assistant ->
                            r = if decide (providerClass p = GEMINI)
                                then "model" else "CHATBOT") /\
                           (role m <> assistant ->
                            r = if decide (providerClass p = GEMINI)
                                then "user" else "USER")).
Proof.
  intros Hclass.
  assert (Hcover :
    forall (f : AIMessage -> string * string),
      (forall m, (f m).2 = aiContent m) ->
      (messages <> [] ->
       (f <$> sliceButLast messages).*2 ++ [lastMessageContent messages]
       = aiContent <$> messages) /\
      (messages = [] ->
       f <$> sliceButLast messages = [] /\ lastMessageContent messages = "")).
  { intros f Hf. split.
    - intros Hne.
      destruct (decide (messages = [])) as [|_]; [done|].
      destruct messages as [|m0 rest] using rev_ind; [done|].
      rewrite sliceButLast_snoc, lastMessageContent_snoc, fmap_app. simpl.
      f_equal. rewrite <- list_fmap_compose. apply list_fmap_ext.
      intros ? m _. apply Hf.
    - intros ->. done. }
  assert (Hlookup :
    forall (f : AIMessage -> string * string) i m,
      messages !! i = Some m -> (S i < length messages)%nat ->
      (f <$> sliceButLast messages) !! i = Some (f m)).
  { intros f i m Hm Hi. rewrite list_lookup_fmap. unfold sliceButLast.
    rewrite lookup_take_lt by lia. by rewrite Hm. }
  unfold buildRequest.
  destruct Hclass as [Hc | Hc]; rewrite Hc; simpl.
  - eexists _, _, _. split; [reflexivity|].
    split; [apply strOr_nonempty; done|].
    destruct (Hcover (fun m => (if decide (role m = assistant) then "model" else "user",
                                aiContent m)) (fun _ => eq_refl)) as [H1 H2].
    split; [exact H1|]. split; [exact H2|].
    intros i m Hm Hi. eexists. split; [|split].
    + rewrite (Hlookup _ i m Hm Hi). reflexivity.
    + intros Hr. by rewrite decide_True.
    + intros Hr. by rewrite decide_False.
  - eexists _, _, _. split; [reflexivity|].
    split; [apply strOr_nonempty; done|].
    destruct (Hcover (fun m => (if decide (role m = assistant) then "CHATBOT" else "USER",
                                aiContent m)) (fun _ => eq_refl)) as [H1 H2].
    split; [exact H1|]. split; [exact H2|].
    intros i m Hm Hi. eexists. split; [|split].
    + rewrite (Hlookup _ i m Hm Hi). reflexivity.
    + intros Hr. by rewrite decide_True.
    + intros Hr. by rewrite decide_False.
Qed.


(** ** What a call does to the pool *)

Lemma writeUsedToday_lookup_same i n s c :
  providerConfigs s !! i = Some c ->
  providerConfigs (writeUsedToday i n s) !! i = Some (setUsedToday n c).
Proof. intros H. simpl. by rewrite list_lookup_alter_eq, H. Qed.

Lemma writeUsedToday_lookup_other i j n s :
  i <> j ->
  providerConfigs (writeUsedToday i n s) !! j = providerConfigs s !! j.
Proof. intros. simpl. by rewrite list_lookup_alter_ne. Qed.

Lemma marksOnly_start s : marksOnly s [] s.
Proof.
  split; [done|]. split; [done|]. split.
  - intros a Ha. by apply elem_of_nil in Ha.
  - intros j c Hc. rewrite decide_False; [done|]. simpl. by intros ?%elem_of_nil.
Qed.

(** A config the loop selects has not been tried before in the call:
    it is the config the call started with. *)
Lemma marksOnly_selected s0 log s i config provider :
  marksOnly s0 log s ->
  getAvailableProvider s = Some (i, config, provider) ->
  providerConfigs s0 !! i = Some config /\
  (i ∉ attemptConfig <$> log) /\
  usedToday config < dailyLimit config /\
  providers s0 !! id config = Some provider.
Proof.
  intros (Hp & Hlen & Hlog & Hcfg) Hsel.
  apply getAvailableProvider_Some in Hsel as (Hi & Hlt & Hprov).
  assert (exists c0, providerConfigs s0 !! i = Some c0) as [c0 Hc0].
  { apply lookup_lt_is_Some_2. rewrite <- Hlen. by apply lookup_lt_Some in Hi. }
  specialize (Hcfg _ _ Hc0). rewrite Hi in Hcfg.
  destruct (decide (i ∈ attemptConfig <$> log)) as [Hin|Hnin].
  - injection Hcfg as ->. simpl in Hlt. lia.
  - injection Hcfg as ->. rewrite <- Hp. done.
Qed.

Lemma marksOnly_failure s0 log s i config provider attempt e :
  marksOnly s0 log s ->
  getAvailableProvider s = Some (i, config, provider) ->
  marksOnly s0 (log ++ [mkAttempt attempt i (Some e)])
            (writeUsedToday i (dailyLimit config) s).
Proof.
  intros Hinv Hsel.
  destruct (marksOnly_selected _ _ _ _ _ _ Hinv Hsel) as (Hc0 & Hnin & Hlt & _).
  destruct Hinv as (Hp & Hlen & Hlog & Hcfg).
  split; [done|]. split; [by simpl; rewrite length_alter|]. split.
  - intros a [Ha| ->%list_elem_of_singleton]%elem_of_app; [by apply Hlog|].
    split; [by eexists|]. simpl. by exists config.
  - intros j c Hc. rewrite fmap_app. simpl.
    destruct (decide (i = j)) as [<-|Hne].
    + rewrite list_lookup_alter_eq.
      specialize (Hcfg _ _ Hc0). rewrite decide_False in Hcfg by done.
      rewrite Hcfg. simpl.
      rewrite decide_True by (apply elem_of_app; right; by apply list_elem_of_singleton).
      rewrite Hc0 in Hc. by injection Hc as <-.
    + rewrite list_lookup_alter_ne by done.
      rewrite (Hcfg _ _ Hc).
      destruct (decide (j ∈ attemptConfig <$> log)) as [Hin|Hnj].
      * by rewrite decide_True by (apply elem_of_app; by left).
      * rewrite decide_False; [done|].
        intros [?| ?%list_elem_of_singleton]%elem_of_app; [done|]. by subst.
Qed.

(** What the loop has done to the pool when it ends, and how what it
    returns relates to its attempts. *)
Lemma retryLoop_touches s0 b fuel attempt lastError log s :
  marksOnly s0 log s ->
  let o := retryLoop b fuel attempt lastError log s in
  providers (service o) = providers s0 /\
  (forall a, a ∈ attempts o ->
             exists c, providerConfigs s0 !! attemptConfig a = Some c /\
                       usedToday c < dailyLimit c) /\
  (forall j c,
      providerConfigs s0 !! j = Some c ->
      (~ attempted o j -> providerConfigs (service o) !! j = Some c) /\
      (forall a, a ∈ attempts o -> attemptConfig a = j -> failed a ->
                 providerConfigs (service o) !! j
                 = Some (setUsedToday (dailyLimit c) c)) /\
      (forall a, a ∈ attempts o -> attemptConfig a = j -> attemptError a = None ->
                 providerConfigs (service o) !! j
                 = Some (setUsedToday (usedToday c + 1) c))) /\
  match returned o with
  | inl r =>
      exists a c p,
        last (attempts o) = Some a /\ attemptError a = None /\
        providerConfigs s0 !! attemptConfig a = Some c /\
        providers s0 !! id c = Some p /\
        resultProviderId r = providerId p /\
        resultProviderType r = providerClass p
  | inr _ => forall a, a ∈ attempts o -> failed a
  end.
Proof.
  revert attempt lastError log s.
  assert (Hstop : forall log s,
             marksOnly s0 log s ->
             (forall a, a ∈ log ->
                        exists c, providerConfigs s0 !! attemptConfig a = Some c /\
                                  usedToday c < dailyLimit c) /\
             (forall j c,
                 providerConfigs s0 !! j = Some c ->
                 (~ (exists a, a ∈ log /\ attemptConfig a = j) ->
                  providerConfigs s !! j = Some c) /\
                 (forall a, a ∈ log -> attemptConfig a = j -> failed a ->
                            providerConfigs s !! j
                            = Some (setUsedToday (dailyLimit c) c)) /\
                 (forall a, a ∈ log -> attemptConfig a = j -> attemptError a = None ->
                            providerConfigs s !! j
                            = Some (setUsedToday (usedToday c + 1) c))) /\
             (forall a, a ∈ log -> failed a)).
  { intros log s (Hp & Hlen & Hlog & Hcfg). split; [|split].
    - intros a Ha. by apply Hlog.
    - intros j c Hc. rewrite (Hcfg _ _ Hc). split; [|split].
      + intros Hnot. rewrite decide_False; [done|].
        intros (a & -> & Ha)%list_elem_of_fmap. apply Hnot. by exists a.
      + intros a Ha <- _. rewrite decide_True; [done|].
        apply list_elem_of_fmap. by exists a.
      + intros a Ha _ Hnone. destruct (Hlog a Ha) as [[e He] _]. congruence.
    - intros a Ha. by apply Hlog. }
  induction fuel as [|fuel IH]; intros attempt lastError log s Hinv; simpl.
  - destruct (Hstop log s Hinv) as (H1 & H2 & H3). destruct Hinv as (Hp & _).
    done.
  - destruct (getAvailableProvider s) as [[[i config] provider]|] eqn:Hsel.
    + destruct (generate b attempt provider) as [result|e] eqn:Hgen.
      * destruct (marksOnly_selected _ _ _ _ _ _ Hinv Hsel) as (Hc0 & Hnin & Hlt & Hprov).
        destruct (Hstop log s Hinv) as (H1 & H2 & H3).
        destruct Hinv as (Hp & Hlen & Hlog & Hcfg). simpl.
        split; [done|]. split; [|split].
        -- intros a [Ha| ->%list_elem_of_singleton]%elem_of_app; [by apply H1|].
           simpl. by exists config.
        -- intros j c Hc. split; [|split].
           ++ intros Hnot.
              assert (i <> j) as Hne.
              { intros <-. apply Hnot. eexists. split.
                - apply elem_of_app. right. by apply list_elem_of_singleton.
                - done. }
              rewrite list_lookup_alter_ne by done.
              apply (H2 _ _ Hc). intros (a & Ha & Haj). apply Hnot.
              exists a. split; [apply elem_of_app; by left|done].
           ++ intros a [Ha| ->%list_elem_of_singleton]%elem_of_app Haj Hf.
              ** assert (i <> j) as Hne.
                 { intros <-. apply Hnin. apply list_elem_of_fmap. by exists a. }
                 rewrite list_lookup_alter_ne by done.
                 by apply (H2 _ _ Hc) with a.
              ** destruct Hf as [? Hf]. simpl in Hf. done.
           ++ intros a [Ha| ->%list_elem_of_singleton]%elem_of_app Haj Hnone.
              ** destruct (H3 a Ha) as [? He]. congruence.
              ** simpl in Haj. subst j. rewrite list_lookup_alter_eq.
                 specialize (Hcfg _ _ Hc0). rewrite decide_False in Hcfg by done.
                 rewrite Hcfg. simpl. rewrite Hc0 in Hc. by injection Hc as <-.
        -- exists (mkAttempt attempt i None), config, provider.
           rewrite last_snoc. simpl. repeat split; try done.
           ++ unfold generate in Hgen.
              destruct (b attempt provider); [|done]. by injection Hgen as <-.
           ++ unfold generate in Hgen.
              destruct (b attempt provider); [|done]. by injection Hgen as <-.
      * apply IH. by apply marksOnly_failure with provider.
    + destruct (Hstop log s Hinv) as (H1 & H2 & H3). destruct Hinv as (Hp & _).
      done.
Qed.


(** ** Providers that are out stay out *)

Lemma generateResponse_exhausted b s j c :
  providerConfigs s !! j = Some c ->
  dailyLimit c <= usedToday c ->
  providerConfigs (service (generateResponse b s)) !! j = Some c /\
  ~ attempted (generateResponse b s) j.
Proof.
  intros Hc Hout.
  destruct (retryLoop_touches s b maxRetries 0%nat None [] s (marksOnly_start s))
    as (_ & Htried & Hcfg & _).
  assert (~ attempted (generateResponse b s) j) as Hnot.
  { intros (a & Ha & Haj). destruct (Htried a Ha) as (c' & Hc' & Hlt).
    rewrite Haj, Hc in Hc'. injection Hc' as <-. lia. }
  split; [|done]. by apply (Hcfg _ _ Hc).
Qed.

(** X5.  A config that is at or over its limit stays out of every later
    call: through any sequence of [generateResponse] calls no attempt
    is made on it and its counter is not touched (only a reload of the
    pool brings it back). *)
Theorem exhausted_provider_stays_out
        (backends : list Backend) (s : AIService) (j : nat) (c : AIProviderConfig) :
  providerConfigs s !! j = Some c ->
  dailyLimit c <= usedToday c ->
  Forall (fun o => ~ attempted o j) (generateResponses backends s).1 /\
  providerConfigs (generateResponses backends s).2 !! j = Some c.
Proof.
  revert s. induction backends as [|b rest IH]; intros s Hc Hout; simpl.
  - split; [constructor|done].
  - destruct (generateResponse_exhausted b s j c Hc Hout) as [Hc' Hnot].
    specialize (IH _ Hc' Hout).
    destruct (generateResponses rest (service (generateResponse b s))) as [os s'].
    simpl in *. destruct IH as [IH1 IH2]. split; [by constructor|done].
Qed.

(** ** Which error a failing call surfaces *)

Lemma retryLoop_error b fuel attempt lastError log s e :
  lastError = last log ≫= attemptError ->
  (forall a, a ∈ log -> failed a) ->
  (0 < length log + fuel)%nat ->
  returned (retryLoop b fuel attempt lastError log s) = inr e ->
  e = allExhaustedMessage \/
  (length (attempts (retryLoop b fuel attempt lastError log s))
   = (length log + fuel)%nat /\
   exists a, last (attempts (retryLoop b fuel attempt lastError log s)) = Some a /\
             attemptError a = Some e).
Proof.
  revert attempt lastError log s.
  induction fuel as [|fuel IH]; intros attempt lastError log s Hlast Hfailed Hpos; simpl.
  - intros Hret. right. split; [lia|].
    destruct (last log) as [a|] eqn:Ha.
    + exists a. split; [done|]. simpl in Hlast.
      destruct (Hfailed a) as [e' He'].
      { apply last_Some in Ha as [l' ->]. apply elem_of_app. right.
        by apply list_elem_of_singleton. }
      rewrite He' in Hlast. subst lastError. injection Hret as <-. done.
    + apply last_None in Ha. subst log. simpl in Hpos. lia.
  - destruct (getAvailableProvider s) as [[[i config] provider]|].
    + destruct (generate b attempt provider) as [result|e'].
      * simpl. done.
      * intros Hret.
        destruct (IH (S attempt) (Some e') (log ++ [mkAttempt attempt i (Some e')])
                     (writeUsedToday i (dailyLimit config) s)) as [Hall|[Hlen Ha]].
        -- by rewrite last_snoc.
        -- intros a [Ha| ->%list_elem_of_singleton]%elem_of_app; [by apply Hfailed|].
           by eexists.
        -- rewrite length_app. simpl. lia.
        -- done.
        -- by left.
        -- right. split; [|done]. rewrite Hlen, length_app. simpl. lia.
    + simpl. intros [= <-]. by left.
Qed.

(** X6.  When [generateResponse] fails, the error is the one
    [buildSystemPrompt] threw (then no provider was tried and the pool
    is as it was), or the all-exhausted error (some iteration found no
    provider to select), or the error the provider of the third
    attempt threw; the fallback error 'AI generation failed' of line
    368 is never what the method itself produces. *)
Theorem failing_call_surfaces_exhaustion_or_the_last_error
        (promptError : option Error) (backend : Backend) (s : AIService)
        (e : Error) :
  returned (generateResponseFrom promptError backend s) = inr e ->
  (promptError = Some e /\
   attempts (generateResponseFrom promptError backend s) = [] /\
   service (generateResponseFrom promptError backend s) = s) \/
  (promptError = None /\
   (e = allExhaustedMessage \/
    (length (attempts (generateResponseFrom promptError backend s)) = maxRetries /\
     exists a,
       last (attempts (generateResponseFrom promptError backend s)) = Some a /\
       attemptError a = Some e))).
Proof.
  destruct promptError as [e0|]; simpl.
  - intros [= <-]. by left.
  - intros Hret. right. split; [done|].
    apply (retryLoop_error backend maxRetries 0%nat None [] s e); try done.
    + intros a Ha. by apply elem_of_nil in Ha.
    + simpl. unfold maxRetries. lia.
Qed.

(** ** Provider errors hidden behind the exhaustion error *)







(** ** The table and the pool *)

#[local] Instance priorityDesc_transitive : Transitive priorityDesc.
Proof. intros a b c. unfold priorityDesc. lia. Qed.

#[local] Instance priorityDesc_total : Total priorityDesc.
Proof. intros a b. unfold priorityDesc. lia. Qed.

Lemma findManyActive_sorted db : rowsByPriorityDesc (findManyActive db).
Proof. apply (StronglySorted_merge_sort priorityDesc). Qed.

Lemma findManyActive_elem db row :
  row ∈ findManyActive db <->
  exists r, r ∈ aIProvider db /\ isActive r = true /\ row = columns r.
Proof.
  unfold findManyActive. rewrite merge_sort_Permutation, list_elem_of_fmap.
  split.
  - intros (r & -> & Hr). apply list_elem_of_filter in Hr as [? ?]. by exists r.
  - intros (r & ? & ? & ->). exists r. split; [done|]. by apply list_elem_of_filter.
Qed.

Lemma unique_record db r r' :
  uniqueIds db -> r ∈ aIProvider db -> r' ∈ aIProvider db ->
  recordId r = recordId r' -> r = r'.
Proof.
  unfold uniqueIds. intros Hu Hr Hr' Hid.
  apply list_elem_of_lookup in Hr as [i Hi].
  apply list_elem_of_lookup in Hr' as [j Hj].
  assert (i = j) as ->.
  { apply (NoDup_lookup _ i j (recordId r) Hu); rewrite list_lookup_fmap.
    - by rewrite Hi.
    - by rewrite Hj, Hid. }
  congruence.
Qed.

Lemma loadProviders_ids rows :
  id <$> providerConfigs (loadProviders rows) = row_id <$> rows.
Proof. by rewrite loadProviders_configs, <- list_fmap_compose. Qed.

Lemma findManyActive_ids db :
  uniqueIds db -> NoDup (row_id <$> findManyActive db).
Proof.
  intros Hu. unfold findManyActive.
  rewrite merge_sort_Permutation, <- list_fmap_compose.
  apply (sublist_NoDup _ (recordId <$> aIProvider db)); [done|].
  apply fmap_sublist, sublist_filter.
Qed.

Lemma load_inStep db :
  uniqueIds db -> nonNegative db ->
  inStep db (loadProviders (findManyActive db)).
Proof.
  intros Hu Hn. split; [done|]. split; [done|]. split.
  - rewrite loadProviders_ids. by apply findManyActive_ids.
  - intros c r Hc Hr Hid. rewrite loadProviders_configs in Hc.
    apply list_elem_of_fmap in Hc as (row & -> & Hrow).
    apply findManyActive_elem in Hrow as (r0 & Hr0 & _ & ->).
    assert (r = r0) as -> by (by apply (unique_record db)).
    simpl. split; [|lia].
    unfold nonNegative in Hn. rewrite Forall_forall in Hn. by apply Hn.
Qed.

(** ** The daily reset *)

Lemma resetDailyUsageIfNeeded_unfold w db s :
  resetDailyUsageIfNeeded w db s =
  if staleQueryOk w then
    if bool_decide (0 < length (staleRecords (resetToday w) db))%nat then
      if updateManyOk w then
        (afterReset w db, (loadProvidersFrom (reloadOk w) (afterReset w db) s).1,
         (loadProvidersFrom (reloadOk w) (afterReset w db) s).2)
      else (db, s, Some prismaError)
    else (db, s, None)
  else (db, s, Some prismaError).
Proof.
  unfold resetDailyUsageIfNeeded, staleRecords, afterReset.
  destruct (staleQueryOk w); [|done].
  case_bool_decide; [|done].
  destruct (updateManyOk w); [|done].
  by destruct (loadProvidersFrom _ _ _).
Qed.

Lemma afterReset_elem w db r' :
  r' ∈ aIProvider (afterReset w db) ->
  exists r, r ∈ aIProvider db /\ recordId r' = recordId r /\
            isActive r' = isActive r /\
            ((r' = r /\ resetToday w <= lastResetAt r) \/
             r' = resetRecord (resetNow w) r).
Proof.
  unfold afterReset. simpl. intros (r & -> & Hr)%list_elem_of_fmap.
  exists r. split; [done|]. case_bool_decide as Hin.
  - split; [done|]. split; [done|]. by right.
  - split; [done|]. split; [done|]. left. split; [done|].
    apply Z.le_ngt. intros Hlt. apply Hin.
    apply list_elem_of_fmap. exists r. split; [done|].
    by apply list_elem_of_filter.
Qed.

Lemma afterReset_ids w db :
  recordId <$> aIProvider (afterReset w db) = recordId <$> aIProvider db.
Proof.
  unfold afterReset. simpl. rewrite <- list_fmap_compose.
  apply list_fmap_ext. intros ? r _. simpl. by case_bool_decide.
Qed.

Lemma afterReset_uniqueIds w db : uniqueIds db -> uniqueIds (afterReset w db).
Proof. unfold uniqueIds. by rewrite afterReset_ids. Qed.

Lemma afterReset_nonNegative w db : nonNegative db -> nonNegative (afterReset w db).
Proof.
  unfold nonNegative. rewrite !Forall_forall. intros Hn r' Hr'.
  apply afterReset_elem in Hr' as (r & Hr & _ & _ & [[-> _]| ->]); [by apply Hn|].
  simpl. lia.
Qed.

Lemma afterReset_resetSince w db :
  resetToday w <= resetNow w -> resetSince (resetToday w) (afterReset w db).
Proof.
  intros Hclock. unfold resetSince. rewrite Forall_forall. intros r' Hr'.
  apply afterReset_elem in Hr' as (r & Hr & _ & _ & [[-> ?]| ->]); [done|].
  done.
Qed.

Lemma afterReset_exact w db :
  uniqueIds db ->
  aIProvider (afterReset w db)
  = (fun r => if bool_decide (lastResetAt r < resetToday w)
              then resetRecord (resetNow w) r else r) <$> aIProvider db.
Proof.
  intros Hu. unfold afterReset. simpl. apply list_fmap_ext. intros ? r Hr.
  apply list_elem_of_lookup_2 in Hr.
  case_bool_decide as Hin; case_bool_decide as Hst; try done.
  - apply list_elem_of_fmap in Hin as (r0 & Hid & Hr0).
    apply list_elem_of_filter in Hr0 as [Hst0 Hr0].
    assert (r = r0) as -> by (by apply (unique_record db)). done.
  - exfalso. apply Hin. apply list_elem_of_fmap. exists r. split; [done|].
    by apply list_elem_of_filter.
Qed.

Lemma staleRecords_none today db :
  resetSince today db -> staleRecords today db = [].
Proof.
  unfold resetSince, staleRecords. intros Hs.
  induction Hs as [|r l Hr _ IH]; [done|].
  rewrite filter_cons_False by lia. done.
Qed.

Lemma resetSince_of_none today db :
  ~ (0 < length (staleRecords today db))%nat -> resetSince today db.
Proof.
  intros Hlen. unfold resetSince. apply Forall_forall. intros r Hr.
  apply Z.le_ngt. intros Hlt. apply Hlen.
  assert (r ∈ staleRecords today db) as Hin by (by apply list_elem_of_filter).
  destruct (staleRecords today db); [by apply elem_of_nil in Hin|]. simpl. lia.
Qed.

Lemma resetSince_mono today today' db :
  today' <= today -> resetSince today db -> resetSince today' db.
Proof.
  unfold resetSince. rewrite !Forall_forall. intros Hle Hs r Hr.
  specialize (Hs r Hr). lia.
Qed.

(** X8.  The daily reset happens once a day.  When the two database
    calls of [resetDailyUsageIfNeeded] succeed and the day started no
    later than the clock reading, the table afterwards holds no record
    that was last reset before that day: the records that were stale
    have [usedToday = 0] and [lastResetAt = now], the others are
    untouched.  A later check on the same day (or with an earlier start
    of day) then finds nothing to reset and changes neither the table
    nor the pool, whether or not its own query succeeds. *)
Theorem daily_reset_happens_once_a_day
        (w w2 : ResetWorld) (db : Database) (s : AIService) :
  uniqueIds db ->
  resetToday w <= resetNow w ->
  staleQueryOk w = true -> updateManyOk w = true ->
  resetToday w2 <= resetToday w ->
  let out := resetDailyUsageIfNeeded w db s in
  aIProvider out.1.1
  = (fun r => if bool_decide (lastResetAt r < resetToday w)
              then resetRecord (resetNow w) r else r) <$> aIProvider db /\
  aIUsageLog out.1.1 = aIUsageLog db /\
  resetSince (resetToday w) out.1.1 /\
  (resetDailyUsageIfNeeded w2 out.1.1 out.1.2).1 = out.1.
Proof.
  intros Hu Hclock Hq Hupd Hsame out. subst out.
  rewrite (resetDailyUsageIfNeeded_unfold w). rewrite Hq, Hupd.
  assert (Hquiet : forall db1 s1, resetSince (resetToday w) db1 ->
                     (resetDailyUsageIfNeeded w2 db1 s1).1 = (db1, s1)).
  { intros db1 s1 Hs. rewrite resetDailyUsageIfNeeded_unfold.
    rewrite (staleRecords_none (resetToday w2) db1)
      by (by apply (resetSince_mono (resetToday w))).
    simpl. by destruct (staleQueryOk w2). }
  case_bool_decide as Hstale; simpl.
  - split; [by apply afterReset_exact|]. split; [done|].
    split; [by apply afterReset_resetSince|].
    apply Hquiet. by apply afterReset_resetSince.
  - pose proof (resetSince_of_none _ _ Hstale) as Hs.
    split; [|split; [done|split; [done|by apply Hquiet]]].
    rewrite <- (list_fmap_id (aIProvider db)) at 1.
    apply list_fmap_ext. intros ? r Hr. apply list_elem_of_lookup_2 in Hr.
    unfold resetSince in Hs. rewrite Forall_forall in Hs. specialize (Hs r Hr).
    simpl. rewrite bool_decide_eq_false_2 by lia. done.
Qed.

(** ** Initialization *)

Lemma initialize_success loadOk w db s0 db1 s1 :
  initialize loadOk w db s0 = (db1, s1, None) ->
  s1 = loadProviders (findManyActive db1) /\
  ((db1 = db /\ resetSince (resetToday w) db) \/ db1 = afterReset w db).
Proof.
  unfold initialize, loadProvidersFrom. destruct loadOk; [|done].
  rewrite resetDailyUsageIfNeeded_unfold.
  destruct (staleQueryOk w); [|done].
  case_bool_decide as Hstale.
  - destruct (updateManyOk w); [|done].
    unfold loadProvidersFrom. destruct (reloadOk w); [|done].
    simpl. intros [= <- <-]. split; [done|]. by right.
  - intros [= <- <-]. split; [done|]. left. split; [done|].
    by apply resetSince_of_none.
Qed.

(** X9.  When [initialize] succeeds the pool is the table's active
    records in the order of their priority: every config comes from an
    active record and every active record has its config, each with a
    provider registered under its id and the configs sorted on
    priority, descending; so the first selection takes a config of the
    highest priority among those below their limit.  No record of the
    table is left with a reset that predates the day (for a clock
    reading that is not before the start of its day). *)
Theorem initialize_loads_the_active_records_by_priority
        (loadOk : bool) (w : ResetWorld) (db db1 : Database) (s0 s1 : AIService) :
  initialize loadOk w db s0 = (db1, s1, None) ->
  wellFormed s1 /\
  (forall c, c ∈ providerConfigs s1 <->
             exists r, r ∈ aIProvider db1 /\ isActive r = true /\
                       c = configOfRow (columns r)) /\
  (resetToday w <= resetNow w -> resetSince (resetToday w) db1) /\
  match getAvailableProvider s1 with
  | Some (i, config, provider) =>
      providerId provider = id config /\
      forall c', c' ∈ providerConfigs s1 -> usedToday c' < dailyLimit c' ->
                 priority c' <= priority config
  | None => forall c', c' ∈ providerConfigs s1 -> dailyLimit c' <= usedToday c'
  end.
Proof.
  intros Hinit. apply initialize_success in Hinit as [-> Hdb].
  assert (wellFormed (loadProviders (findManyActive db1))) as Hwf.
  { apply loadProviders_wellFormed, findManyActive_sorted. }
  split; [done|]. split; [|split].
  - intros c. rewrite loadProviders_configs, list_elem_of_fmap. split.
    + intros (row & -> & Hrow). apply findManyActive_elem in Hrow as (r & ? & ? & ->).
      by exists r.
    + intros (r & Hr & Ha & ->). exists (columns r). split; [done|].
      apply findManyActive_elem. by exists r.
  - intros Hclock. destruct Hdb as [[-> Hs]| ->]; [done|].
    by apply afterReset_resetSince.
  - pose proof (selection_rule _ Hwf) as Hsel.
    destruct (getAvailableProvider (loadProviders (findManyActive db1)))
      as [[[i config] provider]|]; [|done].
    destruct Hsel as (_ & ? & _ & ?). done.
Qed.

(** ** Usage records *)

Lemma recordUsage_elem ok pid res db r' :
  r' ∈ aIProvider (recordUsage ok pid res db) ->
  exists r, r ∈ aIProvider db /\ recordId r' = recordId r /\
            (r' = r \/ (r' = incrementUsedToday r /\ recordId r = pid)).
Proof.
  unfold recordUsage.
  destruct (ok && bool_decide (pid ∈ recordId <$> aIProvider db)).
  - simpl. intros (r & -> & Hr)%list_elem_of_fmap. exists r. split; [done|].
    case_bool_decide; [|by split; [|left]].
    split; [done|]. by right.
  - intros Hr'. exists r'. split; [done|]. split; [done|]. by left.
Qed.

Lemma recordUsage_ids ok pid res db :
  recordId <$> aIProvider (recordUsage ok pid res db) = recordId <$> aIProvider db.
Proof.
  unfold recordUsage.
  destruct (ok && bool_decide (pid ∈ recordId <$> aIProvider db)); [|done].
  simpl. rewrite <- list_fmap_compose.
  apply list_fmap_ext. intros ? r _. simpl. by case_bool_decide.
Qed.

Lemma recordUsage_nonNegative ok pid res db :
  nonNegative db -> nonNegative (recordUsage ok pid res db).
Proof.
  unfold nonNegative. rewrite !Forall_forall. intros Hn r' Hr'.
  apply recordUsage_elem in Hr' as (r & Hr & _ & [->|[-> _]]); [by apply Hn|].
  simpl. specialize (Hn r Hr). lia.
Qed.

Lemma retryLoopRecording_spec s0 b usageOk fuel attempt lastError log db s :
  marksOnly s0 log s ->
  let out := retryLoopRecording b usageOk fuel attempt lastError log db s in
  out.1 = retryLoop b fuel attempt lastError log s /\
  match returned out.1 with
  | inl r =>
      exists a c,
        last (attempts out.1) = Some a /\
        providerConfigs s0 !! attemptConfig a = Some c /\
        out.2 = recordUsage usageOk (id c) r db
  | inr _ => out.2 = db
  end.
Proof.
  revert attempt lastError log s.
  induction fuel as [|fuel IH]; intros attempt lastError log s Hinv; simpl; [done|].
  destruct (getAvailableProvider s) as [[[i config] provider]|] eqn:Hsel; [|done].
  destruct (generate b attempt provider) as [result|e] eqn:Hgen.
  - simpl. split; [done|].
    destruct (marksOnly_selected _ _ _ _ _ _ Hinv Hsel) as (Hc0 & _).
    exists (mkAttempt attempt i None), config. by rewrite last_snoc.
  - apply IH. by apply marksOnly_failure with provider.
Qed.

(** X10.  Recording the usage is best effort and never shapes the
    reply: with the database in view [generateResponse] returns what
    it returns without it, with the same attempts and the same pool,
    whether or not the usage transaction succeeds.  The table is
    written only by a call that returns a result, and then only by the
    one transaction for the config that answered; a failing call, and
    every failed attempt, leaves the table and the usage log as they
    were.  At most one log row is added per call and it is a row with
    [success = true]. *)
Theorem usage_recording_never_shapes_the_reply
        (backend : Backend) (usageOk : bool) (db : Database) (s : AIService) :
  let out := generateResponseRecording backend usageOk db s in
  out.1 = generateResponse backend s /\
  match returned out.1 with
  | inl r =>
      exists a c,
        last (attempts out.1) = Some a /\
        providerConfigs s !! attemptConfig a = Some c /\
        out.2 = recordUsage usageOk (id c) r db
  | inr _ => out.2 = db
  end /\
  (exists new, aIUsageLog out.2 = aIUsageLog db ++ new /\
               (length new <= 1)%nat /\
               Forall (fun l => logSuccess l = true) new) /\
  recordId <$> aIProvider out.2 = recordId <$> aIProvider db.
Proof.
  intros out.
  destruct (retryLoopRecording_spec s backend usageOk maxRetries 0%nat None [] db s
              (marksOnly_start s)) as [H1 H2].
  fold (generateResponseRecording backend usageOk db s) in H1, H2.
  fold out in H1, H2. split; [done|]. split; [done|].
  destruct (returned out.1) as [r|e].
  - destruct H2 as (a & c & _ & _ & ->). split; [|apply recordUsage_ids].
    unfold recordUsage.
    destruct (usageOk && bool_decide (id c ∈ recordId <$> aIProvider db)).
    + eexists. split; [reflexivity|]. split; [simpl; lia|].
      by repeat constructor.
    + exists []. rewrite app_nil_r. split; [done|]. split; [simpl; lia|constructor].
  - rewrite H2. split; [|done]. exists []. rewrite app_nil_r.
    split; [done|]. split; [simpl; lia|constructor].
Qed.

(** ** Memory is never behind the table *)

Lemma retryLoop_ids b fuel attempt lastError log s :
  id <$> providerConfigs (service (retryLoop b fuel attempt lastError log s))
  = id <$> providerConfigs s.
Proof.
  revert attempt lastError log s.
  assert (Hw : forall i n s, id <$> providerConfigs (writeUsedToday i n s)
                             = id <$> providerConfigs s).
  { intros i n s. simpl.
    rewrite (list_fmap_alter id (setUsedToday n) (fun x => x)).
    - by apply list_alter_id.
    - by apply Forall_forall. }
  induction fuel as [|fuel IH]; intros attempt lastError log s; simpl; [done|].
  destruct (getAvailableProvider s) as [[[i config] provider]|]; [|done].
  destruct (generate b attempt provider) as [result|e].
  - simpl service. apply Hw.
  - rewrite IH. apply Hw.
Qed.

Lemma generate_inStep b usageOk db s :
  inStep db s ->
  inStep (generateResponseRecording b usageOk db s).2
         (service (generateResponseRecording b usageOk db s).1).
Proof.
  intros (Hu & Hn & Hnd & Hnb).
  destruct (retryLoopRecording_spec s b usageOk maxRetries 0%nat None [] db s
              (marksOnly_start s)) as [H1 H2].
  fold (generateResponseRecording b usageOk db s) in H1, H2.
  destruct (retryLoop_touches s b maxRetries 0%nat None [] s (marksOnly_start s))
    as (_ & Htried & Hcfg & Hret).
  fold (generateResponse b s) in H1, Htried, Hcfg, Hret.
  set (out := generateResponseRecording b usageOk db s) in *.
  rewrite H1 in *. set (o := generateResponse b s) in *.
  assert (Hids : id <$> providerConfigs (service o) = id <$> providerConfigs s)
    by apply retryLoop_ids.
  assert (Hdb : forall r', r' ∈ aIProvider out.2 ->
            exists r, r ∈ aIProvider db /\ recordId r' = recordId r /\
              (r' = r \/
               (r' = incrementUsedToday r /\
                exists rs a c, returned o = inl rs /\ last (attempts o) = Some a /\
                               attemptError a = None /\
                               providerConfigs s !! attemptConfig a = Some c /\
                               recordId r = id c))).
  { intros r' Hr'. destruct (returned o) as [rs|e] eqn:Hro.
    - destruct H2 as (a & c & Hlast & Hc & Hout). rewrite Hout in Hr'.
      apply recordUsage_elem in Hr' as (r & Hr & Hid & [->|[-> Hpid]]).
      + exists r. split; [done|]. split; [done|]. by left.
      + exists r. split; [done|]. split; [done|]. right. split; [done|].
        destruct Hret as (a' & c' & p' & Hlast' & Hnone & Hc' & _).
        rewrite Hlast in Hlast'. injection Hlast' as <-.
        exists rs, a, c. done.
    - rewrite H2 in Hr'. exists r'. split; [done|]. split; [done|]. by left. }
  split; [|split; [|split]].
  - unfold uniqueIds. destruct (returned o) as [rs|e].
    + destruct H2 as (a & c & _ & _ & ->). rewrite recordUsage_ids. done.
    + by rewrite H2.
  - destruct (returned o) as [rs|e].
    + destruct H2 as (a & c & _ & _ & ->). by apply recordUsage_nonNegative.
    + by rewrite H2.
  - by rewrite Hids.
  - intros c' r' Hc' Hr' Hid.
    apply list_elem_of_lookup in Hc' as [j Hj].
    assert (exists c, providerConfigs s !! j = Some c) as [c Hc].
    { apply lookup_lt_is_Some_2.
      apply (f_equal length) in Hids. rewrite !length_fmap in Hids.
      rewrite <- Hids. by apply lookup_lt_Some in Hj. }
    assert (id c' = id c) as Hidc.
    { apply (f_equal (fun l => l !! j)) in Hids.
      rewrite !list_lookup_fmap, Hj, Hc in Hids. simpl in Hids. congruence. }
    destruct (Hdb r' Hr') as (r & Hr & Hidr & Hrr).
    assert (0 <= row_usedToday (columns r) <= usedToday c) as Hold.
    { apply Hnb; [by eapply list_elem_of_lookup_2|done|congruence]. }
    destruct (Hcfg j c Hc) as (Hun & Hfail & Hok).
    assert (usedToday c <= usedToday c' /\
            (forall a, a ∈ attempts o -> attemptConfig a = j ->
                       attemptError a = None -> usedToday c' = usedToday c + 1))
      as [Hmono Hsucc].
    { destruct (decide (j ∈ attemptConfig <$> attempts o)) as [Hin|Hnin].
      - apply list_elem_of_fmap in Hin as (a & Haj & Ha).
        destruct (Htried a Ha) as (c0 & Hc0 & Hlt). rewrite <- Haj, Hc in Hc0.
        injection Hc0 as <-.
        destruct (attemptError a) as [e|] eqn:He.
        + rewrite (Hfail a Ha (eq_sym Haj)) in Hj by (by eexists).
          injection Hj as <-. simpl. split; [lia|].
          intros a' Ha' Haj' Hnone.
          rewrite (Hok a' Ha' Haj' Hnone) in Hfail.
          specialize (Hfail a Ha (eq_sym Haj)).
          assert (failed a) as Hf by (by eexists). specialize (Hfail Hf).
          injection Hfail as Heq. lia.
        + rewrite (Hok a Ha (eq_sym Haj) He) in Hj. injection Hj as <-.
          simpl. split; [lia|]. done.
      - rewrite Hun in Hj.
        + injection Hj as <-. split; [lia|].
          intros a Ha Haj _. exfalso. apply Hnin.
          apply list_elem_of_fmap. by exists a.
        + intros (a & Ha & Haj). apply Hnin. apply list_elem_of_fmap. by exists a. }
    destruct Hrr as [->|[-> (rs & a & cs & Hro & Hlast & Hnone & Hcs & Hrid)]].
    + lia.
    + simpl.
      assert (attemptConfig a = j) as Haj.
      { apply (NoDup_lookup (id <$> providerConfigs s) _ _ (id c) Hnd);
          rewrite list_lookup_fmap.
        - rewrite Hcs. simpl. congruence.
        - by rewrite Hc. }
      assert (a ∈ attempts o) as Ha.
      { apply last_Some in Hlast as [l' ->]. apply elem_of_app. right.
        by apply list_elem_of_singleton. }
      rewrite (Hsucc a Ha Haj Hnone). lia.
Qed.

Lemma notBehind_afterReset w db s :
  notBehind db s -> notBehind (afterReset w db) s.
Proof.
  intros Hnb c r' Hc Hr' Hid.
  apply afterReset_elem in Hr' as (r & Hr & Hidr & _ & Hrr).
  assert (0 <= row_usedToday (columns r) <= usedToday c) as Hold.
  { apply Hnb; [done|done|congruence]. }
  destruct Hrr as [[-> _]| ->]; [done|]. simpl. lia.
Qed.

Lemma poolStep_inStep st op : inStep st.1 st.2 -> inStep (poolStep st op).1 (poolStep st op).2.
Proof.
  destruct st as [db s]. simpl. intros Hinv.
  destruct op as [b usageOk|w|ok]; simpl.
  - pose proof (generate_inStep b usageOk db s Hinv) as H.
    by destruct (generateResponseRecording b usageOk db s) as [o db'].
  - rewrite resetDailyUsageIfNeeded_unfold.
    destruct (staleQueryOk w); [|done].
    case_bool_decide; [|done].
    destruct (updateManyOk w); [|done].
    destruct Hinv as (Hu & Hn & Hnd & Hnb).
    unfold loadProvidersFrom. destruct (reloadOk w); simpl.
    + apply load_inStep; [by apply afterReset_uniqueIds|by apply afterReset_nonNegative].
    + split; [by apply afterReset_uniqueIds|].
      split; [by apply afterReset_nonNegative|].
      split; [done|]. by apply notBehind_afterReset.
  - unfold reloadProviders, loadProvidersFrom. destruct ok; simpl; [|done].
    destruct Hinv as (Hu & Hn & _). by apply load_inStep.
Qed.

Lemma poolRun_inStep ops st :
  inStep st.1 st.2 -> inStep (poolRun ops st).1 (poolRun ops st).2.
Proof.
  revert st. induction ops as [|op ops IH]; intros st Hinv; [done|].
  simpl. apply IH. by apply poolStep_inStep.
Qed.

(** X11.  As long as the service is the only writer of the table
    and its operations run one after the other (no reset tick or
    reload happens while a call is awaiting its provider or the usage
    transaction), the counter a config holds in memory is never behind
    the counter the table holds for the same provider.  From a table
    with unique ids and no negative counter, after a successful
    [initialize] and through every such sequence of
    [generateResponse] calls, ticks of the hourly reset and
    [reloadProviders] calls, whatever the database does to each of
    them: for every config of the pool and every record of the table
    with its id, [0 <= usedToday] of the record [<= usedToday] of the
    config. *)
Theorem memory_counters_are_never_behind_the_table
        (loadOk : bool) (w : ResetWorld) (db db1 : Database) (s0 s1 : AIService)
        (ops : list PoolOp) :
  uniqueIds db -> nonNegative db ->
  initialize loadOk w db s0 = (db1, s1, None) ->
  let st := poolRun ops (db1, s1) in
  notBehind st.1 st.2 /\ uniqueIds st.1 /\ nonNegative st.1.
Proof.
  intros Hu Hn Hinit st.
  apply initialize_success in Hinit as [-> Hdb].
  assert (inStep db1 (loadProviders (findManyActive db1))) as Hinv.
  { destruct Hdb as [[-> _]| ->]; [by apply load_inStep|].
    apply load_inStep; [by apply afterReset_uniqueIds|by apply afterReset_nonNegative]. }
  destruct (poolRun_inStep ops (db1, loadProviders (findManyActive db1)) Hinv)
    as (H1 & H2 & _ & H4).
  done.
Qed.


(** ** The latest message *)

Lemma prepareMessages_last history :
  last (prepareMessages history) = last history.
Proof.
  unfold prepareMessages, sliceLast. rewrite copy_message_id.
  destruct (decide (length history <= 10)%nat) as [Hle|Hgt].
  - replace (length history - 10)%nat with 0%nat by lia. done.
  - rewrite <- (take_drop (length history - 10) history) at 3.
    rewrite last_app.
    destruct (last (drop (length history - 10) history)) eqn:Hlast; [done|].
    apply last_None in Hlast.
    apply (f_equal length) in Hlast. rewrite length_drop in Hlast.
    simpl in Hlast. lia.
Qed.

(** X25.  The latest message of the conversation is what every
    provider is asked last.  For a history whose last message is [m],
    the request built from [prepareMessages] ends with the text of [m],
    whatever the provider class and however long the history is: it is
    the prompt of Gemini and Cohere and the last message of Claude and
    Groq.  (Claude drops system messages, so there [m] must not be
    one.) *)
Theorem latest_message_is_asked_last
        (p : AIProvider) (systemPrompt : string)
        (history : list AIMessage) (m : AIMessage) :
  last history = Some m ->
  (providerClass p = CLAUDE -> role m <> system) ->
  lastText (buildRequest p systemPrompt (prepareMessages history))
  = Some (aiContent m).
Proof.
  intros Hlast Hrole. rewrite <- prepareMessages_last in Hlast.
  apply last_Some in Hlast as [older Hsplit]. rewrite Hsplit.
  unfold buildRequest. destruct (providerClass p); simpl.
  - rewrite filter_app, filter_cons_True by (by apply Hrole).
    rewrite filter_nil, fmap_app. simpl. by rewrite last_snoc.
  - by rewrite lastMessageContent_snoc.
  - rewrite fmap_app. simpl.
    change ((system, systemPrompt)
              :: ((fun m0 => (role m0, aiContent m0)) <$> older)
              ++ [(role m, aiContent m)])
      with (((system, systemPrompt)
               :: ((fun m0 => (role m0, aiContent m0)) <$> older))
              ++ [(role m, aiContent m)]).
    by rewrite last_snoc.
  - by rewrite lastMessageContent_snoc.
Qed.

(** ** Calls never reshape the pool *)

Lemma sameButUsed_refl c : sameButUsed c c.
Proof. repeat split; lia. Qed.

Lemma sameButUsed_trans c1 c2 c3 :
  sameButUsed c1 c2 -> sameButUsed c2 c3 -> sameButUsed c1 c3.
Proof.
  intros (? & ? & ? & ? & ? & ? & ?) (? & ? & ? & ? & ? & ? & ?).
  repeat split; try congruence. lia.
Qed.

Lemma generateResponse_shape b s :
  providers (service (generateResponse b s)) = providers s /\
  forall j c, providerConfigs s !! j = Some c ->
              exists c', providerConfigs (service (generateResponse b s)) !! j = Some c' /\
                         sameButUsed c c'.
Proof.
  destruct (retryLoop_touches s b maxRetries 0%nat None [] s (marksOnly_start s))
    as (Hp & Htried & Hcfg & _).
  fold (generateResponse b s) in Hp, Htried, Hcfg.
  split; [done|]. intros j c Hc.
  destruct (Hcfg j c Hc) as (Hun & Hfail & Hok).
  destruct (decide (j ∈ attemptConfig <$> attempts (generateResponse b s)))
    as [Hin|Hnin].
  - apply list_elem_of_fmap in Hin as (a & Haj & Ha).
    destruct (Htried a Ha) as (c0 & Hc0 & Hlt). rewrite <- Haj, Hc in Hc0.
    injection Hc0 as <-.
    destruct (attemptError a) as [e|] eqn:He.
    + eexists. split; [apply (Hfail a Ha (eq_sym Haj)); by eexists|].
      repeat split; simpl; lia.
    + eexists. split; [by apply (Hok a Ha (eq_sym Haj))|].
      repeat split; simpl; lia.
  - exists c. split; [|apply sameButUsed_refl]. apply Hun.
    intros (a & Ha & Haj). apply Hnin. apply list_elem_of_fmap. by exists a.
Qed.

(** X26.  Calls never reshape the pool.  Through any sequence of
    [generateResponse] calls that run one after the other the
    providers stay registered as they were, every config stays at its
    position with its id, type, key, model, daily limit and priority,
    and no [usedToday] counter goes down: only a reload from the table
    lowers a counter or changes what the pool consists of.  (Calls
    that overlap can lower a counter: one that fails after another has
    incremented sets it back to the limit.) *)
Theorem calls_never_reshape_the_pool
        (backends : list Backend) (s : AIService)
        (j : nat) (c : AIProviderConfig) :
  providerConfigs s !! j = Some c ->
  providers (generateResponses backends s).2 = providers s /\
  exists c', providerConfigs (generateResponses backends s).2 !! j = Some c' /\
             sameButUsed c c'.
Proof.
  revert s c. induction backends as [|b rest IH]; intros s c Hc; simpl.
  - split; [done|]. exists c. split; [done|apply sameButUsed_refl].
  - destruct (generateResponse_shape b s) as [Hp Hcfg].
    destruct (Hcfg j c Hc) as (c1 & Hc1 & Hsame1).
    destruct (IH _ _ Hc1) as (Hp2 & c2 & Hc2 & Hsame2).
    destruct (generateResponses rest (service (generateResponse b s))) as [os s'].
    simpl in *. split; [congruence|]. exists c2. split; [done|].
    by apply sameButUsed_trans with c1.
Qed.

End PoolFacts.

(** ** The statements above, on the scenario *)

Module PoolExamples.
Import AI AISpec PoolSpec PoolFacts.


Lemma scenarioTable_uniqueIds : uniqueIds scenarioTable.
Proof.
  unfold uniqueIds. apply (bool_decide_unpack _). vm_compute. exact I.
Qed.

Lemma scenarioTable_nonNegative : nonNegative scenarioTable.
Proof. unfold nonNegative, scenarioTable. simpl. repeat constructor; simpl; lia. Qed.

Lemma history_and_prompt_cover_the_conversation_witness :
  exists model history prompt,
    buildRequest geminiProvider salesPrompt (prepareMessages longConversation)
    = (if decide (providerClass geminiProvider = GEMINI)
       then GeminiRequest model salesPrompt history prompt
       else CohereRequest model prompt salesPrompt history) /\
    model <> "" /\
    (prepareMessages longConversation <> [] ->
     history.*2 ++ [prompt] = aiContent <$> prepareMessages longConversation) /\
    (prepareMessages longConversation = [] -> history = [] /\ prompt = "") /\
    (forall i m, prepareMessages longConversation !! i = Some m ->
                 (S i < length (prepareMessages longConversation))%nat ->
                 exists r, history !! i = Some (r, aiContent m) /\
                           (role m = assistant ->
                            r = if decide (providerClass geminiProvider = GEMINI)
                                then "model" else "CHATBOT") /\
                           (role m <> assistant ->
                            r = if decide (providerClass geminiProvider = GEMINI)
                                then "user" else "USER")).
Proof.
  apply (history_and_prompt_cover_the_conversation
           geminiProvider salesPrompt (prepareMessages longConversation)).
  left. reflexivity.
Defined.

Lemma exhausted_provider_stays_out_witness :
  Forall (fun o => ~ attempted o 0)
         (generateResponses [brokenBackend; echoBackend] firstUsedUp).1 /\
  providerConfigs (generateResponses [brokenBackend; echoBackend] firstUsedUp).2 !! 0%nat
  = Some (mkConfig "provider-30" CLAUDE "key-a" None 5 5 30).
Proof.
  apply (exhausted_provider_stays_out [brokenBackend; echoBackend] firstUsedUp 0
           (mkConfig "provider-30" CLAUDE "key-a" None 5 5 30)).
  - vm_compute. reflexivity.
  - simpl. lia.
Defined.

Lemma failing_call_surfaces_exhaustion_or_the_last_error_witness :
  ((@None Error = Some "service overloaded" /\
    attempts (generateResponseFrom None brokenBackend (loadProviders scenarioRows))
    = [] /\
    service (generateResponseFrom None brokenBackend (loadProviders scenarioRows))
    = loadProviders scenarioRows) \/
   (@None Error = None /\
    ("service overloaded" = allExhaustedMessage \/
     (length (attempts (generateResponseFrom None brokenBackend
                          (loadProviders scenarioRows)))
      = maxRetries /\
      exists a,
        last (attempts (generateResponseFrom None brokenBackend
                          (loadProviders scenarioRows)))
        = Some a /\
        attemptError a = Some "service overloaded"))))
  /\
  ((Some prismaError = Some prismaError /\
    attempts (generateResponseFrom (Some prismaError) echoBackend
                (loadProviders scenarioRows))
    = [] /\
    service (generateResponseFrom (Some prismaError) echoBackend
               (loadProviders scenarioRows))
    = loadProviders scenarioRows) \/
   (Some prismaError = None /\
    (prismaError = allExhaustedMessage \/
     (length (attempts (generateResponseFrom (Some prismaError) echoBackend
                          (loadProviders scenarioRows)))
      = maxRetries /\
      exists a,
        last (attempts (generateResponseFrom (Some prismaError) echoBackend
                          (loadProviders scenarioRows)))
        = Some a /\
        attemptError a = Some prismaError)))).
Proof.
  split.
  - apply (failing_call_surfaces_exhaustion_or_the_last_error
             None brokenBackend (loadProviders scenarioRows) "service overloaded").
    vm_compute. reflexivity.
  - apply (failing_call_surfaces_exhaustion_or_the_last_error
             (Some prismaError) echoBackend (loadProviders scenarioRows)
             prismaError).
    reflexivity.
Defined.


Lemma daily_reset_happens_once_a_day_witness :
  aIProvider (resetDailyUsageIfNeeded morning scenarioTable emptyPool).1.1
  = (fun r => if bool_decide (lastResetAt r < resetToday morning)
              then resetRecord (resetNow morning) r else r)
      <$> aIProvider scenarioTable /\
  aIUsageLog (resetDailyUsageIfNeeded morning scenarioTable emptyPool).1.1
  = aIUsageLog scenarioTable /\
  resetSince (resetToday morning)
             (resetDailyUsageIfNeeded morning scenarioTable emptyPool).1.1 /\
  (resetDailyUsageIfNeeded noon
     (resetDailyUsageIfNeeded morning scenarioTable emptyPool).1.1
     (resetDailyUsageIfNeeded morning scenarioTable emptyPool).1.2).1
  = (resetDailyUsageIfNeeded morning scenarioTable emptyPool).1.
Proof.
  apply (daily_reset_happens_once_a_day morning noon scenarioTable emptyPool).
  - apply scenarioTable_uniqueIds.
  - simpl. lia.
  - reflexivity.
  - reflexivity.
  - simpl. lia.
Defined.

Lemma scenarioTable_initialize :
  initialize true morning scenarioTable emptyPool
  = (afterReset morning scenarioTable,
     loadProviders (findManyActive (afterReset morning scenarioTable)), None).
Proof. vm_compute. reflexivity. Qed.

Lemma initialize_loads_the_active_records_by_priority_witness :
  wellFormed (loadProviders (findManyActive (afterReset morning scenarioTable))) /\
  (forall c,
      c ∈ providerConfigs (loadProviders (findManyActive (afterReset morning scenarioTable)))
      <-> exists r, r ∈ aIProvider (afterReset morning scenarioTable) /\
                    isActive r = true /\ c = configOfRow (columns r)) /\
  (resetToday morning <= resetNow morning ->
   resetSince (resetToday morning) (afterReset morning scenarioTable)) /\
  match getAvailableProvider
          (loadProviders (findManyActive (afterReset morning scenarioTable))) with
  | Some (i, config, provider) =>
      providerId provider = id config /\
      forall c',
        c' ∈ providerConfigs
               (loadProviders (findManyActive (afterReset morning scenarioTable))) ->
        usedToday c' < dailyLimit c' -> priority c' <= priority config
  | None =>
      forall c',
        c' ∈ providerConfigs
               (loadProviders (findManyActive (afterReset morning scenarioTable))) ->
        dailyLimit c' <= usedToday c'
  end.
Proof.
  apply (initialize_loads_the_active_records_by_priority
           true morning scenarioTable (afterReset morning scenarioTable)
           emptyPool
           (loadProviders (findManyActive (afterReset morning scenarioTable)))).
  apply scenarioTable_initialize.
Defined.

Lemma memory_counters_are_never_behind_the_table_witness :
  notBehind
    (poolRun busyMorning
       (afterReset morning scenarioTable,
        loadProviders (findManyActive (afterReset morning scenarioTable)))).1
    (poolRun busyMorning
       (afterReset morning scenarioTable,
        loadProviders (findManyActive (afterReset morning scenarioTable)))).2 /\
  uniqueIds
    (poolRun busyMorning
       (afterReset morning scenarioTable,
        loadProviders (findManyActive (afterReset morning scenarioTable)))).1 /\
  nonNegative
    (poolRun busyMorning
       (afterReset morning scenarioTable,
        loadProviders (findManyActive (afterReset morning scenarioTable)))).1.
Proof.
  apply (memory_counters_are_never_behind_the_table
           true morning scenarioTable (afterReset morning scenarioTable)
           emptyPool
           (loadProviders (findManyActive (afterReset morning scenarioTable)))
           busyMorning).
  - apply scenarioTable_uniqueIds.
  - apply scenarioTable_nonNegative.
  - apply scenarioTable_initialize.
Defined.

Lemma latest_message_is_asked_last_witness :
  lastText (buildRequest geminiProvider salesPrompt
                         (prepareMessages longConversation))
  = Some (aiContent (mkAIMessage assistant "The basic package is PKR 5000."
                                 1700000012000)).
Proof.
  apply (latest_message_is_asked_last
           geminiProvider salesPrompt longConversation
           (mkAIMessage assistant "The basic package is PKR 5000." 1700000012000)).
  - vm_compute. reflexivity.
  - intros _. discriminate.
Defined.

Lemma calls_never_reshape_the_pool_witness :
  providers (generateResponses [brokenBackend; echoBackend]
                               (loadProviders scenarioRows)).2
  = providers (loadProviders scenarioRows) /\
  exists c',
    providerConfigs (generateResponses [brokenBackend; echoBackend]
                                       (loadProviders scenarioRows)).2 !! 1%nat
    = Some c' /\
    sameButUsed (mkConfig "provider-20" GEMINI "key-b" None 5 0 20) c'.
Proof.
  apply (calls_never_reshape_the_pool
           [brokenBackend; echoBackend] (loadProviders scenarioRows) 1
           (mkConfig "provider-20" GEMINI "key-b" None 5 0 20)).
  vm_compute. reflexivity.
Defined.

End PoolExamples.

(* ===================================================================== *)
(** * Gateway: parsing, windows, shutdown, reconnection *)
(* ===================================================================== *)

Module GatewayFacts.
Import WhatsApp WhatsAppSpec SupervisorFacts GatewaySpec.

(** ** Strings *)

Lemma substring_all (x : string) : String.substring 0 (String.length x) x = x.
Proof. induction x as [|c x IH]; [done|]. simpl. by rewrite IH. Qed.

Lemma substring_append_skip (p x : string) :
  String.substring (String.length p) (String.length x) (String.append p x) = x.
Proof. induction p as [|c p IH]; simpl; [apply substring_all|done]. Qed.

Lemma append_substring (s : string) (i k : nat) :
  (i + k = String.length s)%nat ->
  s = String.append (String.substring 0 i s) (String.substring i k s).
Proof.
  revert i k. induction s as [|c s IH]; intros i k Hlen; simpl in *.
  - destruct i; [|lia]. simpl. assert (k = 0%nat) as -> by lia. done.
  - destruct i as [|i]; simpl.
    + destruct k as [|k]; [lia|]. simpl. f_equal.
      assert (k = String.length s) as -> by lia. by rewrite substring_all.
    + change (String c s = String c (String.append (String.substring 0 i s)
                                                   (String.substring i k s))).
      f_equal. apply IH. lia.
Qed.

Lemma length_append (p x : string) :
  String.length (String.append p x) = (String.length p + String.length x)%nat.
Proof. induction p as [|c p IH]; simpl; [done|by rewrite IH]. Qed.

(** [endsWith] is [String.prototype.endsWith]. *)
Lemma endsWith_spec (suffix s : string) :
  endsWith suffix s = true <-> exists prefix, s = String.append prefix suffix.
Proof.
  unfold endsWith. split.
  - intros [Hle Heq]%andb_true_iff. apply Nat.leb_le in Hle.
    apply String.eqb_eq in Heq.
    exists (String.substring 0 (String.length s - String.length suffix) s).
    pose proof (append_substring s (String.length s - String.length suffix)
                  (String.length suffix)) as H.
    rewrite Heq in H. apply H. lia.
  - intros [prefix ->]. rewrite length_append. apply andb_true_iff. split.
    + apply Nat.leb_le. lia.
    + apply String.eqb_eq.
      replace (String.length prefix + String.length suffix - String.length suffix)%nat
        with (String.length prefix) by lia.
      apply substring_append_skip.
Qed.

Lemma strOrUndefined_Some a s : strOrUndefined a = Some s -> a = Some s /\ s <> "".
Proof.
  unfold strOrUndefined. destruct a as [x|]; [|done].
  destruct (String.eqb x "") eqn:He; [done|]. intros [= ->].
  split; [done|]. by apply String.eqb_neq.
Qed.

(** ** Parsed messages *)

Lemma classify_shape mc :
  (classify mc).1 <> UNSUPPORTED /\
  ((classify mc).2 = "" ->
   (classify mc).1 = TEXT /\
   (contentType mc = Some "conversation" \/
    contentType mc = Some "extendedTextMessage")).
Proof.
  unfold classify. destruct (contentType mc) as [ct|]; [|by split].
  repeat (match goal with
          | |- context [String.eqb ct ?k] =>
              destruct (String.eqb ct k) eqn:?
          end);
    simpl; (split; [done|]); intros Hempty;
    try (by apply PoolFacts.strOr_nonempty in Hempty);
    try done.
  - split; [done|]. left. f_equal. by apply String.eqb_eq.
  - split; [done|]. right. f_equal. by apply String.eqb_eq.
  - destruct (locationDegrees mc) as [[lat lng]|]; [|done].
    unfold String.append in Hempty. done.
Qed.

(** X12.  What [parseMessage] returns, whenever it returns a message:
    the raw message had a payload and a sender address that is not
    empty; the record is addressed to the receiving account and its
    sender is the phone number extracted from the address; it never
    carries a media URL; its type is one of the eight kinds the switch
    assigns; its id is not empty (for a random id that is not); its
    push name is absent rather than empty; its text is empty only for a
    [conversation] or [extendedTextMessage] payload without text, every
    other payload gets its caption, file name or a bracketed
    placeholder; and it is flagged as a group message exactly when the
    sender address ends with [@g.us]. *)
Theorem parsed_message_shape (lib : Imports) (uuid : string) (now : Z)
        (account : string) (msg : WAMessage) (m : WhatsAppMessage) :
  parseMessage lib uuid now account msg = Some m ->
  exists mc from,
    messageContent msg = Some mc /\
    remoteJid (key msg) = Some from /\ from <> "" /\
    msgFrom m = extractPhoneNumber lib from /\
    msgTo m = account /\
    msgMediaUrl m = None /\
    msgType m <> UNSUPPORTED /\
    (uuid <> "" -> msgId m <> "") /\
    msgPushName m <> Some "" /\
    (msgContent m = "" ->
     msgType m = TEXT /\
     (contentType mc = Some "conversation" \/
      contentType mc = Some "extendedTextMessage")) /\
    (msgIsGroup m = true <-> exists prefix, from = String.append prefix "@g.us").
Proof.
  unfold parseMessage.
  destruct (messageContent msg) as [mc|]; [|done].
  destruct (strOrUndefined (remoteJid (key msg))) as [from|] eqn:Hfrom; [|done].
  apply strOrUndefined_Some in Hfrom as [Hjid Hne].
  pose proof (classify_shape mc) as [Hty Hco].
  destruct (classify mc) as [ty co]. simpl in Hty, Hco.
  intros [= <-]. exists mc, from. simpl.
  repeat split; try done.
  - intros Hu. by apply PoolFacts.strOr_nonempty.
  - intros Hp. by apply strOrUndefined_Some in Hp as [_ ?].
  - by apply Hco.
  - by apply Hco.
  - by apply endsWith_spec.
  - by apply endsWith_spec.
Qed.

Section WithImports.

Variable lib : Imports.

Ltac unfold_ops :=
  unfold emitConnectionUpdate, initializeAccount, disconnectAccount,
    handleConnectionUpdate, handleQr, handleReconnect, handleLoggedOut,
    connectAccount, updateAccountStatus, prismaUpdate in *.

Ltac crush_ops :=
  unfold_ops; repeat (simpl; case_match; simplify_eq/=); simpl; try done.

(** ** Inbound batches *)

Lemma doing_nil s : doing [] s = s.
Proof. destruct s. unfold doing. simpl. by rewrite app_nil_r. Qed.

Lemma doing_doing a b s : doing b (doing a s) = doing (a ++ b) s.
Proof. unfold doing. simpl. by rewrite app_assoc. Qed.

Lemma ingest_events uuid now account i messages s :
  exists events,
    ingest lib uuid now account i messages s = doing events s /\
    (length events <= length messages)%nat /\
    (forall e, e ∈ events ->
       exists k msg m,
         messages !! k = Some msg /\
         e = Emit (EvMessage account m msg) /\
         parseMessage lib (uuid (i + k)%nat) (now (i + k)%nat) account msg = Some m /\
         fromMe (key msg) = false) /\
    (forall k msg m,
        messages !! k = Some msg -> fromMe (key msg) = false ->
        parseMessage lib (uuid (i + k)%nat) (now (i + k)%nat) account msg = Some m ->
        Emit (EvMessage account m msg) ∈ events).
Proof.
  revert i s. induction messages as [|msg rest IH]; intros i s; simpl.
  - exists []. split; [by rewrite doing_nil|]. split; [done|]. split.
    + intros e He. by apply elem_of_nil in He.
    + intros k ? ? Hk. done.
  - set (head := match messageContent msg with
                 | Some _ =>
                     if fromMe (key msg) then None
                     else (fun m => Emit (EvMessage account m msg))
                            <$> parseMessage lib (uuid i) (now i) account msg
                 | None => None
                 end).
    assert (Hhead :
      match messageContent msg with
      | Some _ =>
          if fromMe (key msg) then s
          else match parseMessage lib (uuid i) (now i) account msg with
               | Some whatsappMessage =>
                   doing [Emit (EvMessage account whatsappMessage msg)] s
               | None => s
               end
      | None => s
      end = doing (option_list head) s).
    { subst head. destruct (messageContent msg); [|by rewrite doing_nil].
      destruct (fromMe (key msg)); [by rewrite doing_nil|].
      destruct (parseMessage lib (uuid i) (now i) account msg); simpl;
        [done|by rewrite doing_nil]. }
    rewrite Hhead.
    destruct (IH (S i) (doing (option_list head) s))
      as (events & Heq & Hlen & Hsound & Hcomplete).
    exists (option_list head ++ events). split; [by rewrite Heq, doing_doing|].
    split; [|split].
    + rewrite length_app. destruct head; simpl; lia.
    + intros e [He|He]%elem_of_app.
      * exists 0%nat, msg. subst head. rewrite Nat.add_0_r. simpl.
        destruct (messageContent msg) as [mc|]; [|by apply elem_of_nil in He].
        destruct (fromMe (key msg)) eqn:Hme; [by apply elem_of_nil in He|].
        destruct (parseMessage lib (uuid i) (now i) account msg) as [m|];
          [|by apply elem_of_nil in He].
        apply list_elem_of_singleton in He. by exists m.
      * destruct (Hsound e He) as (k & msg' & m & Hk & -> & Hp & Hme).
        exists (S k), msg', m. replace (i + S k)%nat with (S i + k)%nat by lia.
        done.
    + intros [|k] msg' m Hk Hme Hp; simpl in Hk.
      * injection Hk as <-. apply elem_of_app. left. subst head.
        rewrite Nat.add_0_r in Hp. unfold parseMessage in Hp |- *.
        destruct (messageContent msg) as [mc|]; [|done]. rewrite Hme.
        fold (parseMessage lib (uuid i) (now i) account msg) in Hp |- *.
        rewrite Hp. simpl. by apply list_elem_of_singleton.
      * apply elem_of_app. right. apply (Hcomplete k msg' m Hk Hme).
        by replace (S i + k)%nat with (i + S k)%nat by lia.
Qed.

(** X13.  [handleIncomingMessages] does nothing to the service but
    emit [message] events.  For a batch that is not of type [notify]
    it emits none.  For a [notify] batch it emits one event for every
    message that has a payload, was not sent by the account itself and
    parses to a record, and no other: a message of the account's own is
    never announced, and there are never more events than messages. *)
Theorem inbound_batches_only_emit_message_events
        (uuid : nat -> string) (now : nat -> Z) (account upsertType : string)
        (messages : list WAMessage) (s : Service) :
  exists events,
    handleIncomingMessages lib uuid now account upsertType messages s
    = doing events s /\
    (length events <= length messages)%nat /\
    (upsertType <> "notify" -> events = []) /\
    (forall e, e ∈ events ->
       exists k msg m,
         messages !! k = Some msg /\
         e = Emit (EvMessage account m msg) /\
         parseMessage lib (uuid k) (now k) account msg = Some m /\
         fromMe (key msg) = false) /\
    (forall k msg m,
        upsertType = "notify" ->
        messages !! k = Some msg -> fromMe (key msg) = false ->
        parseMessage lib (uuid k) (now k) account msg = Some m ->
        Emit (EvMessage account m msg) ∈ events).
Proof.
  unfold handleIncomingMessages.
  destruct (String.eqb upsertType "notify") eqn:Hty.
  - destruct (ingest_events uuid now account 0 messages s)
      as (events & Heq & Hlen & Hsound & Hcomplete).
    exists events. split; [done|]. split; [done|]. split.
    + intros Hne. by apply String.eqb_eq in Hty.
    + split.
      * intros e He. destruct (Hsound e He) as (k & msg & m & H). by exists k, msg, m.
      * intros k msg m _. apply Hcomplete.
  - exists []. split; [by rewrite doing_nil|]. split; [simpl; lia|]. split; [done|].
    split.
    + intros e He. by apply elem_of_nil in He.
    + intros k msg m ->. done.
Qed.

(** ** Rate windows over runs *)

Lemma emitMessagesUpsert_doing uuid now sock upsertType messages s :
  exists events,
    emitMessagesUpsert lib uuid now sock upsertType messages s = doing events s.
Proof.
  unfold emitMessagesUpsert, handleIncomingMessages.
  destruct (listeners s !! sock); [|exists []; by rewrite doing_nil].
  destruct (String.eqb upsertType "notify"); [|exists []; by rewrite doing_nil].
  destruct (ingest_events uuid now s0 0 messages s) as (events & -> & _).
  by exists events.
Qed.

Lemma disconnectAccount_fields dbOk account s :
  messageQueue (disconnectAccount dbOk account s) = messageQueue s /\
  isShuttingDown (disconnectAccount dbOk account s) = isShuttingDown s /\
  nextSocket (disconnectAccount dbOk account s) = nextSocket s.
Proof. crush_ops. Qed.

Lemma initializeAccount_fields w account s :
  messageQueue (initializeAccount lib w account s).1 = messageQueue s /\
  isShuttingDown (initializeAccount lib w account s).1 = isShuttingDown s.
Proof. crush_ops. Qed.

Lemma emitConnectionUpdate_fields w sock u s :
  messageQueue (emitConnectionUpdate lib w sock u s) = messageQueue s /\
  isShuttingDown (emitConnectionUpdate lib w sock u s) = isShuttingDown s.
Proof. crush_ops. Qed.

Lemma sendMessage_queue w account to content options s :
  let out := sendMessage lib w account to content options s in
  let checked := checkRateLimit (checkNow w) to (messageQueue s) in
  isShuttingDown out.1 = isShuttingDown s /\
  effects out.1 = effects s /\
  (messageQueue out.1 = messageQueue s \/
   messageQueue out.1 = checked.1 \/
   (checked.2 = true /\
    messageQueue out.1 = recordMessage (recordNow w) to checked.1)).
Proof.
  unfold sendMessage. simpl.
  destruct (checkRateLimit (checkNow w) to (messageQueue s)) as [mq admitted] eqn:Hc.
  repeat (simpl; case_match; simplify_eq/=); simpl; auto.
  split; [done|]. split; [done|]. right. right. split; [|done].
  by match goal with H : negb _ = false |- _ => apply negb_false_iff in H end.
Qed.

Lemma checkRateLimit_other now to mq r :
  to <> r -> (checkRateLimit now to mq).1 !! r = mq !! r.
Proof. intros Hne. unfold checkRateLimit. simpl. by rewrite lookup_insert_ne. Qed.

Lemma recordMessage_other now to mq r :
  to <> r -> recordMessage now to mq !! r = mq !! r.
Proof. intros Hne. unfold recordMessage. by rewrite lookup_insert_ne. Qed.

Lemma step_window_frame r s op :
  ~ touchesWindowOf r op ->
  messageQueue (step lib s op) !! r = messageQueue s !! r.
Proof.
  intros Hop. destruct op as [w a|dbOk a|w sock u|uuid now sock t ms|w a to c o|dbOk];
    simpl in *.
  - by rewrite (proj1 (initializeAccount_fields w a s)).
  - by rewrite (proj1 (disconnectAccount_fields dbOk a s)).
  - by rewrite (proj1 (emitConnectionUpdate_fields w sock u s)).
  - destruct (emitMessagesUpsert_doing uuid now sock t ms s) as [ev ->]. done.
  - destruct (sendMessage_queue w a to c o s) as (_ & _ & [->|[->|[_ ->]]]).
    + done.
    + by apply checkRateLimit_other.
    + rewrite recordMessage_other by done. by apply checkRateLimit_other.
  - done.
Qed.

(** X14.  The window of a recipient is written by nothing but a send
    to that recipient and the shutdown: through any run of other
    operations (sends to other recipients, initializations,
    disconnects, connection updates, inbound batches) the entries
    recorded for the recipient stay exactly as they are, so the traffic
    to one recipient never uses up the allowance of another. *)
Theorem window_changes_only_by_own_sends
        (ops : list Op) (s : Service) (r : string) :
  Forall (fun op => ~ touchesWindowOf r op) ops ->
  messageQueue (run lib ops s) !! r = messageQueue s !! r.
Proof.
  intros Hops. revert s. induction Hops as [|op ops Hop _ IH]; intros s; [done|].
  unfold run in *. simpl. rewrite IH. by apply step_window_frame.
Qed.

Lemma checkRateLimit_bounded now to mq :
  (forall r q, mq !! r = Some q -> Z.of_nat (length q) <= maxMessagesPerWindow) ->
  forall r q, (checkRateLimit now to mq).1 !! r = Some q ->
              Z.of_nat (length q) <= maxMessagesPerWindow.
Proof.
  intros Hb r q. unfold checkRateLimit. simpl.
  destruct (decide (to = r)) as [->|Hne].
  - rewrite lookup_insert_eq. intros [= <-].
    pose proof (length_filter (fun m => now - timestamp m < rateLimitWindow)
                  (default [] (mq !! r))) as Hlen.
    destruct (mq !! r) as [q0|] eqn:Hq; simpl in *.
    + specialize (Hb r q0 Hq). lia.
    + unfold maxMessagesPerWindow. lia.
  - rewrite lookup_insert_ne by done. apply Hb.
Qed.

Lemma recordMessage_bounded now0 now to mq :
  (forall r q, mq !! r = Some q -> Z.of_nat (length q) <= maxMessagesPerWindow) ->
  (checkRateLimit now0 to mq).2 = true ->
  forall r q, recordMessage now to (checkRateLimit now0 to mq).1 !! r = Some q ->
              Z.of_nat (length q) <= maxMessagesPerWindow.
Proof.
  intros Hb Hadm r q. unfold recordMessage.
  destruct (decide (to = r)) as [->|Hne].
  - rewrite lookup_insert_eq. intros [= <-].
    unfold checkRateLimit in *. simpl in *. rewrite lookup_insert_eq. simpl.
    apply bool_decide_eq_true in Hadm.
    rewrite length_app. simpl. lia.
  - rewrite lookup_insert_ne by done. by apply checkRateLimit_bounded.
Qed.

Lemma step_bounded s op : queuesBounded s -> queuesBounded (step lib s op).
Proof.
  intros Hb. destruct op as [w a|dbOk a|w sock u|uuid now sock t ms|w a to c o|dbOk];
    simpl; unfold queuesBounded.
  - by rewrite (proj1 (initializeAccount_fields w a s)).
  - by rewrite (proj1 (disconnectAccount_fields dbOk a s)).
  - by rewrite (proj1 (emitConnectionUpdate_fields w sock u s)).
  - destruct (emitMessagesUpsert_doing uuid now sock t ms s) as [ev ->]. done.
  - destruct (sendMessage_queue w a to c o s) as (_ & _ & [->|[->|[Hadm ->]]]).
    + done.
    + by apply checkRateLimit_bounded.
    + by apply recordMessage_bounded.
  - intros r q. unfold shutdown. simpl. by rewrite lookup_empty.
Qed.

Lemma run_bounded ops s : queuesBounded s -> queuesBounded (run lib ops s).
Proof.
  revert s. induction ops as [|op ops IH]; intros s Hb; [done|].
  unfold run in *. simpl. apply IH. by apply step_bounded.
Qed.

(** X15.  As long as [sendMessage] calls do not overlap (each has
    ended before the next starts), the window of a recipient never
    holds more than [maxMessagesPerWindow] entries: in every state the
    service reaches from its construction through calls and events
    that run one after the other, whatever the clock readings were
    (also when the clock ran backwards), each list of [messageQueue]
    has at most 30 elements.  (Calls that overlap are all checked
    before any of them is recorded, and the bound does not hold for
    them.) *)
Theorem outbound_windows_stay_bounded
        (ops : list Op) (disk : gset string) (db : gmap string AccountRow)
        (r : string) (q : list QueueEntry) :
  messageQueue (run lib ops (newService disk db)) !! r = Some q ->
  Z.of_nat (length q) <= maxMessagesPerWindow.
Proof.
  apply (run_bounded ops (newService disk db)).
  intros r' q'. simpl. by rewrite lookup_empty.
Qed.

(** ** Shutdown *)














(** ** Accounts that are gone stay gone *)









(** ** Reconnection *)

Lemma transient_close_step w sock u s account inst :
  listeners s !! sock = Some account ->
  instances s !! account = Some inst ->
  isShuttingDown s = false ->
  reconnectAttempts inst < maxReconnectAttempts ->
  transient u ->
  let n := reconnectAttempts inst + 1 in
  let s' := emitConnectionUpdate lib w sock u s in
  isShuttingDown s' = false /\ accounts s' = accounts s /\
  match updateConnect w with
  | SocketOpens =>
      effects s' = effects s ++ [Sleep (reconnectDelay * n);
                                 SocketCreated account (nextSocket s)] /\
      instances s'
      = <[account := setSocket (Some (nextSocket s)) (setReconnectAttempts n inst)]>
          (instances s) /\
      listeners s' = delete sock (<[nextSocket s := account]> (listeners s)) /\
      nextSocket s' = S (nextSocket s)
  | AuthStateThrows _ | MakeSocketThrows _ =>
      effects s' = effects s ++ [Sleep (reconnectDelay * n)] /\
      instances s' = <[account := setReconnectAttempts n inst]> (instances s) /\
      listeners s' = delete sock (listeners s) /\
      nextSocket s' = nextSocket s
  end.
Proof.
  intros Hl Hi Hdown Hcap (Hclose & Hcode & Hqr) n s'. subst n s'.
  unfold emitConnectionUpdate, handleConnectionUpdate, handleQr.
  rewrite Hl, Hi, Hqr, Hclose. simpl.
  rewrite bool_decide_eq_false_2 by done. rewrite Hdown. simpl.
  unfold handleReconnect. rewrite Hi.
  destruct (maxReconnectAttempts <=? reconnectAttempts inst) eqn:Hle;
    [apply Z.leb_le in Hle; lia|].
  simpl. rewrite Hdown. simpl. rewrite lookup_insert_eq.
  rewrite bool_decide_eq_true_2 by (by eexists). simpl.
  unfold connectAccount. simpl. rewrite lookup_insert_eq.
  destruct (updateConnect w); simpl; rewrite ?insert_insert_eq; repeat split; try done.
  by rewrite <- app_assoc.
Qed.

Lemma seq_shift_fmap {A} (f : nat -> A) a k :
  f <$> seq (S a) k = (fun j => f (S j)) <$> seq a k.
Proof. rewrite <- fmap_S_seq, <- list_fmap_compose. done. Qed.

(** X19.  Consecutive drops follow the backoff schedule.  For an
    account whose instance has made [n] reconnect attempts, while the
    service is not shutting down and the connection can be opened:
    when its connection drops [k] times in a row with [n + k] within
    the maximum, the service answers every drop with one wait and one
    new socket and nothing else (no event is emitted, the table is not
    written); the waits are [reconnectDelay * (n + 1)], ...,
    [reconnectDelay * (n + k)], in this order; afterwards the instance
    has made [n + k] attempts, holds the socket created last, on which
    its handlers are registered, and has the status it had before the
    first drop. *)
Theorem consecutive_drops_follow_the_backoff_schedule
        (k : nat) (w : UpdateWorld) (u : ConnectionUpdate) (s : Service)
        (sock : nat) (account : string) (inst : WhatsAppInstance) :
  listeners s !! sock = Some account ->
  instances s !! account = Some inst ->
  (sock < nextSocket s)%nat ->
  isShuttingDown s = false ->
  updateConnect w = SocketOpens ->
  transient u ->
  reconnectAttempts inst + Z.of_nat k <= maxReconnectAttempts ->
  let s' := run lib (consecutiveDrops w u sock (nextSocket s) k) s in
  (exists new,
      effects s' = effects s ++ new /\
      length new = (2 * k)%nat /\
      delaysOf new
      = (fun j : nat => reconnectDelay * (reconnectAttempts inst + Z.of_nat j))
          <$> seq 1 k /\
      socketsCreatedFor account new = seq (nextSocket s) k) /\
  accounts s' = accounts s /\
  (exists inst',
      instances s' !! account = Some inst' /\
      reconnectAttempts inst' = reconnectAttempts inst + Z.of_nat k /\
      status inst' = status inst /\
      ((0 < k)%nat ->
       socket inst' = Some (nextSocket s + k - 1)%nat /\
       live s' (nextSocket s + k - 1)%nat account)).
Proof.
  revert s sock inst. induction k as [|k IH]; intros s sock inst Hl Hi Hlt Hdown Hw Hu Hcap.
  - simpl. split; [|split; [done|]].
    + exists []. by rewrite app_nil_r.
    + exists inst. split; [done|]. split; [lia|]. split; [done|]. lia.
  - intros s'. subst s'. simpl consecutiveDrops. unfold run. simpl foldl.
    fold (run lib (consecutiveDrops w u (nextSocket s) (S (nextSocket s)) k)
              (emitConnectionUpdate lib w sock u s)).
    destruct (transient_close_step w sock u s account inst Hl Hi Hdown ltac:(lia) Hu)
      as (Hdown1 & Hacc1 & Hstep).
    rewrite Hw in Hstep. destruct Hstep as (He1 & Hi1 & Hl1 & Hn1).
    set (s1 := emitConnectionUpdate lib w sock u s) in *.
    set (inst1 := setSocket (Some (nextSocket s))
                    (setReconnectAttempts (reconnectAttempts inst + 1) inst)) in *.
    assert (listeners s1 !! nextSocket s = Some account) as Hlive1.
    { rewrite Hl1, lookup_delete_ne by lia. by rewrite lookup_insert_eq. }
    assert (instances s1 !! account = Some inst1) as Hinst1.
    { by rewrite Hi1, lookup_insert_eq. }
    destruct (IH s1 (nextSocket s) inst1 Hlive1 Hinst1) as (Hnew & Hacc & Hinst');
      try done.
    { rewrite Hn1. lia. }
    { subst inst1. simpl. lia. }
    rewrite Hn1 in Hnew, Hacc, Hinst'. split; [|split].
    + destruct Hnew as (new & He & Hlen & Hdelays & Hsocks).
      exists ([Sleep (reconnectDelay * (reconnectAttempts inst + 1));
               SocketCreated account (nextSocket s)] ++ new).
      split; [by rewrite He, He1, <- app_assoc|]. split; [simpl; lia|]. split.
      * simpl. rewrite Hdelays. f_equal.
        rewrite (seq_shift_fmap _ 1 k). apply list_fmap_ext. intros ? j _.
        subst inst1. simpl. f_equal. lia.
      * simpl. rewrite decide_True by done. rewrite Hsocks. done.
    + congruence.
    + destruct Hinst' as (inst' & Hi' & Hatt & Hst & Hsock).
      exists inst'. split; [done|]. split; [subst inst1; simpl in Hatt; lia|].
      split; [done|]. intros _.
      destruct k as [|k].
      * simpl in Hi'. rewrite Hinst1 in Hi'. injection Hi' as <-.
        replace (nextSocket s + 1 - 1)%nat with (nextSocket s) by lia.
        done.
      * destruct Hsock as [Hs1 Hs2]; [lia|].
        replace (nextSocket s + S (S k) - 1)%nat with (S (nextSocket s) + S k - 1)%nat
          by lia.
        done.
Qed.



(** ** Initialization *)

Lemma initializeAccount_opens w account s :
  initConnect w = SocketOpens ->
  (initializeAccount lib w account s).2 = None /\
  instances (initializeAccount lib w account s).1
  = <[account := setSocket (Some (nextSocket s)) (freshInstance account (initNow w))]>
      (instances (if bool_decide (is_Some (instances s !! account))
                  then disconnectAccount (teardownDbOk w) account s else s)) /\
  listeners (initializeAccount lib w account s).1
  = <[nextSocket s := account]>
      (listeners (if bool_decide (is_Some (instances s !! account))
                  then disconnectAccount (teardownDbOk w) account s else s)) /\
  nextSocket (initializeAccount lib w account s).1 = S (nextSocket s).
Proof.
  intros Hw. unfold initializeAccount, connectAccount. simpl.
  rewrite lookup_insert_eq, Hw. simpl.
  destruct (disconnectAccount_fields (teardownDbOk w) account s) as (_ & _ & Hn).
  case_bool_decide; simpl; rewrite ?Hn, ?insert_insert_eq; done.
Qed.

Lemma initializeAccount_throws w account s e :
  initConnect w = AuthStateThrows e \/ initConnect w = MakeSocketThrows e ->
  let s1 := if bool_decide (is_Some (instances s !! account))
            then disconnectAccount (teardownDbOk w) account s else s in
  (initializeAccount lib w account s).2 = Some e /\
  listeners (initializeAccount lib w account s).1 = listeners s1 /\
  nextSocket (initializeAccount lib w account s).1 = nextSocket s /\
  effects (initializeAccount lib w account s).1 = effects s1 /\
  instances (initializeAccount lib w account s).1
  = <[account :=
        (if failureDbOk w && bool_decide (is_Some (accounts s !! account))
         then setStatus DISCONNECTED else fun i => i)
          (freshInstance account (initNow w))]> (instances s1).
Proof.
  intros Hw s1. subst s1.
  assert (Hrow : forall s1,
            s1 = (if bool_decide (is_Some (instances s !! account))
                  then disconnectAccount (teardownDbOk w) account s else s) ->
            is_Some (accounts s1 !! account) <-> is_Some (accounts s !! account)).
  { intros s1 ->. case_bool_decide; [|done]. unfold_ops.
    repeat (simpl; case_match; simplify_eq/=); simpl; try reflexivity;
      rewrite ?lookup_insert_eq; split; intros [? ?]; simplify_eq; eauto. }
  destruct (disconnectAccount_fields (teardownDbOk w) account s) as (_ & _ & Hn).
  unfold initializeAccount, connectAccount. simpl. rewrite lookup_insert_eq.
  set (s1 := if bool_decide (is_Some (instances s !! account))
             then disconnectAccount (teardownDbOk w) account s else s) in *.
  specialize (Hrow s1 eq_refl).
  assert (nextSocket s1 = nextSocket s) as Hn1.
  { subst s1. by case_bool_decide. }
  unfold updateAccountStatus, prismaUpdate.
  destruct Hw as [-> | ->]; simpl;
    destruct (failureDbOk w); simpl;
    try (destruct (accounts s1 !! account) as [row|] eqn:Hr; simpl;
         [rewrite bool_decide_eq_true_2 by (by apply Hrow)
         |rewrite bool_decide_eq_false_2 by (rewrite <- Hrow; by intros [? ?])]);
    simpl; repeat split; try done;
    rewrite ?alter_insert_eq; try done.
Qed.


Lemma getActiveAccounts_elem s a :
  a ∈ getActiveAccounts s <->
  exists inst, instances s !! a = Some inst /\ status inst = CONNECTED.
Proof.
  unfold getActiveAccounts. rewrite list_elem_of_filter, list_elem_of_fmap. split.
  - intros [Hst _]. destruct (instances s !! a) as [inst|]; [|done].
    exists inst. split; [done|]. simpl in Hst. congruence.
  - intros (inst & Hi & Hst). split; [by rewrite Hi; simpl; rewrite Hst|].
    exists (a, inst). split; [done|]. by apply elem_of_map_to_list.
Qed.

(** X21.  [initializeAccount] fails exactly when the connection cannot
    be opened, and then with the error that opening threw (the
    instance it looks up has just been stored, so 'Account instance not
    found' is never its own error).  A failed call leaves an instance
    behind that has no socket: its status is [DISCONNECTED] when the
    table update of the failure path succeeds and [CONNECTING]
    otherwise; no socket is created and no handler registered; the
    account is not listed as active and every [sendMessage] for it is
    refused with the not-connected error. *)
Theorem failed_initialize_leaves_a_socketless_instance
        (w : InitWorld) (account : string) (s : Service) :
  let out := initializeAccount lib w account s in
  (out.2 = None <-> initConnect w = SocketOpens) /\
  (forall e, out.2 = Some e <->
             initConnect w = AuthStateThrows e \/ initConnect w = MakeSocketThrows e) /\
  (initConnect w <> SocketOpens ->
   nextSocket out.1 = nextSocket s /\
   (forall k, listeners out.1 !! k = Some account -> listeners s !! k = Some account) /\
   socketsCreatedFor account (effects out.1) = socketsCreatedFor account (effects s) /\
   instances out.1 !! account
   = Some ((if failureDbOk w && bool_decide (is_Some (accounts s !! account))
            then setStatus DISCONNECTED else fun i => i)
             (freshInstance account (initNow w))) /\
   (account ∉ getActiveAccounts out.1) /\
   (forall w' to content options,
       sendMessage lib w' account to content options out.1
       = (out.1, inr notConnectedMessage))).
Proof.
  intros out.
  assert (Hcases :
    match initConnect w with
    | SocketOpens => out.2 = None
    | AuthStateThrows e | MakeSocketThrows e => out.2 = Some e
    end).
  { destruct (initConnect w) as [e|e|] eqn:Hw.
    - by apply (initializeAccount_throws w account s e); left.
    - by apply (initializeAccount_throws w account s e); right.
    - by apply initializeAccount_opens. }
  split; [|split].
  - destruct (initConnect w); rewrite Hcases; split; done.
  - intros e. destruct (initConnect w) as [e'|e'|]; rewrite Hcases; split;
      try done; try (intros [= ->]; by auto); intros [[= ->]|[= ->]]; done.
  - intros Hw.
    assert (exists e, initConnect w = AuthStateThrows e \/ initConnect w = MakeSocketThrows e)
      as [e He].
    { destruct (initConnect w) as [e|e|]; [exists e; by left|exists e; by right|done]. }
    destruct (initializeAccount_throws w account s e He) as (_ & Hl & Hn & Hef & Hi).
    fold out in Hl, Hn, Hef, Hi.
    assert (Hinst : instances out.1 !! account
                    = Some ((if failureDbOk w && bool_decide (is_Some (accounts s !! account))
                             then setStatus DISCONNECTED else fun i => i)
                              (freshInstance account (initNow w)))).
    { by rewrite Hi, lookup_insert_eq. }
    split; [done|]. split; [|split; [|split; [done|split]]].
    + intros k. rewrite Hl.
      destruct (bool_decide (is_Some (instances s !! account))); [|done].
      intros Hk.
      destruct (disconnectAccount_leftAlone (teardownDbOk w) account account s)
        as (_ & Hlive & _).
      by apply Hlive.
    + rewrite Hef.
      destruct (bool_decide (is_Some (instances s !! account))); [|done].
      by destruct (disconnectAccount_leftAlone (teardownDbOk w) account account s)
        as (_ & _ & ->).
    + rewrite getActiveAccounts_elem. intros (inst & Hi' & Hst).
      rewrite Hinst in Hi'. injection Hi' as <-.
      by destruct (failureDbOk w && bool_decide (is_Some (accounts s !! account))).
    + intros w' to content options. unfold sendMessage. rewrite Hinst.
      by destruct (failureDbOk w && bool_decide (is_Some (accounts s !! account))).
Qed.

(** ** Queries *)


(** X23.  The [lastConnected] field of [getConnectionState] is the
    time of the account's last activity, not of its last connection:
    [getConnectionState] answers [null] exactly for an account without
    instance, and for an account with an instance it reports
    [lastActivity], which a successful [sendMessage] sets to its own
    clock reading, as the [open] event does (there together with the
    status [CONNECTED], whether or not the table update that follows
    succeeds). *)
Theorem connection_state_reports_the_last_activity
        (socketUser : nat -> option string) (account : string) (s : Service) :
  (getConnectionState lib socketUser account s = None <->
   instances s !! account = None) /\
  (forall inst, instances s !! account = Some inst ->
     exists st,
       getConnectionState lib socketUser account s = Some st /\
       stateAccountId st = account /\ stateStatus st = status inst /\
       stateLastConnected st = lastActivity inst) /\
  (forall w to content options result,
      (sendMessage lib w account to content options s).2 = inl result ->
      exists st,
        getConnectionState lib socketUser account
          (sendMessage lib w account to content options s).1 = Some st /\
        stateStatus st = CONNECTED /\
        stateLastConnected st = activityNow w) /\
  (forall w u,
      is_Some (instances s !! account) ->
      connection u = Some connOpen -> strOrUndefined (qr u) = None ->
      exists st,
        getConnectionState lib socketUser account
          (handleConnectionUpdate lib w account u s).1 = Some st /\
        stateStatus st = CONNECTED /\
        stateLastConnected st = updateNow w).
Proof.
  split; [|split; [|split]].
  - unfold getConnectionState. by destruct (instances s !! account).
  - intros inst Hi. unfold getConnectionState. rewrite Hi. by eexists.
  - intros w to content options result. unfold sendMessage, getConnectionState.
    destruct (instances s !! account) as [inst|] eqn:Hi; [|done].
    destruct (socket inst) as [sock|] eqn:Hs; [|done].
    case_bool_decide as Hst; [done|].
    destruct (checkRateLimit (checkNow w) to (messageQueue s)) as [mq adm].
    destruct adm; simpl; [|done].
    destruct (resolvePayload w content options) as [payload|e]; [|done].
    destruct (socketSendMessage w sock (sanitizePhoneNumber lib to) payload)
      as [res|e]; [|done].
    simpl. intros _. rewrite lookup_insert_eq. eexists. split; [done|].
    simpl. split; [|done]. by destruct (status inst).
  - intros w u [inst Hi] Hopen Hqr.
    unfold handleConnectionUpdate, handleQr, getConnectionState.
    rewrite Hi, Hqr, Hopen. simpl.
    destruct (prismaUpdate (updateDbOk w) account _ _); simpl;
      rewrite lookup_insert_eq; by eexists.
Qed.


(** ** Startup *)

Lemma initializeAccount_rows w account s x :
  is_Some (accounts (initializeAccount lib w account s).1 !! x)
  <-> is_Some (accounts s !! x).
Proof.
  unfold_ops.
  repeat (simpl; case_match; simplify_eq/=); simpl; try reflexivity;
    repeat (match goal with
            | |- context [<[?k := _]> _ !! x] =>
                destruct (decide (k = x)) as [->|];
                [rewrite lookup_insert_eq|rewrite lookup_insert_ne by done]
            end);
    try reflexivity; split; intros [? ?]; simplify_eq; eauto.
Qed.

Lemma absent_not_live s a :
  supervised s -> instances s !! a = None -> forall k, ~ live s k a.
Proof.
  intros [Htied _] Ha k Hk. pose proof (Htied k a ltac:(done) Hk) as Hs.
  unfold socketOf in Hs. by rewrite Ha in Hs.
Qed.

Lemma initializeAccount_fresh w a s :
  supervised s -> instances s !! a = None ->
  let s1 := (initializeAccount lib w a s).1 in
  (forall b, b <> a ->
             instances s1 !! b = instances s !! b /\
             forall k, live s1 k b <-> live s k b) /\
  match initConnect w with
  | SocketOpens =>
      instances s1 !! a
      = Some (setSocket (Some (nextSocket s)) (freshInstance a (initNow w))) /\
      live s1 (nextSocket s) a
  | AuthStateThrows _ | MakeSocketThrows _ =>
      instances s1 !! a
      = Some ((if failureDbOk w && bool_decide (is_Some (accounts s !! a))
               then setStatus DISCONNECTED else fun i => i)
                (freshInstance a (initNow w))) /\
      forall k, ~ live s1 k a
  end.
Proof.
  intros Hsup Ha s1. subst s1.
  pose proof (absent_not_live s a Hsup Ha) as Hdead.
  destruct Hsup as [_ [Halloc _]].
  destruct (initConnect w) as [e|e|] eqn:Hw.
  - destruct (initializeAccount_throws w a s e) as (_ & Hl & _ & _ & Hi); [by left|].
    rewrite (bool_decide_eq_false_2 (is_Some (instances s !! a))) in Hl, Hi
      by (rewrite Ha; by intros [? ?]).
    split; [|split].
    + intros b Hb. rewrite Hi, lookup_insert_ne by done. split; [done|].
      intros k. unfold live. by rewrite Hl.
    + by rewrite Hi, lookup_insert_eq.
    + intros k. unfold live. rewrite Hl. apply Hdead.
  - destruct (initializeAccount_throws w a s e) as (_ & Hl & _ & _ & Hi); [by right|].
    rewrite (bool_decide_eq_false_2 (is_Some (instances s !! a))) in Hl, Hi
      by (rewrite Ha; by intros [? ?]).
    split; [|split].
    + intros b Hb. rewrite Hi, lookup_insert_ne by done. split; [done|].
      intros k. unfold live. by rewrite Hl.
    + by rewrite Hi, lookup_insert_eq.
    + intros k. unfold live. rewrite Hl. apply Hdead.
  - destruct (initializeAccount_opens w a s Hw) as (_ & Hi & Hl & _).
    rewrite (bool_decide_eq_false_2 (is_Some (instances s !! a))) in Hl, Hi
      by (rewrite Ha; by intros [? ?]).
    split; [|split].
    + intros b Hb. rewrite Hi, lookup_insert_ne by done. split; [done|].
      intros k. unfold live. rewrite Hl.
      destruct (decide (nextSocket s = k)) as [<-|Hk].
      * rewrite lookup_insert_eq. split; [congruence|].
        intros Hlive. apply Halloc in Hlive. lia.
      * by rewrite lookup_insert_ne.
    + by rewrite Hi, lookup_insert_eq.
    + unfold live. by rewrite Hl, lookup_insert_eq.
Qed.

Lemma reconnectAccounts_each world ids s :
  supervised s -> NoDup ids ->
  (forall a, a ∈ ids -> instances s !! a = None) ->
  let s' := Server.reconnectAccounts lib world ids s in
  (forall b, b ∉ ids ->
             instances s' !! b = instances s !! b /\
             forall k, live s' k b <-> live s k b) /\
  (forall a, a ∈ ids ->
     match initConnect (world a) with
     | SocketOpens =>
         exists k,
           instances s' !! a
           = Some (setSocket (Some k) (freshInstance a (initNow (world a)))) /\
           live s' k a
     | AuthStateThrows _ | MakeSocketThrows _ =>
         instances s' !! a
         = Some ((if failureDbOk (world a) && bool_decide (is_Some (accounts s !! a))
                  then setStatus DISCONNECTED else fun i => i)
                   (freshInstance a (initNow (world a)))) /\
         forall k, ~ live s' k a
     end).
Proof.
  revert s. induction ids as [|a rest IH]; intros s Hsup Hnd Hnone s'; subst s'.
  - simpl. split; [done|]. intros a Ha. by apply elem_of_nil in Ha.
  - apply NoDup_cons in Hnd as [Hnotin Hnd].
    unfold Server.reconnectAccounts. simpl foldl.
    fold (Server.reconnectAccounts lib world rest
            (initializeAccount lib (world a) a s).1).
    set (s1 := (initializeAccount lib (world a) a s).1).
    assert (instances s !! a = None) as Ha by (apply Hnone; by left).
    destruct (initializeAccount_fresh (world a) a s Hsup Ha) as [Hother Hmine].
    fold s1 in Hother, Hmine.
    assert (supervised s1) as Hsup1 by (by apply initializeAccount_supervised).
    destruct (IH s1 Hsup1 Hnd) as [IH1 IH2].
    { intros b Hb. rewrite (proj1 (Hother b ltac:(by intros ->))).
      apply Hnone. by right. }
    split.
    + intros b Hb. apply not_elem_of_cons in Hb as [Hba Hb].
      destruct (IH1 b Hb) as [Hi Hl]. destruct (Hother b Hba) as [Hi1 Hl1].
      split; [congruence|]. intros k. by rewrite Hl, Hl1.
    + intros b [->|Hb]%elem_of_cons.
      * destruct (IH1 a Hnotin) as [Hi Hl].
        destruct (initConnect (world a)) as [e|e|].
        -- destruct Hmine as [Hm1 Hm2]. split; [congruence|].
           intros k Hk. apply (Hm2 k). by apply Hl.
        -- destruct Hmine as [Hm1 Hm2]. split; [congruence|].
           intros k Hk. apply (Hm2 k). by apply Hl.
        -- destruct Hmine as [Hm1 Hm2]. exists (nextSocket s).
           split; [congruence|]. by apply Hl.
      * specialize (IH2 b Hb).
        assert (bool_decide (is_Some (accounts s1 !! b))
                = bool_decide (is_Some (accounts s !! b))) as Hrows.
        { apply bool_decide_ext. apply initializeAccount_rows. }
        by rewrite Hrows in IH2.
Qed.

(** X24.  The startup loop deals with every account on its own.  For
    the accounts the table reports as connected (each listed once),
    started on a new service: whatever happens to the others, an
    account whose connection can be opened ends with a fresh instance
    of status [CONNECTING] on a socket of its own on which its handlers
    are registered; an account for which opening throws ends with a
    fresh instance without socket and without live connection, of
    status [DISCONNECTED] when its row could be updated and
    [CONNECTING] otherwise; no other account gets an instance. *)
Theorem startup_deals_with_every_account_on_its_own
        (world : string -> InitWorld) (connectedAccounts : list string)
        (disk : gset string) (db : gmap string AccountRow) :
  NoDup connectedAccounts ->
  let s' := Server.reconnectAccounts lib world connectedAccounts
              (newService disk db) in
  (forall b, b ∉ connectedAccounts -> instances s' !! b = None) /\
  (forall a, a ∈ connectedAccounts ->
     match initConnect (world a) with
     | SocketOpens =>
         exists k,
           instances s' !! a
           = Some (setSocket (Some k) (freshInstance a (initNow (world a)))) /\
           live s' k a
     | AuthStateThrows _ | MakeSocketThrows _ =>
         instances s' !! a
         = Some ((if failureDbOk (world a) && bool_decide (is_Some (db !! a))
                  then setStatus DISCONNECTED else fun i => i)
                   (freshInstance a (initNow (world a)))) /\
         forall k, ~ live s' k a
     end).
Proof.
  intros Hnd s'.
  destruct (reconnectAccounts_each world connectedAccounts (newService disk db))
    as [H1 H2]; [apply newService_supervised|done|..].
  { intros a _. simpl. by rewrite lookup_empty. }
  split; [|done].
  intros b Hb. destruct (H1 b Hb) as [Hi _]. fold s' in Hi. rewrite Hi. simpl.
  by rewrite lookup_empty.
Qed.


(** ** Pairing *)

(** X27.  What a [connection.update] announces is what the table
    holds.  A [qr] event is emitted only after the row of the account
    took the same data URL (and the row still holds it afterwards,
    unless the same update opened the connection); a [connected] event
    is emitted only after the row became [CONNECTED] with the phone
    number announced, its QR code cleared and the time stamped, and the
    instance is [CONNECTED] in memory.  When the row cannot be written
    for a QR code, nothing is announced and the rest of the update, a
    close included, is not handled at all. *)
Theorem events_announce_what_the_table_holds
        (w : UpdateWorld) (account : string) (u : ConnectionUpdate)
        (s : Service) :
  (forall a url,
      Emit (EvQr a url) ∈ effects (handleConnectionUpdate lib w account u s).1 ->
      Emit (EvQr a url) ∈ effects s \/
      (a = account /\ strOrUndefined (qr u) <> None /\
       (connection u <> Some connOpen ->
        rowQrCode <$> accounts (handleConnectionUpdate lib w account u s).1 !! account
        = Some (Some url)))) /\
  (forall a phone,
      Emit (EvConnected a phone)
        ∈ effects (handleConnectionUpdate lib w account u s).1 ->
      Emit (EvConnected a phone) ∈ effects s \/
      (a = account /\ connection u = Some connOpen /\
       accounts (handleConnectionUpdate lib w account u s).1 !! account
       = Some {| rowStatus := CONNECTED; rowQrCode := None;
                 rowPhoneNumber := phone;
                 rowLastConnected := Some (updateNow w) |} /\
       status <$> instances (handleConnectionUpdate lib w account u s).1 !! account
       = Some CONNECTED)) /\
  (is_Some (instances s !! account) ->
   strOrUndefined (qr u) <> None ->
   prismaUpdate (qrDbOk w) account id (accounts s) = None ->
   handleConnectionUpdate lib w account u s = (s, Some prismaError)).
Proof.
  split; [|split].
  - intros a url. crush_ops; unfold doing; simpl;
      rewrite ?elem_of_app, ?list_elem_of_singleton;
      intros Hin; destruct_or?; simplify_eq;
      try (by left);
      repeat match goal with
             | H : <[_:=_]> _ !! _ = _ |- _ => rewrite lookup_insert_eq in H
             end; simplify_eq/=;
      right; (split; [done|]); (split; [done|]); intros ?;
      by rewrite ?lookup_insert_eq.
  - intros a phone. crush_ops; unfold doing; simpl;
      rewrite ?elem_of_app, ?list_elem_of_singleton;
      intros Hin; destruct_or?; simplify_eq;
      try (by left);
      repeat match goal with
             | H : <[_:=_]> _ !! _ = _ |- _ => rewrite lookup_insert_eq in H
             end; simplify_eq/=;
      right; (split; [done|]); (split; [done|]);
      by rewrite !lookup_insert_eq.
  - intros [inst Hinst] Hqr Hdb. unfold handleConnectionUpdate, handleQr.
    rewrite Hinst. destruct (strOrUndefined (qr u)) as [code|]; [|done].
    unfold prismaUpdate in *. destruct (qrDbOk w); [|done].
    destruct (accounts s !! account); done.
Qed.

End WithImports.

End GatewayFacts.

(** ** The statements above, on examples *)

Module GatewayExamples.
Import WhatsApp WhatsAppSpec GatewaySpec GatewayFacts.

Lemma parsed_message_shape_witness :
  exists mc from,
    messageContent groupImage = Some mc /\
    remoteJid (key groupImage) = Some from /\ from <> "" /\
    msgFrom groupImageRecord = extractPhoneNumber demoImports from /\
    msgTo groupImageRecord = "acct-1" /\
    msgMediaUrl groupImageRecord = None /\
    msgType groupImageRecord <> UNSUPPORTED /\
    ("6f1c" <> "" -> msgId groupImageRecord <> "") /\
    msgPushName groupImageRecord <> Some "" /\
    (msgContent groupImageRecord = "" ->
     msgType groupImageRecord = TEXT /\
     (contentType mc = Some "conversation" \/
      contentType mc = Some "extendedTextMessage")) /\
    (msgIsGroup groupImageRecord = true <->
     exists prefix, from = String.append prefix "@g.us").
Proof.
  apply (parsed_message_shape demoImports "6f1c" 1700000123456 "acct-1"
           groupImage groupImageRecord).
  vm_compute. reflexivity.
Defined.

Lemma window_changes_only_by_own_sends_witness :
  messageQueue
    (run demoImports
       [ OpSend deliveringWorld "acct-1" "923330000000" "hi" None;
         OpConnectionUpdate obligingWorld 0 transientClose;
         OpDisconnect true "acct-1" ]
       (step demoImports openedService firstSend))
    !! burstRecipient
  = messageQueue (step demoImports openedService firstSend) !! burstRecipient.
Proof.
  apply (window_changes_only_by_own_sends demoImports
           [ OpSend deliveringWorld "acct-1" "923330000000" "hi" None;
             OpConnectionUpdate obligingWorld 0 transientClose;
             OpDisconnect true "acct-1" ]
           (step demoImports openedService firstSend) burstRecipient).
  repeat constructor; simpl; try tauto. intros H. discriminate H.
Defined.

Lemma outbound_windows_stay_bounded_witness :
  Z.of_nat (length [ {| message := ""; timestamp := 1700000002100 |} ])
  <= maxMessagesPerWindow.
Proof.
  apply (outbound_windows_stay_bounded demoImports (openingRun ++ [firstSend])
           ∅ {[ "acct-1" := demoRow ]} burstRecipient
           [ {| message := ""; timestamp := 1700000002100 |} ]).
  vm_compute. reflexivity.
Defined.





Lemma transientClose_transient : transient transientClose.
Proof. repeat split; done. Qed.

Lemma consecutive_drops_follow_the_backoff_schedule_witness :
  (exists new,
      effects (run demoImports
                 (consecutiveDrops obligingWorld transientClose 0
                    (nextSocket openedService) 3)
                 openedService)
      = effects openedService ++ new /\
      length new = (2 * 3)%nat /\
      delaysOf new
      = (fun j : nat => reconnectDelay * (reconnectAttempts openedInstance + Z.of_nat j))
          <$> seq 1 3 /\
      socketsCreatedFor "acct-1" new = seq (nextSocket openedService) 3) /\
  accounts (run demoImports
              (consecutiveDrops obligingWorld transientClose 0
                 (nextSocket openedService) 3)
              openedService)
  = accounts openedService /\
  (exists inst',
      instances (run demoImports
                   (consecutiveDrops obligingWorld transientClose 0
                      (nextSocket openedService) 3)
                   openedService) !! "acct-1" = Some inst' /\
      reconnectAttempts inst' = reconnectAttempts openedInstance + Z.of_nat 3 /\
      status inst' = status openedInstance /\
      ((0 < 3)%nat ->
       socket inst' = Some (nextSocket openedService + 3 - 1)%nat /\
       live (run demoImports
               (consecutiveDrops obligingWorld transientClose 0
                  (nextSocket openedService) 3)
               openedService)
            (nextSocket openedService + 3 - 1)%nat "acct-1")).
Proof.
  apply (consecutive_drops_follow_the_backoff_schedule demoImports 3
           obligingWorld transientClose openedService 0 "acct-1" openedInstance).
  - vm_compute. reflexivity.
  - vm_compute. reflexivity.
  - vm_compute. lia.
  - reflexivity.
  - reflexivity.
  - apply transientClose_transient.
  - vm_compute. discriminate.
Defined.


Lemma startup_deals_with_every_account_on_its_own_witness :
  (forall b, b ∉ ["acct-1"; "acct-2"] ->
             instances (Server.reconnectAccounts demoImports startupWorld
                          ["acct-1"; "acct-2"]
                          (newService ∅ {[ "acct-1" := demoRow ]})) !! b = None) /\
  (forall a, a ∈ ["acct-1"; "acct-2"] ->
     match initConnect (startupWorld a) with
     | SocketOpens =>
         exists k,
           instances (Server.reconnectAccounts demoImports startupWorld
                        ["acct-1"; "acct-2"]
                        (newService ∅ {[ "acct-1" := demoRow ]})) !! a
           = Some (setSocket (Some k) (freshInstance a (initNow (startupWorld a)))) /\
           live (Server.reconnectAccounts demoImports startupWorld
                   ["acct-1"; "acct-2"]
                   (newService ∅ {[ "acct-1" := demoRow ]})) k a
     | AuthStateThrows _ | MakeSocketThrows _ =>
         instances (Server.reconnectAccounts demoImports startupWorld
                      ["acct-1"; "acct-2"]
                      (newService ∅ {[ "acct-1" := demoRow ]})) !! a
         = Some ((if failureDbOk (startupWorld a)
                     && bool_decide (is_Some (({[ "acct-1" := demoRow ]}
                                                : gmap string AccountRow) !! a))
                  then setStatus DISCONNECTED else fun i => i)
                   (freshInstance a (initNow (startupWorld a)))) /\
         forall k,
           ~ live (Server.reconnectAccounts demoImports startupWorld
                     ["acct-1"; "acct-2"]
                     (newService ∅ {[ "acct-1" := demoRow ]})) k a
     end).
Proof.
  apply (startup_deals_with_every_account_on_its_own demoImports startupWorld
           ["acct-1"; "acct-2"] ∅ {[ "acct-1" := demoRow ]}).
  apply (bool_decide_unpack _). vm_compute. exact I.
Defined.

End GatewayExamples.
